(** * IEProject2: HMM forward-backward training over letter/silence models

    A shallow embedding of the [HMM] class and of the composite-model
    builder [initialize_combined_hmm] of [IEProject2.py], with the
    properties of the specification settled against it.

    Conventions of the embedding.
    - numpy's float64 is IEEE-754 binary64, taken from the Standard
      Library's [SpecFloat] (round to nearest even, a single NaN).
    - a numpy array is a list (of lists); the theorems that speak about the
      contents of a result assume the shapes numpy would insist on.
    - a reduction ([np.sum], [.sum(axis=k)], [np.dot], Python's [sum]) adds
      left to right; numpy's blocked summation of rows of eight and more
      elements associates differently, which no statement below depends on.
    - a Python [dict] is an association list in insertion order.
    - symbols, states and stages are natural numbers: Python's negative
      indices are used by the source only as [x[-1]] and [-5], which are
      written out.
    - a method is a function from the object to an [outcome]: the object as
      the call leaves it (also when it raises), what was printed, and the
      value returned or the exception raised. *)

From Stdlib Require Import ZArith List Bool Lia Ascii.
From Stdlib Require Import SpecFloat.
From stdpp Require Import base list gmap.

Set Default Proof Using "Type".
Local Open Scope nat_scope.

(** ** binary64 *)

Module Float64.

Definition prec : Z := 53%Z.
Definition emax : Z := 1024%Z.

Definition float := spec_float.

Definition fadd : float -> float -> float := SFadd prec emax.
Definition fsub : float -> float -> float := SFsub prec emax.
Definition fmul : float -> float -> float := SFmul prec emax.
Definition fdiv : float -> float -> float := SFdiv prec emax.
Definition fltb : float -> float -> bool := SFltb.

Definition of_mantissa (m e : Z) : float := binary_normalize prec emax m e false.
Definition of_nat (n : nat) : float := of_mantissa (Z.of_nat n) 0.

Definition fzero : float := S754_zero false.
Definition fone : float := Eval vm_compute in of_mantissa 1 0.

(** The literals of the source, as the doubles Python reads them as. *)
Definition f0_8 : float := Eval vm_compute in of_mantissa 7205759403792794 (-53).
Definition f0_2 : float := Eval vm_compute in of_mantissa 7205759403792794 (-55).
Definition f0_5 : float := Eval vm_compute in of_mantissa 1 (-1).
Definition f0_25 : float := Eval vm_compute in of_mantissa 1 (-2).
Definition f0_75 : float := Eval vm_compute in of_mantissa 3 (-2).
Definition f1e_6 : float := Eval vm_compute in of_mantissa 4722366482869645 (-72).
Definition f10e_6 : float := Eval vm_compute in of_mantissa 5902958103587057 (-69).
Definition fmax : float := Eval vm_compute in of_mantissa 9007199254740991 971.

(** [np.isnan] *)
Definition is_nan (x : float) : bool :=
  match x with S754_nan => true | _ => false end.

Definition is_zero (x : float) : bool :=
  match x with S754_zero _ => true | _ => false end.

(** [np.nan_to_num(x, nan=0.0)] on one entry: NaN becomes [0.0], the
    infinities become the largest finite doubles. *)
Definition nan_to_num (x : float) : float :=
  match x with
  | S754_nan => fzero
  | S754_infinity false => fmax
  | S754_infinity true => SFopp fmax
  | _ => x
  end.

(** [np.sum] of a one-dimensional array. *)
Definition fsum (l : list float) : float :=
  match l with
  | [] => fzero
  | x :: xs => fold_left fadd xs x
  end.

(** Python's builtin [sum]: starts from the integer 0. *)
Definition py_sum (l : list float) : float := fold_left fadd l fzero.

End Float64.
Export Float64.

(** ** Exceptions and results *)

Inductive exn : Set :=
| IndexError
| TypeError
| ValueError
| UnboundLocalError
| ZeroDivisionError
| KeyError
| AttributeError
| AssertionError.

Inductive result (A : Type) : Type :=
| Ok (a : A)
| Raise (e : exn).
Arguments Ok {A} a.
Arguments Raise {A} e.

Definition bind {A B : Type} (r : result A) (k : A -> result B) : result B :=
  match r with
  | Ok a => k a
  | Raise e => Raise e
  end.

Notation "x <- e ;; k" := (bind e (fun x => k))
  (at level 100, e at next level, k at level 200, right associativity).

(** Indexing a list: past the end raises [IndexError]. *)
Definition index {A : Type} (l : list A) (i : nat) : result A :=
  match l !! i with
  | Some a => Ok a
  | None => Raise IndexError
  end.

(** Python's [assert]. *)
Definition assert (b : bool) : result unit :=
  if b then Ok tt else Raise AssertionError.

(** A [for] loop over [l] threading the loop's variables [s]; an exception
    in the body ends the loop. *)
Fixpoint for_each {A S : Type} (l : list A) (body : A -> S -> result S) (s : S)
  : result S :=
  match l with
  | [] => Ok s
  | a :: l' => s' <- body a s ;; for_each l' body s'
  end.

(** ** Arrays *)

Abbreviation vec := (list float).
Abbreviation matrix := (list (list float)).
Abbreviation tensor := (list (list (list float))).

Definition zeros (n : nat) : vec := replicate n fzero.
Definition ones (n : nat) : vec := replicate n fone.
Definition zeros2 (r c : nat) : matrix := replicate r (zeros c).
Definition zeros3 (o r c : nat) : tensor := replicate o (zeros2 r c).

Definition vadd (u v : vec) : vec := zip_with fadd u v.
Definition vmul (u v : vec) : vec := zip_with fmul u v.
Definition vscale_div (u : vec) (q : float) : vec := map (fun x => fdiv x q) u.
Definition madd (A B : matrix) : matrix := zip_with vadd A B.
Definition mmul (A B : matrix) : matrix := zip_with vmul A B.
Definition mdiv (A B : matrix) : matrix := zip_with (zip_with fdiv) A B.

(** [M * v] and [v * M] for a matrix and a row: the row is broadcast over
    the rows of the matrix. *)
Definition mul_rows (M : matrix) (v : vec) : matrix := map (fun r => vmul r v) M.
Definition rows_mul (v : vec) (M : matrix) : matrix := map (fun r => vmul v r) M.

Definition get (M : matrix) (i j : nat) : float :=
  nth j (nth i M []) fzero.

Definition ncols (M : matrix) : nat := length (hd [] M).

(** [M.T] *)
Definition transpose (M : matrix) : matrix :=
  map (fun j => map (fun r => nth j r fzero) M) (seq 0 (ncols M)).

(** [np.dot(v, M)] for a row [v] and a matrix [M]. *)
Definition dot (v : vec) (M : matrix) : vec :=
  map (fun col => fsum (vmul v col)) (transpose M).

(** [np.sum(M)] for a matrix, [C.sum(axis=0)] for a three-dimensional
    array of [r] by [c] slices, and [M.sum(axis=1)]. *)
Definition sum_all (M : matrix) : float := fsum (concat M).

Definition sum_axis0 (r c : nat) (C : tensor) : matrix :=
  match C with
  | [] => zeros2 r c
  | A :: As => fold_left madd As A
  end.

Definition sum_axis1 (M : matrix) : vec := map fsum M.

(** ** Dictionaries *)

Definition dict (V : Type) := list (nat * V).

Fixpoint dict_get {V : Type} (d : dict V) (k : nat) : option V :=
  match d with
  | [] => None
  | (k', v) :: d' => if Nat.eqb k' k then Some v else dict_get d' k
  end.

(** [d[k] = v]: the value is replaced where the key is, a new key goes to
    the end. *)
Fixpoint dict_set {V : Type} (d : dict V) (k : nat) (v : V) : dict V :=
  match d with
  | [] => [(k, v)]
  | (k', v') :: d' =>
      if Nat.eqb k' k then (k', v) :: d' else (k', v') :: dict_set d' k v
  end.

Definition dict_values {V : Type} (d : dict V) : list V := map snd d.

(** [defaultdict(lambda: 0)] and [defaultdict(lambda: defaultdict(lambda: 0))].
    A read of a missing key gives the default 0 (that the read also stores
    the 0 under the key is not tracked: a stored 0.0 changes no sum). *)
Abbreviation counts_row := (dict float).
Abbreviation counts_null := (dict (dict float)).

Definition null_row (d : counts_null) (ix : nat) : counts_row :=
  match dict_get d ix with
  | Some r => r
  | None => []
  end.

(** [d[ix][iy]] *)
Definition null_count (d : counts_null) (ix iy : nat) : float :=
  match dict_get (null_row d ix) iy with
  | Some v => v
  | None => fzero
  end.

(** [d[ix][iy] += p] *)
Definition null_add (d : counts_null) (ix iy : nat) (p : float) : counts_null :=
  dict_set d ix (dict_set (null_row d ix) iy (fadd (null_count d ix iy) p)).

(** ** The model *)

(** [self.emissions] is a two-dimensional array indexed (symbol, state) as
    the builders and [initialize_hmm] create it, and a three-dimensional one
    indexed (symbol, origin, destination) once [update_params] has assigned
    it. *)
Inductive emission_table : Type :=
| Emis2 (e : matrix)
| Emis3 (e : tensor).

Inductive message : Set :=
| NaNWarning (t : nat).   (* "Warning: Total probability is NaN at time {t}. ..." *)

(** The attributes of an [HMM] object.  The two accumulators are [None]
    from the constructor until [reset_counters] runs. *)
Record HMM : Type := mkHMM {
  num_states : nat;
  num_outputs : nat;
  transitions : matrix;
  emissions : emission_table;
  non_null_arcs : list (nat * nat);
  null_arcs : dict (dict float);
  topo_order : list nat;
  output_arc_counts : option tensor;
  output_arc_counts_null : option counts_null
}.

Definition set_transitions (T : matrix) (self : HMM) : HMM :=
  mkHMM (num_states self) (num_outputs self) T (emissions self)
        (non_null_arcs self) (null_arcs self) (topo_order self)
        (output_arc_counts self) (output_arc_counts_null self).

Definition set_emissions (E : emission_table) (self : HMM) : HMM :=
  mkHMM (num_states self) (num_outputs self) (transitions self) E
        (non_null_arcs self) (null_arcs self) (topo_order self)
        (output_arc_counts self) (output_arc_counts_null self).

Definition set_null_arcs (N : dict (dict float)) (self : HMM) : HMM :=
  mkHMM (num_states self) (num_outputs self) (transitions self) (emissions self)
        (non_null_arcs self) N (topo_order self)
        (output_arc_counts self) (output_arc_counts_null self).

Definition set_arc_counts (C : option tensor) (self : HMM) : HMM :=
  mkHMM (num_states self) (num_outputs self) (transitions self) (emissions self)
        (non_null_arcs self) (null_arcs self) (topo_order self)
        C (output_arc_counts_null self).

Definition set_arc_counts_null (N : option counts_null) (self : HMM) : HMM :=
  mkHMM (num_states self) (num_outputs self) (transitions self) (emissions self)
        (non_null_arcs self) (null_arcs self) (topo_order self)
        (output_arc_counts self) N.

(** ** Methods: state, output and exceptions *)

(** What a call leaves behind. *)
Record outcome (A : Type) : Type := mkOutcome {
  self_after : HMM;
  printed : list message;
  returned : result A
}.
Arguments mkOutcome {A} _ _ _.
Arguments self_after {A} _.
Arguments printed {A} _.
Arguments returned {A} _.

Definition method (A : Type) : Type := HMM -> outcome A.

Definition ret {A : Type} (a : A) : method A :=
  fun self => mkOutcome self [] (Ok a).

Definition raise {A : Type} (e : exn) : method A :=
  fun self => mkOutcome self [] (Raise e).

Definition lift {A : Type} (r : result A) : method A :=
  fun self => mkOutcome self [] r.

Definition mbind {A B : Type} (m : method A) (k : A -> method B) : method B :=
  fun self =>
    let o := m self in
    match returned o with
    | Raise e => mkOutcome (self_after o) (printed o) (Raise e)
    | Ok a =>
        let o' := k a (self_after o) in
        mkOutcome (self_after o') (printed o ++ printed o') (returned o')
    end.

Notation "x <~ e ;; k" := (mbind e (fun x => k))
  (at level 100, e at next level, k at level 200, right associativity).

Definition get_self : method HMM := fun self => mkOutcome self [] (Ok self).
Definition modify (f : HMM -> HMM) : method unit := fun self => mkOutcome (f self) [] (Ok tt).
Definition print (m : message) : method unit := fun self => mkOutcome self [m] (Ok tt).

Fixpoint for_each_m {A : Type} (l : list A) (body : A -> method unit) : method unit :=
  match l with
  | [] => ret tt
  | a :: l' => _ <~ body a ;; for_each_m l' body
  end.

(** ** The class [HMM] *)

(** [HMM(num_states, num_outputs)], with [transitions] and [emissions] as
    the caller assigns them next. *)
Definition new_HMM (n o : nat) (T : matrix) (E : emission_table) : HMM :=
  mkHMM n o T E [] [] [] None None.

(** [HMM.reset_counters], the second definition in the class body (the one
    in force). *)
Definition reset_counters (self : HMM) : HMM :=
  set_arc_counts_null (Some [])
    (set_arc_counts
       (Some (zeros3 (num_outputs self) (num_states self) (num_states self))) self).

(** [self.transitions * self.emissions[obs]] *)
Definition trans_emis (self : HMM) (obs : nat) : result matrix :=
  match emissions self with
  | Emis2 e => row <- index e obs ;; Ok (mul_rows (transitions self) row)
  | Emis3 e => M <- index e obs ;; Ok (mmul (transitions self) M)
  end.

(** One statement [x[dst] += x[src] * p] on a row of a trellis. *)
Definition add_scaled (x : vec) (dst src : nat) (p : float) : result vec :=
  a <- index x dst ;;
  b <- index x src ;;
  Ok (<[dst := fadd a (fmul b p)]> x).

(** The null-arc sweep of [backward] over one row:
    [for s in reversed(topo_order): for s_y in null_arcs[s]:
       betas_[t][s] += betas_[t][s_y] * null_arcs[s][s_y]]. *)
Definition backward_null_arcs (self : HMM) (row : vec) : result vec :=
  for_each (rev (topo_order self))
    (fun s row =>
       match dict_get (null_arcs self) s with
       | None => Ok row
       | Some dests =>
           for_each dests (fun '(s_y, p) row => add_scaled row s s_y p) row
       end)
    row.

(** [x[-1]] *)
Definition last_item {A : Type} (l : list A) : result A :=
  match last l with
  | Some a => Ok a
  | None => Raise IndexError
  end.

(** [HMM.backward].  An [init_beta] that is not one entry per state is a
    [ValueError], as for [init_prob] in [forward]. *)
Definition backward (self : HMM) (data : list nat) (Q : vec) (init_beta : option vec)
  : result matrix :=
  let T := length data in
  let betas_ := zeros2 (T + 1) (num_states self) in
  last_row <-
    match init_beta with
    | None => Ok (ones (num_states self))
    | Some b => if Nat.eqb (length b) (num_states self) then Ok b else Raise ValueError
    end ;;
  qT <- last_item Q ;;
  let betas_ := <[T := vscale_div last_row qT]> betas_ in
  for_each (rev (seq 0 T))
    (fun t betas_ =>
       obs <- index data t ;;
       next <- index betas_ (t + 1) ;;
       TE <- trans_emis self obs ;;
       row <- backward_null_arcs self (dot next (transpose TE)) ;;
       q <- index Q t ;;
       Ok (<[t := vscale_div row q]> betas_))
    betas_.

(** [step3], the emitting-arc posterior matrix of stage [t]:
    [(alphas_[t-1] * (transitions * emissions[obs]).T).T * betas_[t]]. *)
Definition step3_of (self : HMM) (alphas_ betas_ : matrix) (t obs : nat)
  : result matrix :=
  a <- index alphas_ (t - 1) ;;
  TE <- trans_emis self obs ;;
  let step1 := rows_mul a (transpose TE) in
  step2 <- index betas_ t ;;
  Ok (mul_rows (transpose step1) step2).

(** [self.output_arc_counts[obs] += step3] *)
Definition add_arc_counts (obs : nat) (step3 : matrix) : method unit :=
  self <~ get_self ;;
  match output_arc_counts self with
  | None => raise TypeError
  | Some counts =>
      C <~ lift (index counts obs) ;;
      modify (set_arc_counts (Some (<[obs := madd C step3]> counts)))
  end.

(** The start of [HMM.forward]: the trellis of zeros with its row 0 set to
    the normalised initial distribution, and [Q] with [Q[0]] set.  An
    [init_prob] that is not one entry per state is a [ValueError] (the
    one-entry arrays numpy would broadcast are not modelled). *)
Definition forward_init (self : HMM) (data : list nat) (init_prob : option vec)
  : result (matrix * vec) :=
  let T := length data in
  let alphas_ := zeros2 (T + 1) (num_states self) in
  let Q := ones (T + 1) in
  init_prob <-
    match init_prob with
    | Some p => if Nat.eqb (length p) (num_states self) then Ok p else Raise ValueError
    | None =>
        match num_states self with
        | O => Raise ZeroDivisionError
        | S _ => Ok (replicate (num_states self) (fdiv fone (of_nat (num_states self))))
        end
    end ;;
  let q0 := fsum init_prob in
  Ok (<[0 := vscale_div init_prob q0]> alphas_, <[0 := q0]> Q).

(** The loop of [HMM.forward] that stands outside the string literal: it
    only rebinds [t], [obs] and [step3]; [None] is "never bound". *)
Definition forward_loop (self : HMM) (data : list nat) (alphas_ betas_ : matrix)
  : result (option (nat * nat * matrix)) :=
  for_each (seq 1 (length data))
    (fun t _ =>
       obs <- index data (t - 1) ;;
       step3 <- step3_of self alphas_ betas_ t obs ;;
       Ok (Some (t, obs, step3)))
    None.

(** [HMM.forward].  The recursion over the stages is inside a string
    literal in the source, so it is not part of the function; there is no
    [return], so a call that ends normally returns [None]. *)
Definition forward (self : HMM) (data : list nat) (init_prob : option vec)
  : outcome (option (matrix * vec)) :=
  (aQ <~ lift (forward_init self data init_prob) ;;
   let alphas_ := fst aQ in
   let Q := snd aQ in
   let init_beta := ones (num_states self) in
   betas_ <~ lift (backward self data Q (Some init_beta)) ;;
   _ <~ modify reset_counters ;;
   self <~ get_self ;;
   last <~ lift (forward_loop self data alphas_ betas_) ;;
   match last with
   | None => raise UnboundLocalError
   | Some (t, obs, step3) =>
       let total_prob := sum_all step3 in
       _ <~ (if is_nan total_prob then print (NaNWarning t) else ret tt) ;;
       let total_prob := if is_nan total_prob then fone else total_prob in
       _ <~ add_arc_counts obs step3 ;;
       ret None
   end) self.

(** [M[ix, iy]] and [M[ix, iy] = v] *)
Definition index2 (M : matrix) (ix iy : nat) : result float :=
  row <- index M ix ;; index row iy.

Definition set2 (M : matrix) (ix iy : nat) (v : float) : matrix :=
  alter (fun row => <[iy := v]> row) ix M.

(** The indices [np.ndenumerate(M)] visits, in its order. *)
Definition ndindex (M : matrix) : list (nat * nat) :=
  concat (imap (fun ix row => map (pair ix) (seq 0 (length row))) M).

(** The pairs [(ix, iy)] of
    [for ix in d.keys(): for iy in d[ix].keys()]. *)
Definition arcs_of {V : Type} (d : dict (dict V)) : list (nat * nat) :=
  concat (map (fun '(ix, row) => map (fun '(iy, _) => (ix, iy)) row) d).

(** [HMM._assert_emission_probs] *)
Definition assert_emission_probs (self : HMM) : result unit :=
  let n := num_states self in
  for_each (non_null_arcs self)
    (fun '(ix, iy) _ =>
       match emissions self with
       | Emis2 _ => Raise IndexError   (* a pair indexes a one-dimensional sum *)
       | Emis3 e =>
           x <- index2 (sum_axis0 n n e) ix iy ;;
           assert (fltb (fsub x fone) f10e_6)
       end)
    tt.

(** [HMM._assert_transition_probs] *)
Definition assert_transition_probs (self : HMM) : result unit :=
  for_each (seq 0 (num_states self))
    (fun s _ =>
       let null_sum :=
         match dict_get (null_arcs self) s with
         | None => fzero
         | Some row => py_sum (dict_values row)
         end in
       row <- index (transitions self) s ;;
       assert (fltb (fsub (fadd (fsum row) null_sum) fone) f10e_6))
    tt.

(** [trans_sum_row[ix] + sum(self.output_arc_counts_null[ix].values())], the
    divisor of both loops of [update_params]. *)
Definition leaving_mass (trans_sum_row : vec) (cn : option counts_null) (ix : nat)
  : result float :=
  r <- index trans_sum_row ix ;;
  match cn with
  | None => Raise TypeError
  | Some cn => Ok (fadd r (py_sum (dict_values (null_row cn ix))))
  end.

(** [HMM.update_params] *)
Definition update_params : method unit :=
  self <~ get_self ;;
  match output_arc_counts self with
  | None => raise AttributeError
  | Some counts =>
      let n := num_states self in
      let cn := output_arc_counts_null self in
      let E := map (fun A => mdiv A (sum_axis0 n n counts)) counts in
      _ <~ modify (set_emissions (Emis3 E)) ;;
      _ <~ modify (set_emissions (Emis3 (map (map (map nan_to_num)) E))) ;;
      self <~ get_self ;;
      _ <~ lift (assert_emission_probs self) ;;
      let trans_sum := sum_axis0 n n counts in
      let trans_sum_row := sum_axis1 trans_sum in
      trans_new <~ lift
        (for_each (ndindex (transitions self))
           (fun '(ix, iy) trans_new =>
              x <- index2 trans_sum ix iy ;;
              d <- leaving_mass trans_sum_row cn ix ;;
              Ok (set2 trans_new ix iy (fdiv x d)))
           (map (map (fun _ => fzero)) (transitions self))) ;;
      _ <~ modify (set_transitions trans_new) ;;
      _ <~ for_each_m (arcs_of (null_arcs self))
        (fun '(ix, iy) =>
           self <~ get_self ;;
           match cn with
           | None => raise TypeError
           | Some c =>
               d <~ lift (leaving_mass trans_sum_row cn ix) ;;
               modify (set_null_arcs
                         (dict_set (null_arcs self) ix
                            (dict_set (null_row (null_arcs self) ix) iy
                               (fdiv (null_count c ix iy) d))))
           end) ;;
      self <~ get_self ;;
      lift (assert_transition_probs self)
  end.

(** [np.sum(step3) - 1 < 1e-6], the condition asserted in
    [forward_backward]. *)
Definition normalization_check (total : float) : bool :=
  fltb (fsub total fone) f1e_6.

(** [self.output_arc_counts_null[ix][iy] += p] *)
Definition add_null_count (ix iy : nat) (p : float) : method unit :=
  self <~ get_self ;;
  match output_arc_counts_null self with
  | None => raise TypeError
  | Some cn => modify (set_arc_counts_null (Some (null_add cn ix iy p)))
  end.

(** [HMM.forward_backward] from its second statement on, with [alphas_] and
    [Q] as the first statement would have bound them. *)
Definition forward_backward_rest (alphas_ : matrix) (Q : vec) (train : list nat)
    (init_beta : option vec) (update : bool) : method (matrix * matrix * vec) :=
  self <~ get_self ;;
  betas_ <~ lift (backward self train Q init_beta) ;;
  _ <~ modify reset_counters ;;
  _ <~ for_each_m (seq 1 (length train))
    (fun t =>
       obs <~ lift (index train (t - 1)) ;;
       self <~ get_self ;;
       step3 <~ lift (step3_of self alphas_ betas_ t obs) ;;
       _ <~ lift (assert (normalization_check (sum_all step3))) ;;
       add_arc_counts obs step3) ;;
  _ <~ for_each_m (seq 1 (length train - 1))
    (fun t =>
       self <~ get_self ;;
       for_each_m (arcs_of (null_arcs self))
         (fun '(ix, iy) =>
            a <~ lift (index2 alphas_ t ix) ;;
            b <~ lift (index2 betas_ t iy) ;;
            q <~ lift (index Q t) ;;
            let p := fmul (fmul (fmul a (null_count (null_arcs self) ix iy)) b) q in
            add_null_count ix iy p)) ;;
  _ <~ (if update then update_params else ret tt) ;;
  ret (alphas_, betas_, Q).

(** [HMM.forward_backward]: [alphas_, Q = self.forward(...)] unpacks what
    [forward] returned; unpacking [None] raises [TypeError]. *)
Definition forward_backward (self : HMM) (train : list nat)
    (init_prob init_beta : option vec) (update : bool)
  : outcome (matrix * matrix * vec) :=
  (r <~ (fun self => forward self train init_prob) ;;
   match r with
   | None => raise TypeError
   | Some (alphas_, Q) => forward_backward_rest alphas_ Q train init_beta update
   end) self.

(** [HMM.forward_log]; [np.log] and [scipy.special.logsumexp] are taken as
    they are given.  [np.empty] is modelled by zeros: the loop assigns every
    entry before it is read. *)
Section LogDomain.

Variable np_log : float -> float.
Variable logsumexp : vec -> float.

Definition column (M : matrix) (j : nat) : vec := map (fun r => nth j r fzero) M.

Definition log_add_scaled (x : vec) (dst src : nat) (p : float) : result vec :=
  a <- index x dst ;;
  b <- index x src ;;
  Ok (<[dst := logsumexp [a; fadd b (np_log p)]]> x).

Definition forward_log (self : HMM) (data : list nat) (init_log_prob : option vec)
  : result matrix :=
  let T := length data in
  let n := num_states self in
  let log_alphas := zeros2 (T + 1) n in
  init_log_prob <-
    match init_log_prob with
    | Some p => if Nat.eqb (length p) n then Ok p else Raise ValueError
    | None =>
        match n with
        | O => Raise ZeroDivisionError
        | S _ => Ok (map np_log (replicate n (fdiv fone (of_nat n))))
        end
    end ;;
  let log_alphas := <[0 := init_log_prob]> log_alphas in
  for_each (seq 1 T)
    (fun t log_alphas =>
       obs <- index data (t - 1) ;;
       trans_matrix <- trans_emis self obs ;;
       prev <- index log_alphas (t - 1) ;;
       let row :=
         map (fun j => logsumexp (vadd prev (map np_log (column trans_matrix j))))
             (seq 0 n) in
       row <-
         (if Nat.ltb t T then
            for_each (topo_order self)
              (fun s row =>
                 match dict_get (null_arcs self) s with
                 | None => Ok row
                 | Some dests =>
                     for_each dests
                       (fun '(s_y, p) row => log_add_scaled row s_y s p) row
                 end)
              row
          else Ok row) ;;
       Ok (<[t := row]> log_alphas))
    log_alphas.

End LogDomain.

(** ** The composite-model builder *)

(** [transition_prob_matrix], the module-level constant. *)
Definition transition_prob_matrix : matrix :=
  [[f0_8; f0_2; fzero]; [fzero; f0_8; f0_2]; [fzero; fzero; f0_8]].

Definition has_shape (B : matrix) (h w : nat) : bool :=
  Nat.eqb (length B) h && forallb (fun r => Nat.eqb (length r) w) B.

(** The rows of [B] written over [A] from row [r0] on, each from column
    [c0] on. *)
Fixpoint write_block (A : matrix) (r0 c0 : nat) (B : matrix) : matrix :=
  match B with
  | [] => A
  | b :: B' => write_block (alter (list_inserts c0 b) r0 A) (S r0) c0 B'
  end.

(** [A[r0:r0+h, c0:c0+w] = B] for a slice inside [A]; a [B] of another
    shape is a [ValueError] (the shapes numpy would broadcast are not
    modelled). *)
Definition assign_block (A : matrix) (r0 c0 h w : nat) (B : matrix) : result matrix :=
  if has_shape B h w then Ok (write_block A r0 c0 B) else Raise ValueError.

Definition emissions_2d (h : HMM) : result matrix :=
  match emissions h with
  | Emis2 e => Ok e
  | Emis3 _ => Raise ValueError
  end.

(** The loop over the letters of the last definition of
    [initialize_combined_hmm]; it threads the two arrays and
    [current_state_index]. *)
Definition copy_letters (word : list ascii) (letter_HMMs : ascii -> option HMM)
    (TE : matrix * matrix * nat) : result (matrix * matrix * nat) :=
  for_each word
    (fun letter '(T, E, current_state_index) =>
       match letter_HMMs letter with
       | None => Raise ValueError
       | Some letter_hmm =>
           let end_state_index := current_state_index + 3 in
           T <- assign_block T current_state_index current_state_index 3 3
                  (transitions letter_hmm) ;;
           lE <- emissions_2d letter_hmm ;;
           E <- assign_block E 0 current_state_index 256 3 lE ;;
           Ok (T, E, end_state_index)
       end)
    TE.

(** The body of its loop [for i in range(5, num_states - 5)]. *)
Definition link_row (num_states i : nat) (T : matrix) : result matrix :=
  if Nat.eqb ((i - 5) mod 3) 2 then
    let T := set2 T i i f0_8 in
    Ok (if Nat.ltb (i + 1) (num_states - 5) then set2 T i (i + 1) f0_2 else T)
  else
    row <- index transition_prob_matrix ((i - 5) mod 3) ;;
    Ok (alter (list_inserts i row) i T).

Definition link_letters (num_states : nat) (T : matrix) : result matrix :=
  for_each (seq 5 (num_states - 5 - 5)) (link_row num_states) T.

(** [initialize_combined_hmm], the last definition of the module (the one
    bound to the name from there on, and the one the training driver
    calls). *)
Definition initialize_combined_hmm (word : list ascii)
    (letter_HMMs : ascii -> option HMM) (silence_HMM : HMM) : result HMM :=
  let num_states := 5 + 5 + 3 * length word in
  let T := zeros2 num_states num_states in
  let E := zeros2 256 num_states in
  T <- assign_block T 0 0 5 5 (transitions silence_HMM) ;;
  sE <- emissions_2d silence_HMM ;;
  E <- assign_block E 0 0 256 5 sE ;;
  TEc <- copy_letters word letter_HMMs (T, E, 5) ;;
  let T := fst (fst TEc) in
  let E := snd (fst TEc) in
  T <- link_letters num_states T ;;
  T <- assign_block T (num_states - 5) (num_states - 5) 5 5 (transitions silence_HMM) ;;
  E <- assign_block E 0 (num_states - 5) 256 5 sE ;;
  Ok (new_HMM num_states 256 T (Emis2 E)).

(** The earlier definition of [initialize_combined_hmm] that links the
    blocks with entries [1.0] (the third [def] of that name; the later ones
    replace it). *)
Definition initialize_combined_hmm_linked (word : list ascii)
    (letter_HMMs : ascii -> option HMM) (silence_HMM : HMM) : result HMM :=
  let num_states := 5 + 5 + 3 * length word in
  let T := zeros2 num_states num_states in
  let E := zeros2 256 num_states in
  T <- assign_block T 0 0 5 5 (transitions silence_HMM) ;;
  sE <- emissions_2d silence_HMM ;;
  E <- assign_block E 0 0 256 5 sE ;;
  TEc <- for_each word
    (fun letter '(T, E, current_state_index) =>
       match letter_HMMs letter with
       | None => Raise KeyError
       | Some letter_hmm =>
           let end_state_index := current_state_index + 3 in
           let T := set2 T (current_state_index - 1) current_state_index fone in
           T <- assign_block T current_state_index current_state_index 3 3
                  (transitions letter_hmm) ;;
           lE <- emissions_2d letter_hmm ;;
           E <- assign_block E 0 current_state_index 256 3 lE ;;
           Ok (T, E, end_state_index)
       end)
    (T, E, 5) ;;
  let T := fst (fst TEc) in
  let E := snd (fst TEc) in
  let current_state_index := snd TEc in
  let T := alter (list_inserts (num_states - 5) (ones 5)) (current_state_index - 1) T in
  T <- assign_block T (num_states - 5) (num_states - 5) 5 5 (transitions silence_HMM) ;;
  E <- assign_block E 0 (num_states - 5) 256 5 sE ;;
  Ok (new_HMM num_states 256 T (Emis2 E)).

(** ** Auxiliary notions for the statements *)

(** The parameters of a model: everything but the two accumulators. *)
Definition params (s : HMM) :=
  (num_states s, num_outputs s, transitions s, emissions s,
   non_null_arcs s, null_arcs s, topo_order s).

(** A method that leaves an attribute (or a group of attributes) [proj] of
    the object as it is. *)
Definition preserves {A X : Type} (proj : HMM -> X) (m : method A) : Prop :=
  forall s, proj (self_after (m s)) = proj s.

(** [with_counts C N self]: the model with its two accumulators replaced. *)
Definition with_counts (C : option tensor) (N : option counts_null) (self : HMM) : HMM :=
  set_arc_counts_null N (set_arc_counts C self).

(** ** Small models for the examples *)

(** One state with a self-loop of probability 0.5, one symbol. *)
Definition unit_model : HMM := new_HMM 1 1 [[f0_5]] (Emis2 [[fone]]).

(** One state looping with probability 1, two equally likely symbols. *)
Definition two_symbol_model : HMM := new_HMM 1 2 [[fone]] (Emis2 [[f0_5]; [f0_5]]).

(** ** Shapes and the quantities of the re-estimation formulas *)

(** [M] has [h] rows of [w] entries. *)
Definition shape (M : matrix) (h w : nat) : Prop :=
  length M = h /\ Forall (fun r => length r = w) M.

(** The count of the arc [i -> j] summed over the symbols. *)
Definition arc_total (counts : tensor) (i j : nat) : float :=
  fsum (map (fun A => get A i j) counts).

(** The expected mass leaving [i]: its arc counts summed over every
    destination (of [n]) and every symbol, plus its null-arc counts. *)
Definition mass_leaving (n : nat) (counts : tensor) (cn : counts_null) (i : nat) : float :=
  fadd (fsum (map (fun j => arc_total counts i j) (seq 0 n)))
       (py_sum (dict_values (null_row cn i))).

(** [d[ix][iy]] for a dictionary of dictionaries, when it is there. *)
Definition lookup2 {V : Type} (d : dict (dict V)) (ix iy : nat) : option V :=
  match dict_get d ix with
  | Some row => dict_get row iy
  | None => None
  end.

(** The emission of symbol [o] at the destination [j] as a table indexed
    by symbol and destination only would have it: the counts of [o] into [j]
    summed over the origins, divided by that sum summed over the symbols. *)
Definition emission_by_destination (n : nat) (counts : tensor) (o j : nat) : float :=
  fdiv (fsum (map (fun i => get (nth o counts []) i j) (seq 0 n)))
       (fsum (map (fun A => fsum (map (fun i => get A i j) (seq 0 n))) counts)).

(** A model of two states and two symbols with accumulated counts. *)
Definition counted_counts : tensor :=
  [[[fone; f0_5]; [fzero; fzero]]; [[fone; f0_5]; [fzero; f0_5]]].

Definition counted_model : HMM :=
  with_counts (Some counted_counts)
    (Some [(0, [(1, f0_5)])])
    (set_null_arcs [(0, [(1, f0_5)])]
       (new_HMM 2 2 [[f0_5; f0_2]; [fzero; fone]] (Emis2 [[f0_5; f0_5]; [f0_5; f0_5]]))).

(** [(i, j)] is a position of [M]. *)
Definition inb (M : matrix) (i j : nat) : Prop :=
  exists r, M !! i = Some r /\ j < length r.

(** ** The backward recursion in the words of the specification *)

(** The two-dimensional emission table of a model (symbol, state). *)
Definition emission_matrix (self : HMM) : matrix :=
  match emissions self with
  | Emis2 e => e
  | Emis3 _ => []
  end.

(** The emitting contribution:
    [beta[t][i] = sum over j of transitions[i][j] * emissions[obs][j] * beta[t+1][j]]. *)
Definition emitting_beta (self : HMM) (obs : nat) (beta_next : vec) : vec :=
  let n := num_states self in
  map (fun i =>
         fsum (map (fun j =>
                      fmul (fmul (get (transitions self) i j)
                                 (get (emission_matrix self) obs j))
                           (nth j beta_next fzero))
                   (seq 0 n)))
      (seq 0 n).

(** [beta[s] += beta[d] * nullProb(s, d)] for every null arc [s -> d], the
    origins [s] taken in reverse topological order. *)
Definition null_propagate_reverse (self : HMM) (beta : vec) : vec :=
  fold_left
    (fun beta s =>
       fold_left
         (fun beta '(d, p) =>
            <[s := fadd (nth s beta fzero) (fmul (nth d beta fzero) p)]> beta)
         (null_row (null_arcs self) s) beta)
    (rev (topo_order self)) beta.

(** The rows [t .. T] of the backward trellis, [obs] being the
    observations from [t] on. *)
Fixpoint backward_rows (self : HMM) (Q terminal : vec) (t : nat) (obs : list nat)
  : list vec :=
  match obs with
  | [] => [vscale_div terminal (nth t Q fzero)]
  | o :: rest =>
      let rows := backward_rows self Q terminal (S t) rest in
      vscale_div (null_propagate_reverse self (emitting_beta self o (hd [] rows)))
                 (nth t Q fzero)
      :: rows
  end.

Definition backward_spec (self : HMM) (data : list nat) (Q : vec) (init_beta : option vec)
  : matrix :=
  backward_rows self Q
    (match init_beta with Some b => b | None => ones (num_states self) end) 0 data.

(** ** Well-formed models and sequences *)

(** Every null arc the sweeps visit joins two states of the model. *)
Definition null_arcs_in_range (self : HMM) : bool :=
  forallb
    (fun s =>
       forallb (fun '(d, _) => Nat.ltb s (num_states self) && Nat.ltb d (num_states self))
               (null_row (null_arcs self) s))
    (topo_order self).

(** The transitions are [num_states] by [num_states], the emissions are
    the two-dimensional table [num_outputs] by [num_states], and the null
    arcs are in range. *)
Definition well_formed (self : HMM) : bool :=
  has_shape (transitions self) (num_states self) (num_states self)
  && match emissions self with
     | Emis2 e => has_shape e (num_outputs self) (num_states self)
     | Emis3 _ => false
     end
  && null_arcs_in_range self.

Definition symbols_in_range (self : HMM) (data : list nat) : bool :=
  forallb (fun o => Nat.ltb o (num_outputs self)) data.

(** Two states, a null arc from the first to the second, two symbols. *)
Definition null_arc_model : HMM :=
  mkHMM 2 2 [[f0_5; fzero]; [fzero; fone]] (Emis2 [[fone; f0_5]; [fzero; f0_5]])
        [] [(0, [(1, f0_5)])] [0; 1] None None.

(** ** Prototypes for the builder *)

(** A sub-model of [k] states over the 256 symbols, as the builder needs
    it: [k] by [k] transitions and a 256 by [k] emission table. *)
Definition prototype_ok (k : nat) (h : HMM) : bool :=
  has_shape (transitions h) k k
  && match emissions h with
     | Emis2 e => has_shape e 256 k
     | Emis3 _ => false
     end.

(** Every letter of the word has a registered three-state prototype. *)
Definition registered (letter_HMMs : ascii -> option HMM) (word : list ascii) : bool :=
  forallb (fun c => match letter_HMMs c with
                    | Some h => prototype_ok 3 h
                    | None => false
                    end) word.

(** The letter and silence prototypes of the module: the transition
    matrices it gives them, with uniform emissions. *)
Definition uniform_emissions (k : nat) : matrix :=
  replicate 256 (replicate k (fdiv fone (of_nat 256))).

Definition letter_prototype : HMM :=
  new_HMM 3 256 transition_prob_matrix (Emis2 (uniform_emissions 3)).

Definition silence_transition_prob_matrix : matrix :=
  [[f0_25; f0_25; f0_25; f0_25; fzero];
   [fzero; f0_25; f0_25; f0_25; f0_25];
   [fzero; fzero; f0_25; f0_25; f0_25];
   [fzero; fzero; fzero; f0_25; f0_25];
   [fzero; fzero; fzero; fzero; f0_75]].

Definition silence_prototype : HMM :=
  new_HMM 5 256 silence_transition_prob_matrix (Emis2 (uniform_emissions 5)).

(** [letter_HMMs]: every lower-case letter but k, q and z. *)
Definition letter_table (c : ascii) : option HMM :=
  let n := nat_of_ascii c in
  if Nat.leb 97 n && Nat.leb n 122
     && negb (Ascii.eqb c "k" || Ascii.eqb c "q" || Ascii.eqb c "z")
  then Some letter_prototype else None.

(** ** The label files *)

(** [range(0, n, 2)] *)
Definition range_by_two (n : nat) : list nat :=
  map (fun k => 2 * k) (seq 0 (Nat.div2 (S n))).

(** [s[i:j]] for [0 <= i <= j]: a slice stops where [s] ends. *)
Definition slice {A : Type} (s : list A) (i j : nat) : list A :=
  take (j - i) (drop i s).

(** [process_labels_into_pairs]: every string of the list is cut into
    chunks of two characters. *)
Definition process_labels_into_pairs (labels_list : list (list ascii))
  : list (list ascii) :=
  fold_left
    (fun pairs labels =>
       pairs ++ map (fun i => slice labels i (i + 2)) (range_by_two (length labels)))
    labels_list [].

(** ** The order of the states *)

Definition set_topo_order (t : list nat) (self : HMM) : HMM :=
  mkHMM (num_states self) (num_outputs self) (transitions self) (emissions self)
        (non_null_arcs self) (null_arcs self) t
        (output_arc_counts self) (output_arc_counts_null self).

(** [HMM.add_null_arc] *)
Definition add_null_arc (ix iy : nat) (prob : float) : method unit :=
  self <~ get_self ;;
  _ <~ (match dict_get (null_arcs self) ix with
        | None => modify (set_null_arcs (dict_set (null_arcs self) ix []))
        | Some _ => ret tt
        end) ;;
  self <~ get_self ;;
  modify (set_null_arcs
            (dict_set (null_arcs self) ix
               (dict_set (null_row (null_arcs self) ix) iy prob))).

(** The array [count] of [HMM.init_null_arcs] after its first loops: for
    every state, the number of null arcs into it.  Its entries are whole
    numbers, which binary64 holds exactly; they are integers here. *)
Definition count_null_arcs_into (n : nat) (na : dict (dict float)) : list Z :=
  fold_left
    (fun count '(_, iy) => if Nat.ltb iy n then alter Z.succ iy count else count)
    (arcs_of na) (replicate n 0%Z).

(** [count[s_y] -= 1; if count[s_y] == 0: stack.append(s_y)].  The stack is
    a list with its top first. *)
Definition release (s_y : nat) (cs : list Z * list nat) : result (list Z * list nat) :=
  c <- index (fst cs) s_y ;;
  let c := (c - 1)%Z in
  Ok (<[s_y := c]> (fst cs), if Z.eqb c 0 then s_y :: snd cs else snd cs).

(** The [while len(stack) > 0] loop of [HMM.init_null_arcs]; it gives the
    order as it is when the loop ends, normally or by an exception, and
    [None] when [fuel] iterations were not enough. *)
Fixpoint topo_sort_loop (fuel : nat) (na : dict (dict float)) (count : list Z)
    (stack order : list nat) : option (list nat * result unit) :=
  match fuel with
  | O => None
  | S fuel =>
      match stack with
      | [] => Some (order, Ok tt)
      | s :: stack =>
          let order := order ++ [s] in
          match dict_get na s with
          | None => topo_sort_loop fuel na count stack order
          | Some row =>
              match for_each (map fst row) release (count, stack) with
              | Raise e => Some (order, Raise e)
              | Ok cs => topo_sort_loop fuel na (fst cs) (snd cs) order
              end
          end
      end
  end.

(** The number of iterations the loop has left at most: what is on the
    stack and what can still be put on it. *)
Definition pending (count : list Z) (stack : list nat) : nat :=
  length stack + length (List.filter (fun c => Z.ltb 0 c) count).

(** [HMM.init_null_arcs].  The loop is given one iteration more than
    [pending], which is enough for it to end ([topo_sort_loop_ends]). *)
Definition init_null_arcs (null_arcs_arg : option (dict (dict float))) : method unit :=
  _ <~ (match null_arcs_arg with
        | Some na => modify (set_null_arcs na)
        | None => ret tt
        end) ;;
  self <~ get_self ;;
  let n := num_states self in
  let count := count_null_arcs_into n (null_arcs self) in
  let stack := rev (List.filter (fun s => Z.eqb (nth s count 0%Z) 0) (seq 0 n)) in
  match topo_sort_loop (S (pending count stack)) (null_arcs self) count stack
          (topo_order self) with
  | None => ret tt
  | Some (order, r) =>
      _ <~ modify (set_topo_order order) ;;
      _ <~ lift r ;;
      lift (assert (Nat.eqb (length order) n))
  end.

(** [check_topological_order]; the states of the list are Python
    integers. *)
Inductive order_message : Set :=
| GapsOrRepetitions   (* "Topological order contains gaps or repetitions." *)
| Repetitions         (* "Topological order contains repetitions." *)
| MissingStates       (* "Topological order does not contain all states." *)
| ValidOrder.         (* "Topological order is valid." *)

(** Its loop: a verdict when it returns from inside the loop, the set
    [seen_states] when the loop ends. *)
Fixpoint check_order_loop (topo_order : list Z) (prev_state : option Z)
    (seen_states : gset Z) : (bool * order_message) + gset Z :=
  match topo_order with
  | [] => inr seen_states
  | state :: rest =>
      if match prev_state with
         | Some p => negb (Z.eqb state (p + 1))
         | None => false
         end
      then inl (false, GapsOrRepetitions)
      else if bool_decide (state ∈ seen_states) then inl (false, Repetitions)
      else check_order_loop rest (Some state) ({[state]} ∪ seen_states)
  end.

Definition check_topological_order (topo_order : list Z) (num_states : Z)
  : bool * order_message :=
  match check_order_loop topo_order None ∅ with
  | inl verdict => verdict
  | inr seen_states =>
      if negb (Z.eqb (Z.of_nat (size seen_states)) num_states)
      then (false, MissingStates)
      else (true, ValidOrder)
  end.

(** The integers [k0, k0 + 1, ...], [n] of them. *)
Definition run_from (k0 : Z) (n : nat) : list Z :=
  map (fun i => (k0 + Z.of_nat i)%Z) (seq 0 n).

(** ** Accumulators and trellises *)

Definition same_shape (A B : matrix) : bool :=
  Nat.eqb (length A) (length B)
  && forallb (fun ab => Nat.eqb (length (fst ab)) (length (snd ab))) (zip A B).

Definition same_shape3 (A B : tensor) : bool :=
  Nat.eqb (length A) (length B)
  && forallb (fun ab => same_shape (fst ab) (snd ab)) (zip A B).

(** [HMM.set_counters]: the other accumulators are added to the model's.
    Arrays of different shapes are a [ValueError] (the shapes numpy would
    broadcast are not modelled). *)
Definition set_counters (another_output_arc_counts : tensor)
    (another_output_arc_counts_null : counts_null) : method unit :=
  self <~ get_self ;;
  match output_arc_counts self with
  | None => raise TypeError
  | Some counts =>
      _ <~ (if same_shape3 counts another_output_arc_counts
            then modify (set_arc_counts
                           (Some (zip_with madd counts another_output_arc_counts)))
            else raise ValueError) ;;
      for_each_m (arcs_of another_output_arc_counts_null)
        (fun '(ix, iy) =>
           add_null_count ix iy (null_count another_output_arc_counts_null ix iy))
  end.

(** [alphas[t] *= cur_q] *)
Definition scale_row (t : nat) (cur_q : float) (M : matrix) : matrix :=
  alter (map (fun x => fmul x cur_q)) t M.

(** [HMM.un_norm_alphas_] *)
Definition un_norm_alphas_ (alphas_ : matrix) (Q : vec) : result matrix :=
  r <- for_each (seq 0 (length alphas_))
         (fun t '(cur_q, alphas) =>
            q <- index Q t ;;
            let cur_q := fmul cur_q q in
            Ok (cur_q, scale_row t cur_q alphas))
         (fone, alphas_) ;;
  Ok (snd r).

(** [HMM.un_norm_betas_] *)
Definition un_norm_betas_ (betas_ : matrix) (Q : vec) : result matrix :=
  r <- for_each (rev (seq 0 (length betas_ - 1)))
         (fun t '(cur_q, betas) =>
            q <- index Q (t + 1) ;;
            let cur_q := fmul cur_q q in
            Ok (cur_q, scale_row t cur_q betas))
         (fone, betas_) ;;
  Ok (snd r).

(** [HMM.compute_log_likelihood]; [np.log] is taken as it is given. *)
Section Scoring.

Variable np_log : float -> float.

Definition compute_log_likelihood (self : HMM) (data : list nat)
    (init_prob : option vec) (init_beta : vec) : outcome float :=
  (r <~ (fun self => forward self data init_prob) ;;
   match r with
   | None => raise TypeError
   | Some (alphas_, Q) =>
       a <~ lift (index alphas_ (length data)) ;;
       ret (fadd (np_log (fsum (vmul a init_beta))) (fsum (map np_log Q)))
   end) self.

End Scoring.


(** ** Notions for the statements about the topological sort *)

(** The keys of a dictionary are distinct, and so are the keys of each of
    its rows. *)
Definition keys_distinct (na : dict (dict float)) : bool :=
  bool_decide (NoDup (map fst na))
  && forallb (fun kr => bool_decide (NoDup (map fst (snd kr)))) na.

(** The number of null arcs into [d] from a state that is not among
    [visited]. *)
Definition indegree (na : dict (dict float)) (visited : list nat) (d : nat) : nat :=
  length (filter (fun a : nat * nat => snd a = d /\ fst a ∉ visited) (arcs_of na)).

(** [s] stands before [d] in [order]. *)
Definition comes_before (order : list nat) (s d : nat) : Prop :=
  exists i j, order !! i = Some s /\ order !! j = Some d /\ i < j.

(** The destinations of the null arcs from [s]. *)
Definition dests_of (na : dict (dict float)) (s : nat) : list nat :=
  match dict_get na s with
  | Some row => map fst row
  | None => []
  end.

(** What holds of the variables of the loop of [init_null_arcs]: [order] is
    what has been taken from the stack, and [waiting] are the destinations
    of the last of them that the inner loop has not come to yet. *)
Definition sort_inv (na : dict (dict float)) (n : nat) (waiting : list nat)
    (count : list Z) (stack order : list nat) : Prop :=
  length count = n /\
  (forall d, d < n ->
     count !! d =
     Some (Z.of_nat (indegree na order d + (if decide (d ∈ waiting) then 1 else 0)))) /\
  NoDup (order ++ stack) /\
  (forall x, x ∈ order ++ stack -> x < n /\ indegree na order x = 0 /\ x ∉ waiting) /\
  (forall j d s, order !! j = Some d -> (s, d) ∈ arcs_of na -> s ∈ take j order) /\
  (forall s d, s ∈ order -> d ∉ waiting -> (s, d) ∈ arcs_of na -> d < n).

(** [s -> d] is a null arc. *)
Definition null_arc (na : dict (dict float)) (s d : nat) : Prop :=
  (s, d) ∈ arcs_of na.

(** Every null arc joins two states of a model of [n] states. *)
Definition arcs_in_range (na : dict (dict float)) (n : nat) : bool :=
  forallb (fun a : nat * nat => Nat.ltb (fst a) n && Nat.ltb (snd a) n) (arcs_of na).

(** ** The log-domain backward pass *)

(** [HMM.backward_log]; [np.log] and [scipy.special.logsumexp] are taken as
    they are given, and [np.empty] is modelled by zeros, as for
    [forward_log].  Rows of different lengths in a sum are a [ValueError]. *)
Section LogDomainBackward.

Variable np_log : float -> float.
Variable logsumexp : vec -> float.

(** [log_betas[t + 1] + np.log(self.emissions[obs][j])
      + np.log(self.transitions[j])] *)
Definition log_terms (self : HMM) (obs j : nat) (next : vec) : result vec :=
  ab <-
    match emissions self with
    | Emis2 e =>
        row <- index e obs ;;
        x <- index row j ;;
        Ok (map (fun a => fadd a (np_log x)) next)
    | Emis3 e =>
        M <- index e obs ;;
        r <- index M j ;;
        if Nat.eqb (length r) (length next) then Ok (vadd next (map np_log r))
        else Raise ValueError
    end ;;
  Trow <- index (transitions self) j ;;
  if Nat.eqb (length Trow) (length ab) then Ok (vadd ab (map np_log Trow))
  else Raise ValueError.

Definition backward_log (self : HMM) (data : list nat) (init_log_beta : option vec)
  : result matrix :=
  let T := length data in
  let n := num_states self in
  let log_betas := zeros2 (T + 1) n in
  last_row <-
    match init_log_beta with
    | None => Ok (zeros n)
    | Some b => if Nat.eqb (length b) n then Ok b else Raise ValueError
    end ;;
  let log_betas := <[T := last_row]> log_betas in
  for_each (rev (seq 0 T))
    (fun t log_betas =>
       obs <- index data t ;;
       row <- index log_betas t ;;
       row <-
         for_each (seq 0 n)
           (fun j row =>
              next <- index log_betas (t + 1) ;;
              terms <- log_terms self obs j next ;;
              _ <- index row j ;;
              Ok (<[j := logsumexp terms]> row))
           row ;;
       row <-
         for_each (rev (topo_order self))
           (fun s row =>
              match dict_get (null_arcs self) s with
              | None => Ok row
              | Some dests =>
                  for_each dests
                    (fun '(s_y, p) row => log_add_scaled np_log logsumexp row s s_y p) row
              end)
           row ;;
       Ok (<[t := row]> log_betas))
    log_betas.

End LogDomainBackward.

(** ** The prototype initialiser *)

Definition f0_7 : float := Eval vm_compute in of_mantissa 6305039478318694 (-53).
Definition f0_3 : float := Eval vm_compute in of_mantissa 5404319552844595 (-54).
Definition f1e_5 : float := Eval vm_compute in of_mantissa 5902958103587057 (-69).
Definition f1e_8 : float := Eval vm_compute in of_mantissa 6044629098073146 (-79).

Definition is_finite (x : float) : bool :=
  match x with
  | S754_zero _ | S754_finite _ _ _ => true
  | _ => false
  end.

(** [np.isclose(a, b)] and [np.allclose(v, b)] with the default tolerances
    [rtol=1e-05] and [atol=1e-08]. *)
Definition isclose (a b : float) : bool :=
  if is_finite a && is_finite b
  then SFleb (SFabs (fsub a b)) (fadd f1e_8 (fmul f1e_5 (SFabs b)))
  else SFeqb a b.

Definition allclose (v : vec) (b : float) : bool := forallb (fun a => isclose a b) v.

(** [E.sum(axis=0)] for a matrix of rows of [w] entries. *)
Definition sum_rows (w : nat) (E : matrix) : vec :=
  match E with
  | [] => zeros w
  | r :: rs => fold_left vadd rs r
  end.

Definition letter_type : list ascii := ["l"; "e"; "t"; "t"; "e"; "r"]%char.
Definition silence_type : list ascii := ["s"; "i"; "l"; "e"; "n"; "c"; "e"]%char.

(** The left-to-right chain both branches of [initialize_hmm] write:
    [stay] on the diagonal, [move] beside it, and 1 in the last corner
    ([T[-1, -1]] of an array without rows is an [IndexError]). *)
Definition chain (num_states : nat) (stay move : float) (T : matrix) : result matrix :=
  let T :=
    fold_left (fun T i => set2 (set2 T i i stay) i (i + 1) move)
      (seq 0 (num_states - 1)) T in
  if Nat.eqb num_states 0 then Raise IndexError
  else Ok (set2 T (num_states - 1) (num_states - 1) fone).

(** [initialize_hmm(hmm, num_states, num_outputs, type)] *)
Definition initialize_hmm (num_states num_outputs : nat) (type : list ascii)
  : method unit :=
  _ <~ modify (set_transitions (zeros2 num_states num_states)) ;;
  self <~ get_self ;;
  _ <~ (if List.list_eq_dec ascii_dec type letter_type then
          T <~ lift (chain num_states f0_5 f0_5 (transitions self)) ;;
          modify (set_transitions T)
        else if List.list_eq_dec ascii_dec type silence_type then
          T <~ lift (chain num_states f0_7 f0_3 (transitions self)) ;;
          modify (set_transitions T)
        else ret tt) ;;
  c <~ lift (if Nat.eqb num_outputs 0 then Raise ZeroDivisionError
             else Ok (fdiv fone (of_nat num_outputs))) ;;
  _ <~ modify (set_emissions (Emis2 (replicate num_outputs (replicate num_states c)))) ;;
  self <~ get_self ;;
  _ <~ lift (assert (allclose (sum_axis1 (transitions self)) fone)) ;;
  lift (assert (allclose (sum_rows num_states (emission_matrix self)) fone)).

(** The matrix of such a chain. *)
Definition chain_entry (n : nat) (stay move : float) (i j : nat) : float :=
  if Nat.eqb i (n - 1) then (if Nat.eqb j i then fone else fzero)
  else if Nat.eqb j i then stay
  else if Nat.eqb j (i + 1) then move
  else fzero.
(** * Properties *)

(** ** Results and loops *)

Lemma bind_Ok {A B : Type} (r : result A) (k : A -> result B) (b : B) :
  bind r k = Ok b -> exists a, r = Ok a /\ k a = Ok b.
Proof. destruct r as [a|e]; simpl; [eauto | discriminate]. Qed.

Lemma index_Ok {A : Type} (l : list A) i a : index l i = Ok a <-> l !! i = Some a.
Proof.
  unfold index. destruct (l !! i); split; intros H; try discriminate; congruence.
Qed.

Lemma for_each_cons {A S : Type} (a : A) (l : list A) (body : A -> S -> result S) (s : S) :
  for_each (a :: l) body s = (s' <- body a s ;; for_each l body s').
Proof. reflexivity. Qed.

Lemma for_each_app {A S : Type} (l1 l2 : list A) (body : A -> S -> result S) (s : S) :
  for_each (l1 ++ l2) body s = (s' <- for_each l1 body s ;; for_each l2 body s').
Proof.
  revert s. induction l1 as [|a l1 IH]; intros s; simpl; [reflexivity|].
  destruct (body a s) as [s'|e]; simpl; [apply IH | reflexivity].
Qed.

Lemma for_each_app_Ok {A S : Type} (l1 l2 : list A) (body : A -> S -> result S) s s' :
  for_each (l1 ++ l2) body s = Ok s' ->
  exists s1, for_each l1 body s = Ok s1 /\ for_each l2 body s1 = Ok s'.
Proof. rewrite for_each_app. apply bind_Ok. Qed.

Lemma for_each_ext {A S : Type} (l : list A) (f g : A -> S -> result S) (s : S) :
  (forall a s, f a s = g a s) -> for_each l f s = for_each l g s.
Proof.
  intros H. revert s. induction l as [|a l IH]; intros s; simpl; [reflexivity|].
  rewrite H. destruct (g a s); simpl; [apply IH | reflexivity].
Qed.

(** A loop whose body keeps an invariant returns, and the invariant holds
    of what it returns. *)
Lemma for_each_invariant {A S : Type} (I : S -> Prop) (l : list A)
    (body : A -> S -> result S) :
  (forall a s, In a l -> I s -> exists s', body a s = Ok s' /\ I s') ->
  forall s, I s -> exists s', for_each l body s = Ok s' /\ I s'.
Proof.
  induction l as [|a l IH]; intros Hbody s Hs; simpl.
  - eauto.
  - destruct (Hbody a s (or_introl eq_refl) Hs) as (s1 & -> & Hs1). simpl.
    apply IH; [|exact Hs1]. intros a' s' Ha'. apply Hbody. right. exact Ha'.
Qed.

(** ** Methods *)

Section Preserves.

Context {X : Type} (proj : HMM -> X).

Lemma preserves_ret {A : Type} (a : A) : preserves proj (ret a).
Proof. intros s. reflexivity. Qed.

Lemma preserves_raise {A : Type} (e : exn) : preserves proj (@raise A e).
Proof. intros s. reflexivity. Qed.

Lemma preserves_lift {A : Type} (r : result A) : preserves proj (lift r).
Proof. intros s. reflexivity. Qed.

Lemma preserves_print (m : message) : preserves proj (print m).
Proof. intros s. reflexivity. Qed.

Lemma preserves_get_self : preserves proj get_self.
Proof. intros s. reflexivity. Qed.

Lemma preserves_modify (f : HMM -> HMM) :
  (forall s, proj (f s) = proj s) -> preserves proj (modify f).
Proof. intros H s. apply H. Qed.

Lemma preserves_mbind {A B : Type} (m : method A) (k : A -> method B) :
  preserves proj m -> (forall a, preserves proj (k a)) -> preserves proj (mbind m k).
Proof.
  intros Hm Hk s. unfold mbind.
  destruct (returned (m s)) as [a|e]; simpl.
  - rewrite Hk. apply Hm.
  - apply Hm.
Qed.

Lemma preserves_for_each_m {A : Type} (l : list A) (body : A -> method unit) :
  (forall a, preserves proj (body a)) -> preserves proj (for_each_m l body).
Proof.
  intros Hb. induction l as [|a l IH]; simpl.
  - apply preserves_ret.
  - apply preserves_mbind; [apply Hb | intros _; apply IH].
Qed.

End Preserves.

Ltac preserves_tac :=
  repeat first
    [ apply preserves_ret | apply preserves_raise | apply preserves_lift
    | apply preserves_print | apply preserves_get_self
    | (apply preserves_modify; intros; reflexivity)
    | (apply preserves_mbind; [|intros ?])
    | (apply preserves_for_each_m; intros ?)
    | match goal with
      | |- preserves _ (match ?x with _ => _ end) => destruct x
      end ].

Lemma mbind_Ok {A B : Type} (m : method A) (k : A -> method B) s b :
  returned (mbind m k s) = Ok b ->
  exists a, returned (m s) = Ok a /\
            returned (k a (self_after (m s))) = Ok b /\
            self_after (mbind m k s) = self_after (k a (self_after (m s))).
Proof.
  unfold mbind. destruct (returned (m s)) as [a|e]; simpl; [|discriminate].
  intros H. exists a. auto.
Qed.

Lemma mbind_split {A B : Type} (m : method A) (k : A -> method B) s :
  self_after (mbind m k s) =
    match returned (m s) with
    | Ok a => self_after (k a (self_after (m s)))
    | Raise _ => self_after (m s)
    end /\
  returned (mbind m k s) =
    match returned (m s) with
    | Ok a => returned (k a (self_after (m s)))
    | Raise e => Raise e
    end.
Proof. unfold mbind. destruct (returned (m s)); split; reflexivity. Qed.

Lemma mbind_modify {B : Type} (f : HMM -> HMM) (k : unit -> method B) s :
  mbind (modify f) k s = k tt (f s).
Proof. unfold mbind, modify. simpl. destruct (k tt (f s)); reflexivity. Qed.

Lemma mbind_get_self {B : Type} (k : HMM -> method B) s :
  mbind get_self k s = k s s.
Proof. unfold mbind, get_self. simpl. destruct (k s s); reflexivity. Qed.

Lemma mbind_lift_Ok {A B : Type} (a : A) (k : A -> method B) s :
  mbind (lift (Ok a)) k s = k a s.
Proof. unfold mbind, lift. simpl. destruct (k a s); reflexivity. Qed.

Lemma mbind_lift_Raise {A B : Type} (e : exn) (k : A -> method B) s :
  mbind (lift (Raise e)) k s = mkOutcome s [] (Raise e).
Proof. reflexivity. Qed.

Lemma self_after_mbind_modify {B : Type} (f : HMM -> HMM) (k : unit -> method B) s :
  self_after (mbind (modify f) k s) = self_after (k tt (f s)).
Proof. reflexivity. Qed.

(** ** Arrays *)

Lemma has_shape_shape B h w : has_shape B h w = true <-> shape B h w.
Proof.
  unfold has_shape, shape. rewrite andb_true_iff, Nat.eqb_eq, forallb_forall.
  rewrite Forall_forall. setoid_rewrite Nat.eqb_eq.
  setoid_rewrite list_elem_of_In. reflexivity.
Qed.

Lemma shape_lookup M h w i r : shape M h w -> M !! i = Some r -> length r = w.
Proof.
  intros [_ HF] Hi. rewrite Forall_forall in HF. apply HF.
  eapply list_elem_of_lookup_2; eauto.
Qed.

Lemma shape_row M h w i : shape M h w -> i < h -> exists r, M !! i = Some r /\ length r = w.
Proof.
  intros HS Hi. destruct (lookup_lt_is_Some_2 M i) as [r Hr].
  - destruct HS as [-> _]. exact Hi.
  - exists r. split; [exact Hr | eapply shape_lookup; eauto].
Qed.

Lemma inb_shape M h w i j : shape M h w -> i < h -> j < w -> inb M i j.
Proof.
  intros HS Hi Hj. destruct (shape_row M h w i HS Hi) as (r & Hr & Hl).
  exists r. split; [exact Hr | lia].
Qed.

Lemma get_lookup M i j r x : M !! i = Some r -> r !! j = Some x -> get M i j = x.
Proof.
  intros Hi Hj. unfold get. rewrite (nth_lookup_Some _ _ _ _ Hi).
  apply (nth_lookup_Some _ _ _ _ Hj).
Qed.

Lemma index2_Ok M i j x : index2 M i j = Ok x -> get M i j = x.
Proof.
  unfold index2. intros H. apply bind_Ok in H. destruct H as (r & Hr & Hx).
  apply index_Ok in Hr. apply index_Ok in Hx. eapply get_lookup; eauto.
Qed.

Lemma get_row_eq (M M' : matrix) i j : M' !! i = M !! i -> get M' i j = get M i j.
Proof. intros H. unfold get. rewrite !(nth_lookup _ i), H. reflexivity. Qed.

(** A row of a matrix is the list of its entries. *)
Lemma row_entries M i r n :
  M !! i = Some r -> length r = n -> r = map (fun j => get M i j) (seq 0 n).
Proof.
  intros Hr Hl. apply list_eq. intros j.
  change (map ?f ?l) with (f <$> l). rewrite list_lookup_fmap.
  destruct (decide (j < n)) as [Hj|Hj].
  - rewrite lookup_seq_lt by exact Hj. simpl.
    destruct (lookup_lt_is_Some_2 r j) as [x Hx]; [lia|].
    rewrite Hx. f_equal. symmetry. eapply get_lookup; eauto.
  - rewrite lookup_seq_ge by lia. simpl. apply lookup_ge_None. lia.
Qed.

Lemma rows_as_map (M : matrix) h : length M = h -> M = map (fun i => nth i M []) (seq 0 h).
Proof.
  intros Hl. apply list_eq. intros i.
  change (map ?f ?l) with (f <$> l). rewrite list_lookup_fmap.
  destruct (decide (i < h)) as [Hi|Hi].
  - rewrite lookup_seq_lt by exact Hi. simpl.
    destruct (lookup_lt_is_Some_2 M i) as [r Hr]; [lia|].
    rewrite Hr. f_equal. symmetry. apply nth_lookup_Some. exact Hr.
  - rewrite lookup_seq_ge by lia. simpl. apply lookup_ge_None. lia.
Qed.

Lemma nth_map_lt {A B : Type} (f : A -> B) (l : list A) i (da : A) (db : B) :
  i < length l -> nth i (map f l) db = f (nth i l da).
Proof.
  revert i. induction l as [|a l IH]; intros i Hi; simpl in *; [lia|].
  destruct i; [reflexivity|]. apply IH. lia.
Qed.

Lemma shape_zip2 (f : float -> float -> float) A B h w :
  shape A h w -> shape B h w -> shape (zip_with (zip_with f) A B) h w.
Proof.
  intros [HA FA] [HB FB]. split.
  - rewrite length_zip_with. lia.
  - clear HA HB. revert B FB. induction FA as [|a A Ha FA IH]; intros B FB; [constructor|].
    destruct FB as [|b B Hb FB]; [constructor|]. simpl. constructor.
    + rewrite length_zip_with. lia.
    + apply IH, FB.
Qed.

Lemma get_zip2 (f : float -> float -> float) A B h w i j :
  shape A h w -> shape B h w -> i < h -> j < w ->
  get (zip_with (zip_with f) A B) i j = f (get A i j) (get B i j).
Proof.
  intros HA HB Hi Hj.
  destruct (shape_row A h w i HA Hi) as (a & Ha & La).
  destruct (shape_row B h w i HB Hi) as (b & Hb & Lb).
  destruct (lookup_lt_is_Some_2 a j) as [x Hx]; [lia|].
  destruct (lookup_lt_is_Some_2 b j) as [y Hy]; [lia|].
  rewrite (get_lookup A i j a x Ha Hx), (get_lookup B i j b y Hb Hy).
  apply (get_lookup _ i j (zip_with f a b) (f x y)).
  - rewrite lookup_zip_with, Ha. simpl. rewrite Hb. reflexivity.
  - rewrite lookup_zip_with, Hx. simpl. rewrite Hy. reflexivity.
Qed.

Lemma shape_map2 (f : float -> float) A h w : shape A h w -> shape (map (map f) A) h w.
Proof.
  intros [HA FA]. split; [rewrite length_map; exact HA|].
  apply Forall_fmap. eapply Forall_impl; [exact FA|].
  intros r Hr. simpl. rewrite length_map. exact Hr.
Qed.

Lemma get_map2 (f : float -> float) A h w i j :
  shape A h w -> i < h -> j < w -> get (map (map f) A) i j = f (get A i j).
Proof.
  intros HA Hi Hj.
  destruct (shape_row A h w i HA Hi) as (a & Ha & La).
  destruct (lookup_lt_is_Some_2 a j) as [x Hx]; [lia|].
  rewrite (get_lookup A i j a x Ha Hx).
  apply (get_lookup _ i j (map f a) (f x)).
  - change (map (map f) A) with (map f <$> A). rewrite list_lookup_fmap, Ha. reflexivity.
  - change (map f a) with (f <$> a). rewrite list_lookup_fmap, Hx. reflexivity.
Qed.

Lemma shape_zeros2 h w : shape (zeros2 h w) h w.
Proof.
  split; [apply length_replicate|].
  apply Forall_replicate. apply length_replicate.
Qed.

Lemma get_zeros2 h w i j : get (zeros2 h w) i j = fzero.
Proof.
  unfold get, zeros2, zeros. rewrite (nth_lookup _ j).
  destruct (decide (i < h)) as [Hi|Hi].
  - rewrite (nth_lookup_Some _ i [] (replicate w fzero))
      by (apply lookup_replicate_2; exact Hi).
    destruct (decide (j < w)) as [Hj|Hj].
    + rewrite lookup_replicate_2 by exact Hj. reflexivity.
    + rewrite (proj1 (lookup_replicate_None _ _ _)) by lia. reflexivity.
  - rewrite (nth_lookup _ i), (proj1 (lookup_replicate_None _ _ _)) by lia.
    simpl. destruct j; reflexivity.
Qed.

Lemma zip_with_as_map (f : float -> float -> float) (u v : vec) n :
  length u = n -> length v = n ->
  zip_with f u v = map (fun j => f (nth j u fzero) (nth j v fzero)) (seq 0 n).
Proof.
  intros Hu Hv. apply list_eq. intros j.
  change (map ?g ?l) with (g <$> l). rewrite list_lookup_fmap, lookup_zip_with.
  destruct (decide (j < n)) as [Hj|Hj].
  - rewrite lookup_seq_lt by exact Hj. simpl.
    destruct (lookup_lt_is_Some_2 u j) as [x Hx]; [lia|].
    destruct (lookup_lt_is_Some_2 v j) as [y Hy]; [lia|].
    rewrite Hx. simpl. rewrite Hy. simpl.
    rewrite (nth_lookup_Some _ _ _ _ Hx), (nth_lookup_Some _ _ _ _ Hy). reflexivity.
  - rewrite lookup_seq_ge by lia. simpl.
    rewrite (proj2 (lookup_ge_None u j)) by lia. reflexivity.
Qed.

Lemma length_vscale_div (u : vec) q : length (vscale_div u q) = length u.
Proof. apply length_map. Qed.

(** [C.sum(axis=0)] entry by entry. *)
Lemma shape_fold_madd As : forall A h w,
  shape A h w -> Forall (fun B => shape B h w) As -> shape (fold_left madd As A) h w.
Proof.
  induction As as [|B As IH]; intros A h w HA HF; simpl; [exact HA|].
  inversion HF; subst. apply IH; [|assumption].
  apply shape_zip2; assumption.
Qed.

Lemma get_fold_madd As : forall A h w i j,
  shape A h w -> Forall (fun B => shape B h w) As -> i < h -> j < w ->
  get (fold_left madd As A) i j = fold_left fadd (map (fun B => get B i j) As) (get A i j).
Proof.
  induction As as [|B As IH]; intros A h w i j HA HF Hi Hj; simpl; [reflexivity|].
  inversion HF; subst.
  rewrite (IH (madd A B) h w i j); try assumption.
  - unfold madd, vadd. rewrite (get_zip2 fadd A B h w); auto.
  - apply shape_zip2; assumption.
Qed.

Lemma shape_sum_axis0 h w (C : tensor) :
  Forall (fun B => shape B h w) C -> shape (sum_axis0 h w C) h w.
Proof.
  intros HF. destruct C as [|A As]; simpl; [apply shape_zeros2|].
  inversion HF; subst. apply shape_fold_madd; assumption.
Qed.

Lemma get_sum_axis0 h w (C : tensor) i j :
  Forall (fun B => shape B h w) C -> i < h -> j < w ->
  get (sum_axis0 h w C) i j = arc_total C i j.
Proof.
  intros HF Hi Hj. unfold arc_total. destruct C as [|A As]; simpl; [apply get_zeros2|].
  inversion HF; subst. apply (get_fold_madd As A h w); assumption.
Qed.

(** ** Transposition *)

Lemma ncols_shape M h w : shape M h w -> 0 < h -> ncols M = w.
Proof.
  intros [Hl HF] Hh. unfold ncols. destruct M as [|r M]; simpl in *; [lia|].
  inversion HF; subst. reflexivity.
Qed.

Lemma transpose_transpose M h w :
  shape M h w -> 0 < w \/ h = 0 -> transpose (transpose M) = M.
Proof.
  intros HS Hw. destruct (decide (h = 0)) as [->|Hh].
  { destruct HS as [Hl _]. destruct M; [reflexivity | discriminate]. }
  destruct Hw as [Hw|Hw]; [|contradiction].
  assert (Hc : ncols M = w) by (apply (ncols_shape M h w HS); lia).
  unfold transpose at 2. rewrite Hc.
  assert (Hc' : ncols (map (fun j => map (fun r => nth j r fzero) M) (seq 0 w)) = length M).
  { unfold ncols. destruct w; [lia|]. simpl. apply length_map. }
  unfold transpose. rewrite Hc'. destruct HS as [Hl HF].
  etransitivity; [|symmetry; apply (rows_as_map M (length M) eq_refl)].
  apply map_ext_in. intros i Hi. apply in_seq in Hi.
  rewrite map_map.
  destruct (lookup_lt_is_Some_2 M i) as [r Hr]; [lia|].
  rewrite (nth_lookup_Some _ _ _ _ Hr).
  assert (Lr : length r = w).
  { rewrite Forall_forall in HF. apply HF. eapply list_elem_of_lookup_2; eauto. }
  rewrite (row_entries M i r w Hr Lr).
  apply map_ext_in. intros j Hj.
  rewrite (nth_map_lt _ M i []) by lia. reflexivity.
Qed.

(** [np.dot(v, M.T)] row by row of [M]. *)
Lemma dot_transpose v M h w :
  shape M h w -> 0 < w \/ h = 0 ->
  dot v (transpose M) = map (fun r => fsum (vmul v r)) M.
Proof.
  intros HS Hw. unfold dot. rewrite (transpose_transpose M h w HS Hw). reflexivity.
Qed.

(** ** Matrices written entry by entry and block by block *)

Lemma inb_set2 M a b v i j : inb (set2 M a b v) i j <-> inb M i j.
Proof.
  unfold inb, set2. destruct (decide (a = i)) as [->|Hne].
  - rewrite list_lookup_alter_eq. split.
    + intros (r & Hr & Hj). destruct (M !! i) as [r0|]; [|discriminate].
      simpl in Hr. injection Hr as <-. rewrite length_insert in Hj. eauto.
    + intros (r & Hr & Hj). rewrite Hr. simpl. eexists. split; [reflexivity|].
      rewrite length_insert. exact Hj.
  - rewrite list_lookup_alter_ne by exact Hne. reflexivity.
Qed.

Lemma get_set2_eq M i j v : inb M i j -> get (set2 M i j v) i j = v.
Proof.
  intros (r & Hr & Hj). apply (get_lookup _ i j (<[j := v]> r)).
  - unfold set2. rewrite list_lookup_alter_eq, Hr. reflexivity.
  - apply list_lookup_insert_eq. exact Hj.
Qed.

Lemma get_set2_ne M a b v i j : (a, b) <> (i, j) -> get (set2 M a b v) i j = get M i j.
Proof.
  intros Hne. unfold get, set2. destruct (decide (a = i)) as [->|Hi].
  - rewrite !(nth_lookup _ i), list_lookup_alter_eq.
    destruct (M !! i) as [r|]; simpl; [|reflexivity].
    rewrite !(nth_lookup _ j), list_lookup_insert_ne; [reflexivity|congruence].
  - rewrite !(nth_lookup _ i), list_lookup_alter_ne by exact Hi. reflexivity.
Qed.

Lemma shape_set2 T a b v h w : shape T h w -> shape (set2 T a b v) h w.
Proof.
  intros [HL HF]. unfold set2. split.
  - rewrite length_alter. exact HL.
  - apply Forall_alter; [exact HF|]. intros r _ Hr. rewrite length_insert. exact Hr.
Qed.

(** A loop that writes [g i j] at every index of a list. *)
Lemma for_each_set2 (g : nat -> nat -> result float) (idxs : list (nat * nat)) :
  forall M0 M,
    for_each idxs (fun '(i, j) M => v <- g i j ;; Ok (set2 M i j v)) M0 = Ok M ->
    forall i j, inb M0 i j ->
      inb M i j /\
      ((i, j) ∈ idxs -> exists v, g i j = Ok v /\ get M i j = v) /\
      ((i, j) ∉ idxs -> get M i j = get M0 i j).
Proof.
  induction idxs as [|[a b] idxs IH]; intros M0 M Hrun i j Hin.
  - simpl in Hrun. injection Hrun as <-. split; [exact Hin|]. split.
    + intros H. inversion H.
    + reflexivity.
  - simpl in Hrun. destruct (g a b) as [v|e] eqn:Hg; simpl in Hrun; [|discriminate].
    destruct (IH _ _ Hrun i j) as (Hb & Hset & Hkeep); [apply inb_set2; exact Hin|].
    split; [exact Hb|]. split.
    + intros Hel. destruct (decide ((i, j) ∈ idxs)) as [Hr|Hr]; [apply Hset, Hr|].
      apply elem_of_cons in Hel. destruct Hel as [Heq|Hel]; [|contradiction].
      injection Heq as -> ->. exists v. split; [exact Hg|].
      rewrite (Hkeep Hr). apply get_set2_eq, Hin.
    + intros Hnel. apply not_elem_of_cons in Hnel. destruct Hnel as [Hne Hnel].
      rewrite (Hkeep Hnel). apply get_set2_ne. congruence.
Qed.

Lemma elem_of_ndindex M i j : inb M i j -> (i, j) ∈ ndindex M.
Proof.
  intros (r & Hr & Hj). unfold ndindex. apply list_elem_of_In, in_concat.
  exists (map (pair i) (seq 0 (length r))). split.
  - apply list_elem_of_In. apply elem_of_lookup_imap. eauto.
  - apply in_map, in_seq. lia.
Qed.

(** Writing a block touches the rows of the block only, and keeps the
    length of every row. *)
Lemma write_block_lookup B : forall A r0 c0 i,
  write_block A r0 c0 B !! i =
  match B !! (i - r0) with
  | Some b => if Nat.leb r0 i then list_inserts c0 b <$> A !! i else A !! i
  | None => A !! i
  end.
Proof.
  induction B as [|b B IH]; intros A r0 c0 i; [reflexivity|].
  cbn [write_block]. rewrite IH.
  destruct (decide (i < r0)) as [Hlt|Hge]; [|destruct (decide (i = r0)) as [->|Hne]].
  - replace (i - r0) with 0 by lia. replace (i - S r0) with 0 by lia.
    change ((b :: B) !! 0) with (Some b).
    rewrite (proj2 (Nat.leb_gt r0 i)), (proj2 (Nat.leb_gt (S r0) i)) by lia.
    destruct (B !! 0); apply list_lookup_alter_ne; lia.
  - rewrite Nat.sub_diag. replace (r0 - S r0) with 0 by lia.
    change ((b :: B) !! 0) with (Some b).
    rewrite Nat.leb_refl, (proj2 (Nat.leb_gt (S r0) r0)) by lia.
    destruct (B !! 0); apply list_lookup_alter_eq.
  - replace (i - r0) with (S (i - S r0)) by lia.
    change ((b :: B) !! S (i - S r0)) with (B !! (i - S r0)).
    rewrite (proj2 (Nat.leb_le r0 i)), (proj2 (Nat.leb_le (S r0) i)) by lia.
    rewrite list_lookup_alter_ne by lia. reflexivity.
Qed.

Lemma write_block_row_before A r0 c0 B i :
  i < r0 -> write_block A r0 c0 B !! i = A !! i.
Proof.
  intros Hi. rewrite write_block_lookup.
  destruct (B !! (i - r0)); [|reflexivity].
  destruct (Nat.leb_spec r0 i); [lia | reflexivity].
Qed.

Lemma shape_write_block A r0 c0 B h w :
  shape A h w -> shape (write_block A r0 c0 B) h w.
Proof.
  revert A r0. induction B as [|b B IH]; intros A r0 HS; simpl; [exact HS|].
  apply IH. destruct HS as [HL HF]. split.
  - rewrite length_alter. exact HL.
  - apply Forall_alter; [exact HF|]. intros r Hr1 Hr. rewrite length_inserts. exact Hr.
Qed.

(** Entries to the right of the block are kept. *)
Lemma get_write_block_right A r0 c0 B w i j :
  Forall (fun b : vec => length b = w) B -> c0 + w <= j ->
  get (write_block A r0 c0 B) i j = get A i j.
Proof.
  intros HB Hj. unfold get. rewrite !(nth_lookup _ i), write_block_lookup.
  destruct (B !! (i - r0)) as [b|] eqn:Hb; [|reflexivity].
  destruct (Nat.leb r0 i); [|reflexivity].
  destruct (A !! i) as [row|]; simpl; [|reflexivity].
  rewrite !(nth_lookup _ j). rewrite list_lookup_inserts_ge; [reflexivity|].
  rewrite Forall_forall in HB. rewrite (HB b); [exact Hj|].
  eapply list_elem_of_lookup_2; eauto.
Qed.

Lemma assign_block_Ok A r0 c0 h w B :
  has_shape B h w = true -> assign_block A r0 c0 h w B = Ok (write_block A r0 c0 B).
Proof. intros H. unfold assign_block. rewrite H. reflexivity. Qed.

(** ** Dictionaries *)

Lemma dict_get_set {V : Type} (d : dict V) k v k' :
  dict_get (dict_set d k v) k' = if decide (k = k') then Some v else dict_get d k'.
Proof.
  induction d as [|[k0 v0] d IH]; simpl.
  - destruct (Nat.eqb_spec k k'); destruct (decide (k = k')); congruence.
  - destruct (Nat.eqb_spec k0 k) as [->|Hne]; simpl.
    + destruct (Nat.eqb_spec k k'); destruct (decide (k = k')); congruence.
    + destruct (Nat.eqb_spec k0 k') as [->|Hne'].
      * destruct (decide (k = k')); congruence.
      * exact IH.
Qed.

Lemma lookup2_set {V : Type} (N : dict (dict V)) ix iy v i d :
  lookup2 (dict_set N ix (dict_set (match dict_get N ix with Some r => r | None => [] end) iy v)) i d
  = if decide ((ix, iy) = (i, d)) then Some v else lookup2 N i d.
Proof.
  unfold lookup2. rewrite dict_get_set.
  destruct (decide (ix = i)) as [->|Hi].
  - rewrite dict_get_set. destruct (decide (iy = d)) as [->|Hd].
    + rewrite decide_True by reflexivity. reflexivity.
    + rewrite decide_False by congruence. destruct (dict_get N i); reflexivity.
  - rewrite decide_False by congruence. reflexivity.
Qed.

(** ** Facts of binary64 *)

Lemma fadd_zero_zero x y : is_zero x = true -> is_zero y = true -> is_zero (fadd x y) = true.
Proof.
  destruct x as [sx| | |]; try discriminate. destruct y as [sy| | |]; try discriminate.
  intros _ _. destruct sx, sy; reflexivity.
Qed.

Lemma fsum_zeros l :
  Forall (fun x => is_zero x = true) l -> is_zero (fsum l) = true.
Proof.
  destruct l as [|x l]; [reflexivity|]. simpl. intros HF. inversion HF; subst.
  clear HF. revert x H1. induction H2 as [|y l Hy HF IH]; intros x Hx; simpl; [exact Hx|].
  apply IH. apply fadd_zero_zero; assumption.
Qed.

Lemma fdiv_zero_zero x y : is_zero x = true -> is_zero y = true -> fdiv x y = S754_nan.
Proof.
  destruct x; try discriminate. destruct y; try discriminate. reflexivity.
Qed.

Lemma fmul_comm x y : fmul x y = fmul y x.
Proof.
  unfold fmul, SFmul.
  destruct x as [sx|sx| |sx mx ex], y as [sy|sy| |sy my ey];
    try reflexivity; try (rewrite xorb_comm; reflexivity).
  rewrite xorb_comm, Pos.mul_comm, Z.add_comm. reflexivity.
Qed.

(** ** The forward pass and [forward_backward] *)

(** What [forward] does, step by step. *)
Lemma forward_unfold self data init_prob :
  forward self data init_prob =
  match forward_init self data init_prob with
  | Raise e => mkOutcome self [] (Raise e)
  | Ok aQ =>
      match backward self data (snd aQ) (Some (ones (num_states self))) with
      | Raise e => mkOutcome self [] (Raise e)
      | Ok betas_ =>
          let s1 := reset_counters self in
          match forward_loop s1 data (fst aQ) betas_ with
          | Raise e => mkOutcome s1 [] (Raise e)
          | Ok None => mkOutcome s1 [] (Raise UnboundLocalError)
          | Ok (Some (t, obs, step3)) =>
              let out := if is_nan (sum_all step3) then [NaNWarning t] else [] in
              let counts := zeros3 (num_outputs self) (num_states self) (num_states self) in
              match index counts obs with
              | Raise e => mkOutcome s1 out (Raise e)
              | Ok C =>
                  mkOutcome (set_arc_counts (Some (<[obs := madd C step3]> counts)) s1)
                    out (Ok None)
              end
          end
      end
  end.
Proof.
  unfold forward, mbind, lift; simpl.
  destruct (forward_init self data init_prob) as [aQ|e]; simpl; [|reflexivity].
  destruct (backward self data (snd aQ) _) as [betas_|e]; simpl; [|reflexivity].
  destruct (forward_loop _ data (fst aQ) betas_) as [[[[t obs] step3]|]|e];
    simpl; try reflexivity.
  destruct (is_nan (sum_all step3)); simpl;
    destruct (index _ obs) as [C|e]; simpl; reflexivity.
Qed.

Lemma forward_returns_None self data init_prob x :
  returned (forward self data init_prob) <> Ok (Some x).
Proof.
  rewrite forward_unfold.
  destruct (forward_init self data init_prob) as [aQ|e]; simpl; [|discriminate].
  destruct (backward self data (snd aQ) _) as [betas_|e]; simpl; [|discriminate].
  destruct (forward_loop _ data (fst aQ) betas_) as [[[[t obs] step3]|]|e];
    simpl; try discriminate.
  destruct (index _ obs) as [C|e]; simpl; discriminate.
Qed.

Lemma preserves_forward data init_prob :
  preserves params (fun self => forward self data init_prob).
Proof.
  intros self. rewrite forward_unfold.
  destruct (forward_init self data init_prob) as [aQ|e]; simpl; [|reflexivity].
  destruct (backward self data (snd aQ) _) as [betas_|e]; simpl; [|reflexivity].
  destruct (forward_loop _ data (fst aQ) betas_) as [[[[t obs] step3]|]|e];
    simpl; try reflexivity.
  destruct (index _ obs) as [C|e]; simpl; reflexivity.
Qed.

(** [forward_backward] is [forward] followed by the failing unpacking. *)
Lemma forward_backward_unfold self train init_prob init_beta update :
  let o := forward self train init_prob in
  forward_backward self train init_prob init_beta update =
  mkOutcome (self_after o) (printed o)
    (match returned o with
     | Raise e => Raise e
     | Ok _ => Raise TypeError
     end).
Proof.
  intros o. unfold forward_backward, mbind. fold o.
  destruct (returned o) as [[x|]|e] eqn:Hr; simpl.
  - exfalso. exact (forward_returns_None _ _ _ _ Hr).
  - rewrite app_nil_r. reflexivity.
  - reflexivity.
Qed.

(** C1.  [forward] computes no stage of the trellis beyond stage 0 and
    returns nothing: for every model, sequence and initial distribution its
    result is never a pair (trellis, scale factors), and therefore
    [forward_backward] never returns its triple: every call ends in an
    exception. *)
Theorem forward_backward_never_returns :
  forall self train init_prob init_beta update,
    (forall x, returned (forward self train init_prob) <> Ok (Some x)) /\
    exists e, returned (forward_backward self train init_prob init_beta update) = Raise e.
Proof.
  intros. split; [intros x; apply forward_returns_None|].
  rewrite forward_backward_unfold. simpl.
  destruct (returned (forward self train init_prob)); eauto.
Qed.

(** C10.  Whatever [update_params] flag is passed, a call of
    [forward_backward] leaves the transitions, the emissions and the
    null-arc probabilities of the model as they were, and ends in an
    exception: the re-estimation at its end is never reached. *)
Theorem forward_backward_keeps_parameters :
  forall self train init_prob init_beta update,
    let o := forward_backward self train init_prob init_beta update in
    transitions (self_after o) = transitions self /\
    emissions (self_after o) = emissions self /\
    null_arcs (self_after o) = null_arcs self /\
    exists e, returned o = Raise e.
Proof.
  intros. subst o. rewrite forward_backward_unfold. simpl.
  pose proof (preserves_forward train init_prob self) as Hp.
  unfold params in Hp. simpl in Hp. injection Hp as _ _ Ht He _ Hn _.
  repeat split; try assumption.
  destruct (returned (forward self train init_prob)); eauto.
Qed.

(** ** The accumulators across calls *)

Lemma forward_init_with_counts C N self data init_prob :
  forward_init (with_counts C N self) data init_prob = forward_init self data init_prob.
Proof. reflexivity. Qed.

Lemma backward_with_counts C N self data Q init_beta :
  backward (with_counts C N self) data Q init_beta = backward self data Q init_beta.
Proof. reflexivity. Qed.

Lemma reset_with_counts C N self :
  reset_counters (with_counts C N self) = reset_counters self.
Proof. reflexivity. Qed.

(** C5, as the code has it.  A call of [forward_backward] that gets past
    the backward sweep of [forward] re-creates both accumulators as zero
    before anything is added: the accumulators it leaves do not depend on
    the accumulators it found, so nothing of an earlier sequence is kept in
    them. *)
Theorem forward_backward_discards_accumulators :
  forall self C N train init_prob init_beta update aQ betas_,
    forward_init self train init_prob = Ok aQ ->
    backward self train (snd aQ) (Some (ones (num_states self))) = Ok betas_ ->
    let o := forward_backward (with_counts C N self) train init_prob init_beta update in
    let o0 := forward_backward (reset_counters self) train init_prob init_beta update in
    output_arc_counts (self_after o) = output_arc_counts (self_after o0) /\
    output_arc_counts_null (self_after o) = output_arc_counts_null (self_after o0).
Proof.
  intros self C N train ip ib update aQ betas_ Hinit Hback o o0. subst o o0.
  rewrite !forward_backward_unfold. cbn [self_after].
  change (reset_counters self)
    with (with_counts (Some (zeros3 (num_outputs self) (num_states self) (num_states self)))
            (Some []) self).
  rewrite !forward_unfold.
  rewrite !forward_init_with_counts, Hinit.
  change (num_states (with_counts _ _ self)) with (num_states self).
  rewrite !backward_with_counts, Hback.
  rewrite !reset_with_counts. cbn zeta.
  destruct (forward_loop (reset_counters self) train (fst aQ) betas_)
    as [[[[t obs] step3]|]|e]; split; reflexivity.
Qed.

Lemma forward_backward_discards_accumulators_witness :
  let o := forward_backward
             (with_counts (Some [[[f0_8]]; [[f0_8]]]) (Some [(0, [(0, fone)])])
                two_symbol_model) [1] None None true in
  let o0 := forward_backward (reset_counters two_symbol_model) [1] None None true in
  output_arc_counts (self_after o) = output_arc_counts (self_after o0) /\
  output_arc_counts_null (self_after o) = output_arc_counts_null (self_after o0).
Proof.
  apply (forward_backward_discards_accumulators two_symbol_model
           (Some [[[f0_8]]; [[f0_8]]]) (Some [(0, [(0, fone)])]) [1] None None true
           ([[fone]; [fzero]], [fone; fone]) [[f0_5]; [fone]]);
    vm_compute; reflexivity.
Defined.

(** C5 as stated fails: after the sequence [[0]] the accumulators hold its
    count 0.5 for symbol 0; the next call, on the sequence [[1]], leaves 0
    there instead of adding to it. *)
Lemma accumulators_not_preserved_across_sequences :
  let s0 := reset_counters two_symbol_model in
  let s1 := self_after (forward_backward s0 [0] None None false) in
  let s2 := self_after (forward_backward s1 [1] None None false) in
  output_arc_counts s1 = Some [[[f0_5]]; [[fzero]]] /\
  output_arc_counts s2 = Some [[[fzero]]; [[f0_5]]] /\
  output_arc_counts s2 <> Some [[[f0_5]]; [[f0_5]]].
Proof. vm_compute. repeat split; discriminate. Qed.

(** ** A total probability that is not a number *)

(** The loop of [forward] leaves [t], [obs] and [step3] of the last stage. *)
Lemma forward_loop_last self data alphas_ betas_ t obs step3 :
  forward_loop self data alphas_ betas_ = Ok (Some (t, obs, step3)) ->
  t = length data /\ data !! (t - 1) = Some obs /\
  step3_of self alphas_ betas_ t obs = Ok step3.
Proof.
  unfold forward_loop. destruct (length data) as [|k] eqn:Hlen; [discriminate|].
  rewrite seq_S, for_each_app. simpl.
  destruct (for_each (seq 1 k) _ None) as [s'|e]; simpl; [|discriminate].
  unfold index at 1. destruct (data !! (k - 0)) as [o|] eqn:Ho; simpl; [|discriminate].
  destruct (step3_of self alphas_ betas_ (S k) o) as [m|e] eqn:Hs; simpl; [|discriminate].
  intros H. injection H as <- <- <-. simpl. auto.
Qed.

(** C3, as the code has it.  When the total that [forward] computes (the
    sum of [step3] of the last stage) is not a number, [forward] raises
    nothing: it prints a warning that names the time index (the last stage,
    and no symbol), still adds the matrix into [output_arc_counts[obs]], and
    ends normally. *)
Theorem forward_nan_total_warns_and_continues :
  forall self data init_prob aQ betas_ t obs step3,
    forward_init self data init_prob = Ok aQ ->
    backward self data (snd aQ) (Some (ones (num_states self))) = Ok betas_ ->
    forward_loop (reset_counters self) data (fst aQ) betas_ = Ok (Some (t, obs, step3)) ->
    is_nan (sum_all step3) = true ->
    obs < num_outputs self ->
    let o := forward self data init_prob in
    let n := num_states self in
    t = length data /\
    printed o = [NaNWarning t] /\
    returned o = Ok None /\
    output_arc_counts (self_after o) =
      Some (<[obs := madd (zeros2 n n) step3]> (zeros3 (num_outputs self) n n)).
Proof.
  intros self data ip aQ betas_ t obs step3 Hinit Hback Hloop Hnan Hobs o n.
  subst o n. rewrite forward_unfold, Hinit, Hback. cbn zeta. rewrite Hloop, Hnan.
  unfold index, zeros3. rewrite lookup_replicate_2 by assumption.
  cbn [self_after printed returned].
  split; [apply (forward_loop_last _ _ _ _ _ _ _ Hloop)|].
  repeat split.
Qed.

Lemma forward_nan_total_warns_and_continues_witness :
  let o := forward unit_model [0] (Some [fzero]) in
  1 = 1 /\
  printed o = [NaNWarning 1] /\
  returned o = Ok None /\
  output_arc_counts (self_after o) =
    Some (<[0 := madd (zeros2 1 1) [[S754_nan]]]> (zeros3 1 1 1)).
Proof.
  apply (forward_nan_total_warns_and_continues unit_model [0] (Some [fzero])
           ([[S754_nan]; [fzero]], [fzero; fone]) [[S754_infinity false]; [fone]]
           1 0 [[S754_nan]]);
    vm_compute; reflexivity.
Defined.

(** C3 as stated fails: with an all-zero initial distribution the total is
    not a number, and [forward] prints its warning, returns normally and
    has added the NaN into the accumulator; no error is reported. *)
Lemma nan_total_is_not_reported_as_error :
  let o := forward unit_model [0] (Some [fzero]) in
  printed o = [NaNWarning 1] /\
  returned o = Ok None /\
  output_arc_counts (self_after o) = Some [[[S754_nan]]].
Proof. vm_compute. repeat split. Qed.

(** ** The assertion on the posterior matrix *)

(** C8.  On the one-state model and the sequence [[0]], [forward_backward]
    raises [TypeError] at its first statement, before any assertion; run
    from its second statement on with the trellis [[1],[1]] and [Q = [1,1]],
    the posterior matrix sums to 0.5, and the asserted condition
    [total - 1 < 1e-6] holds, so the half-missing mass is accepted and
    added to the accumulator.  The condition rejects an excess only. *)
Theorem normalization_assertion_is_one_sided :
  let o := forward_backward unit_model [0] None None false in
  let o' := forward_backward_rest [[fone]; [fone]] [fone; fone] [0] None false unit_model in
  returned o = Raise TypeError /\
  returned o' = Ok ([[fone]; [fone]], [[f0_5]; [fone]], [fone; fone]) /\
  output_arc_counts (self_after o') = Some [[[f0_5]]] /\
  normalization_check f0_5 = true /\
  normalization_check fzero = true /\
  normalization_check (fadd fone f0_5) = false.
Proof. vm_compute. repeat split. Qed.

(** ** The backward pass *)

Lemma well_formed_inv self :
  well_formed self = true ->
  exists e, emissions self = Emis2 e /\
            shape (transitions self) (num_states self) (num_states self) /\
            shape e (num_outputs self) (num_states self) /\
            null_arcs_in_range self = true.
Proof.
  unfold well_formed. intros H.
  apply andb_true_iff in H. destruct H as [H Hn].
  apply andb_true_iff in H. destruct H as [Ht He].
  destruct (emissions self) as [e|e]; [|discriminate].
  exists e. split; [reflexivity|].
  split; [apply has_shape_shape; assumption|].
  split; [apply has_shape_shape; assumption | assumption].
Qed.

Lemma vmul_vmul_entries (next r row : vec) n :
  length next = n -> length r = n -> length row = n ->
  vmul next (vmul r row) =
  map (fun j => fmul (fmul (nth j r fzero) (nth j row fzero)) (nth j next fzero)) (seq 0 n).
Proof.
  intros Hn Hr Hrow. unfold vmul at 1.
  rewrite (zip_with_as_map fmul next (vmul r row) n Hn).
  2:{ unfold vmul. rewrite length_zip_with. lia. }
  apply map_ext_in. intros j Hj. apply in_seq in Hj.
  rewrite fmul_comm. f_equal.
  unfold vmul. rewrite (zip_with_as_map fmul r row n Hr Hrow).
  rewrite (nth_map_lt _ _ j 0) by (rewrite length_seq; lia).
  rewrite seq_nth by lia. reflexivity.
Qed.

(** The emitting contribution of [backward] is that of the specification. *)
Lemma emitting_step self obs (next : vec) :
  well_formed self = true ->
  obs < num_outputs self ->
  length next = num_states self ->
  exists TE, trans_emis self obs = Ok TE /\
             dot next (transpose TE) = emitting_beta self obs next.
Proof.
  intros Hwf Hobs Hnext.
  destruct (well_formed_inv self Hwf) as (e & He & HT & HE & _).
  destruct (shape_row e _ _ obs HE Hobs) as (row & Hrow & Lrow).
  exists (mul_rows (transitions self) row). split.
  - unfold trans_emis. rewrite He. unfold index. rewrite Hrow. reflexivity.
  - set (n := num_states self) in *.
    assert (HS : shape (mul_rows (transitions self) row) n n).
    { destruct HT as [Hl HF]. split; [unfold mul_rows; rewrite length_map; exact Hl|].
      unfold mul_rows. apply Forall_fmap. eapply Forall_impl; [exact HF|].
      intros r Hr. simpl in *. unfold vmul. rewrite length_zip_with.
      lia. }
    rewrite (dot_transpose next _ n n HS) by lia.
    unfold mul_rows. rewrite map_map. unfold emitting_beta. fold n.
    destruct HT as [Hl HF].
    rewrite (rows_as_map (transitions self) n Hl) at 1. rewrite map_map.
    apply map_ext_in. intros i Hi. apply in_seq in Hi.
    destruct (lookup_lt_is_Some_2 (transitions self) i) as [r Hr]; [lia|].
    rewrite (nth_lookup_Some _ _ _ _ Hr).
    assert (Lr : length r = n).
    { rewrite Forall_forall in HF. apply HF. eapply list_elem_of_lookup_2; eauto. }
    rewrite (vmul_vmul_entries next r row n Hnext Lr Lrow).
    f_equal. apply map_ext_in. intros j Hj.
    unfold get, emission_matrix. rewrite He.
    rewrite (nth_lookup_Some _ _ _ _ Hr), (nth_lookup_Some _ _ _ _ Hrow). reflexivity.
Qed.

Lemma add_scaled_Ok (x : vec) dst src p :
  dst < length x -> src < length x ->
  add_scaled x dst src p =
  Ok (<[dst := fadd (nth dst x fzero) (fmul (nth src x fzero) p)]> x).
Proof.
  intros Hd Hs. unfold add_scaled, index.
  destruct (lookup_lt_is_Some_2 x dst Hd) as [a Ha].
  destruct (lookup_lt_is_Some_2 x src Hs) as [b Hb].
  rewrite Ha, Hb. simpl.
  rewrite (nth_lookup_Some _ _ _ _ Ha), (nth_lookup_Some _ _ _ _ Hb). reflexivity.
Qed.

(** The null-arc sweep of [backward] is that of the specification. *)
Lemma backward_null_arcs_spec self (row : vec) :
  null_arcs_in_range self = true ->
  length row = num_states self ->
  backward_null_arcs self row = Ok (null_propagate_reverse self row) /\
  length (null_propagate_reverse self row) = num_states self.
Proof.
  unfold null_arcs_in_range, backward_null_arcs, null_propagate_reverse.
  set (n := num_states self). intros Hr.
  rewrite forallb_forall in Hr.
  assert (HL : forall s, In s (rev (topo_order self)) ->
            forallb (fun '(d, _) => Nat.ltb s n && Nat.ltb d n)
                    (null_row (null_arcs self) s) = true).
  { intros s Hs. apply Hr. apply in_rev. exact Hs. }
  clear Hr. revert row. induction (rev (topo_order self)) as [|s L IH]; intros row Hlen.
  - simpl. auto.
  - simpl. specialize (HL s (or_introl eq_refl)) as Hs.
    assert (Hinner : forall dests (row : vec),
               forallb (fun '(d, _) => Nat.ltb s n && Nat.ltb d n) dests = true ->
               length row = n ->
               for_each dests (fun '(s_y, p) row => add_scaled row s s_y p) row =
               Ok (fold_left
                     (fun beta '(d, p) =>
                        <[s := fadd (nth s beta fzero) (fmul (nth d beta fzero) p)]> beta)
                     dests row) /\
               length (fold_left
                     (fun beta '(d, p) =>
                        <[s := fadd (nth s beta fzero) (fmul (nth d beta fzero) p)]> beta)
                     dests row) = n).
    { clear. induction dests as [|[d p] dests IHd]; intros row Hf Hlen; simpl.
      - auto.
      - simpl in Hf. apply andb_true_iff in Hf. destruct Hf as [Hsd Hf].
        apply andb_true_iff in Hsd. destruct Hsd as [Hs Hd].
        apply Nat.ltb_lt in Hs. apply Nat.ltb_lt in Hd.
        rewrite add_scaled_Ok by lia. simpl.
        apply IHd; [exact Hf|]. rewrite length_insert. exact Hlen. }
    unfold null_row in Hs |- *.
    destruct (dict_get (null_arcs self) s) as [dests|].
    + destruct (Hinner dests row Hs Hlen) as [-> Hlen']. simpl.
      apply IH; [|exact Hlen']. intros s' Hs'. apply HL. right. exact Hs'.
    + simpl. apply IH; [|exact Hlen]. intros s' Hs'. apply HL. right. exact Hs'.
Qed.

Lemma backward_rows_lengths self Q (terminal : vec) :
  null_arcs_in_range self = true ->
  length terminal = num_states self ->
  forall obs t,
    Forall (fun r : vec => length r = num_states self)
           (backward_rows self Q terminal t obs) /\
    length (backward_rows self Q terminal t obs) = S (length obs).
Proof.
  intros Hr Ht. induction obs as [|o obs IH]; intros t; simpl.
  - split; [|reflexivity]. constructor; [|constructor].
    rewrite length_vscale_div. exact Ht.
  - destruct (IH (S t)) as [HF HL]. split; [|rewrite HL; reflexivity].
    constructor; [|exact HF]. rewrite length_vscale_div.
    apply backward_null_arcs_spec; [exact Hr|].
    unfold emitting_beta. rewrite length_map, length_seq. reflexivity.
Qed.

Lemma last_item_Ok (Q : vec) T : length Q = S T -> last_item Q = Ok (nth T Q fzero).
Proof.
  intros HQ. unfold last_item. rewrite last_lookup, HQ. simpl.
  destruct (lookup_lt_is_Some_2 Q T) as [q Hq]; [lia|].
  rewrite Hq. f_equal. symmetry. apply nth_lookup_Some. exact Hq.
Qed.

(** The loop of [backward], from stage [k] down: the rows above [k] are
    the rows of the specification already. *)
Lemma backward_loop self data Q (terminal : vec) :
  well_formed self = true ->
  symbols_in_range self data = true ->
  length Q = S (length data) ->
  length terminal = num_states self ->
  forall k, k <= length data ->
    for_each (rev (seq 0 k))
      (fun t betas_ =>
         obs <- index data t ;;
         next <- index betas_ (t + 1) ;;
         TE <- trans_emis self obs ;;
         row <- backward_null_arcs self (dot next (transpose TE)) ;;
         q <- index Q t ;;
         Ok (<[t := vscale_div row q]> betas_))
      (zeros2 k (num_states self) ++ backward_rows self Q terminal k (drop k data))
    = Ok (backward_rows self Q terminal 0 data).
Proof.
  intros Hwf Hdata HQ Hterm.
  destruct (well_formed_inv self Hwf) as (e & He & HT & HE & Hnull).
  induction k as [|k IH]; intros Hk.
  - simpl. rewrite drop_0. reflexivity.
  - rewrite seq_S, rev_app_distr.
    change (rev [0 + k] ++ rev (seq 0 k)) with (k :: rev (seq 0 k)).
    rewrite for_each_cons. cbv beta.
    destruct (lookup_lt_is_Some_2 data k) as [o Ho]; [lia|].
    assert (Hdrop : drop k data = o :: drop (S k) data).
    { apply drop_S. exact Ho. }
    assert (Hobs : o < num_outputs self).
    { unfold symbols_in_range in Hdata. rewrite forallb_forall in Hdata.
      apply Nat.ltb_lt, Hdata. apply list_elem_of_In. eapply list_elem_of_lookup_2; eauto. }
    destruct (backward_rows_lengths self Q terminal Hnull Hterm (drop (S k) data) (S k))
      as [HF HL].
    remember (backward_rows self Q terminal (S k) (drop (S k) data)) as rows eqn:Hrows.
    destruct rows as [|next rows']; [discriminate|].
    assert (Hnext : length next = num_states self) by (inversion HF; assumption).
    assert (Hlook : (zeros2 (S k) (num_states self) ++ next :: rows') !! (k + 1) = Some next).
    { rewrite lookup_app_r; unfold zeros2; rewrite length_replicate; [|lia].
      replace (k + 1 - S k) with 0 by lia. reflexivity. }
    destruct (emitting_step self o next Hwf Hobs Hnext) as (TE & HTE & Hdot).
    destruct (backward_null_arcs_spec self (emitting_beta self o next) Hnull) as [Hsweep _].
    { unfold emitting_beta. rewrite length_map, length_seq. reflexivity. }
    destruct (lookup_lt_is_Some_2 Q k) as [q Hq]; [lia|].
    unfold index. rewrite Ho. cbn [bind]. rewrite Hlook. cbn [bind].
    rewrite HTE. cbn [bind]. rewrite Hdot, Hsweep. cbn [bind]. rewrite Hq. cbn [bind].
    assert (Hins : <[k := vscale_div (null_propagate_reverse self (emitting_beta self o next)) q]>
                     (zeros2 (S k) (num_states self) ++ next :: rows')
                   = zeros2 k (num_states self) ++ backward_rows self Q terminal k (drop k data)).
    { rewrite Hdrop. cbn [backward_rows]. rewrite <- Hrows. cbn [hd].
      rewrite (nth_lookup_Some _ _ _ _ Hq).
      unfold zeros2. rewrite replicate_S_end, <- app_assoc.
      rewrite insert_app_r_alt by (rewrite length_replicate; lia).
      rewrite length_replicate. replace (k - k) with 0 by lia. reflexivity. }
    rewrite Hins. apply IH. lia.
Qed.

(** C7.  On a well-formed model, a sequence of symbols of its alphabet and
    [T + 1] scale factors, [backward] returns the trellis of the
    specification: row [T] is the terminal distribution (all ones by
    default) divided by [Q[T]], and going down from [T - 1] to 0, row [t] is
    the emitting contribution
    [sum over j of transitions[i][j] * emissions[obs[t]][j] * beta[t+1][j]],
    then the null-arc propagation in reverse topological order, then the
    division by [Q[t]]. *)
Theorem backward_computes_scaled_recursion :
  forall self data Q init_beta,
    well_formed self = true ->
    symbols_in_range self data = true ->
    length Q = S (length data) ->
    (forall b, init_beta = Some b -> length b = num_states self) ->
    backward self data Q init_beta = Ok (backward_spec self data Q init_beta).
Proof.
  intros self data Q init_beta Hwf Hdata HQ Hb.
  unfold backward, backward_spec.
  set (terminal := match init_beta with Some b => b | None => ones (num_states self) end).
  assert (Hterm : length terminal = num_states self).
  { subst terminal. destruct init_beta as [b|]; [apply Hb; reflexivity|].
    apply length_replicate. }
  assert (Hrow : match init_beta with
                 | None => Ok (ones (num_states self))
                 | Some b => if Nat.eqb (length b) (num_states self)
                             then Ok b else Raise ValueError
                 end = Ok terminal).
  { subst terminal. destruct init_beta as [b|]; [|reflexivity].
    rewrite (proj2 (Nat.eqb_eq _ _) (Hb b eq_refl)). reflexivity. }
  rewrite Hrow. cbn [bind].
  rewrite (last_item_Ok Q (length data) HQ). simpl.
  pose proof (backward_loop self data Q terminal Hwf Hdata HQ Hterm (length data) (le_n _))
    as Hloop.
  rewrite drop_all in Hloop. simpl in Hloop.
  rewrite <- Hloop. f_equal.
  unfold zeros2. rewrite Nat.add_1_r, replicate_S_end.
  rewrite insert_app_r_alt by (rewrite length_replicate; lia).
  rewrite length_replicate. replace (length data - length data) with 0 by lia.
  reflexivity.
Qed.

Lemma backward_computes_scaled_recursion_witness :
  backward null_arc_model [0; 1] [fone; f0_5; fone] None =
  Ok (backward_spec null_arc_model [0; 1] [fone; f0_5; fone] None).
Proof.
  apply (backward_computes_scaled_recursion null_arc_model [0; 1] [fone; f0_5; fone] None).
  - reflexivity.
  - reflexivity.
  - reflexivity.
  - intros b Hb. discriminate Hb.
Defined.

(** ** The log-domain forward pass *)

Section LogDomainFacts.

Variable np_log : float -> float.
Variable logsumexp : vec -> float.

Lemma log_null_sweep_Ok self (row : vec) :
  null_arcs_in_range self = true ->
  length row = num_states self ->
  exists row',
    for_each (topo_order self)
      (fun s row =>
         match dict_get (null_arcs self) s with
         | None => Ok row
         | Some dests =>
             for_each dests
               (fun '(s_y, p) row => log_add_scaled np_log logsumexp row s_y s p) row
         end) row = Ok row' /\
    length row' = num_states self.
Proof.
  intros Hr Hlen. unfold null_arcs_in_range in Hr. rewrite forallb_forall in Hr.
  apply (for_each_invariant (fun row : vec => length row = num_states self));
    [|exact Hlen].
  intros s r Hs Hl. specialize (Hr s Hs). unfold null_row in Hr.
  destruct (dict_get (null_arcs self) s) as [dests|]; [|eauto].
  rewrite forallb_forall in Hr.
  apply (for_each_invariant (fun row : vec => length row = num_states self));
    [|exact Hl].
  intros [d p] r' Hd Hl'. specialize (Hr _ Hd). simpl in Hr.
  apply andb_true_iff in Hr. destruct Hr as [Hsn Hdn].
  apply Nat.ltb_lt in Hsn. apply Nat.ltb_lt in Hdn.
  unfold log_add_scaled, index.
  destruct (lookup_lt_is_Some_2 r' d) as [a Ha]; [lia|].
  destruct (lookup_lt_is_Some_2 r' s) as [b Hb]; [lia|].
  rewrite Ha, Hb. simpl. eexists. split; [reflexivity|].
  rewrite length_insert. exact Hl'.
Qed.

Lemma forward_log_returns self data :
  well_formed self = true ->
  symbols_in_range self data = true ->
  0 < num_states self ->
  exists L, forward_log np_log logsumexp self data None = Ok L /\
            length L = S (length data).
Proof.
  intros Hwf Hdata Hn.
  destruct (well_formed_inv self Hwf) as (e & He & HT & HE & Hnull).
  unfold forward_log.
  destruct (num_states self) as [|n'] eqn:Hns; [lia|]. rewrite <- Hns in *.
  cbn [bind].
  set (I := fun L : matrix =>
              length L = S (length data) /\
              Forall (fun r : vec => length r = num_states self) L).
  match goal with
  | |- exists L, for_each ?l ?body ?L0 = Ok L /\ _ =>
      destruct (for_each_invariant I l body) with (s := L0) as (L & HL & HI)
  end.
  - intros t L Ht [HLlen HLrows]. apply in_seq in Ht.
    destruct (lookup_lt_is_Some_2 data (t - 1)) as [o Ho]; [lia|].
    assert (Hobs : o < num_outputs self).
    { unfold symbols_in_range in Hdata. rewrite forallb_forall in Hdata.
      apply Nat.ltb_lt, Hdata. apply list_elem_of_In. eapply list_elem_of_lookup_2; eauto. }
    destruct (shape_row e _ _ o HE Hobs) as (row & Hrow & Lrow).
    destruct (lookup_lt_is_Some_2 L (t - 1)) as [prev Hprev]; [lia|].
    unfold index, trans_emis. rewrite Ho, He. cbn [bind]. unfold index.
    rewrite Hrow. cbn [bind]. rewrite Hprev. cbn [bind].
    match goal with
    | |- context [if Nat.ltb t (length data) then ?sweep else Ok ?r] =>
        assert (Hsw : exists r', (if Nat.ltb t (length data) then sweep else Ok r) = Ok r' /\
                                 length r' = num_states self)
    end.
    { destruct (Nat.ltb t (length data)).
      - apply log_null_sweep_Ok; [exact Hnull|].
        rewrite length_map, length_seq. reflexivity.
      - eexists. split; [reflexivity|]. rewrite length_map, length_seq. reflexivity. }
    destruct Hsw as (r' & -> & Lr'). cbn [bind]. eexists. split; [reflexivity|].
    split.
    + rewrite length_insert. exact HLlen.
    + apply Forall_insert; assumption.
  - subst I. cbv beta. split.
    + rewrite length_insert. unfold zeros2. rewrite length_replicate. lia.
    + apply Forall_insert.
      * apply Forall_replicate. apply length_replicate.
      * rewrite length_map, length_replicate. reflexivity.
  - exists L. split; [exact HL | apply HI].
Qed.

End LogDomainFacts.

(** C9.  On every well-formed model and sequence of its symbols the
    log-domain pass [forward_log] returns a trellis of [T + 1] rows, whatever
    [np.log] and [logsumexp] compute, while the scaled pass [forward] returns
    no trellis at all: there are no scaled per-stage posteriors for the
    log-domain ones to agree with. *)
Theorem forward_log_has_trellis_forward_has_none :
  forall np_log logsumexp self data,
    well_formed self = true ->
    symbols_in_range self data = true ->
    0 < num_states self ->
    (exists L, forward_log np_log logsumexp self data None = Ok L /\
               length L = S (length data)) /\
    forall x, returned (forward self data None) <> Ok (Some x).
Proof.
  intros np_log logsumexp self data Hwf Hdata Hn. split.
  - apply forward_log_returns; assumption.
  - intros x. apply forward_returns_None.
Qed.

Lemma forward_log_has_trellis_forward_has_none_witness :
  (exists L, forward_log (fun x => x) fsum null_arc_model [0; 1] None = Ok L /\
             length L = 3) /\
  forall x, returned (forward null_arc_model [0; 1] None) <> Ok (Some x).
Proof.
  apply (forward_log_has_trellis_forward_has_none (fun x => x) fsum null_arc_model [0; 1]).
  - reflexivity.
  - reflexivity.
  - simpl. lia.
Defined.

(** ** Re-estimation of the emissions *)

(** The emissions [update_params] leaves. *)
Lemma update_params_emissions self counts :
  output_arc_counts self = Some counts ->
  let n := num_states self in
  emissions (self_after (update_params self)) =
  Emis3 (map (map (map nan_to_num)) (map (fun A => mdiv A (sum_axis0 n n counts)) counts)).
Proof.
  intros Hc n. unfold update_params. unfold mbind at 1. simpl. rewrite Hc.
  rewrite !self_after_mbind_modify.
  match goal with
  | |- emissions (self_after (?m ?s)) = _ =>
      transitivity (emissions s); [|reflexivity];
      cut (preserves emissions m); [intros Hp; apply Hp|]
  end.
  preserves_tac.
Qed.

(** C2, as the code has it.  After [update_params] the emission table is
    indexed by symbol, origin and destination: the entry of symbol [o] on
    the arc [i -> j] is the count of [o] on that arc divided by the count of
    the arc summed over the symbols (NaN replaced by 0.0), and an arc all of
    whose counts are zero gets the entry 0 for every symbol. *)
Theorem update_params_emissions_per_arc :
  forall self counts,
    output_arc_counts self = Some counts ->
    let n := num_states self in
    Forall (fun A => shape A n n) counts ->
    exists E,
      emissions (self_after (update_params self)) = Emis3 E /\
      length E = length counts /\
      forall o A i j,
        counts !! o = Some A -> i < n -> j < n ->
        get (nth o E []) i j = nan_to_num (fdiv (get A i j) (arc_total counts i j)) /\
        (Forall (fun B => is_zero (get B i j) = true) counts ->
         get (nth o E []) i j = fzero).
Proof.
  intros self counts Hc n HF.
  eexists. split; [apply (update_params_emissions self counts Hc)|].
  split; [rewrite !length_map; reflexivity|].
  intros o A i j Ho Hi Hj. fold n.
  assert (HA : shape A n n).
  { rewrite Forall_forall in HF. apply HF. eapply list_elem_of_lookup_2; eauto. }
  assert (HS : shape (sum_axis0 n n counts) n n) by (apply shape_sum_axis0; exact HF).
  assert (Hget : get (nth o (map (map (map nan_to_num))
                     (map (fun A0 => mdiv A0 (sum_axis0 n n counts)) counts)) []) i j
                 = nan_to_num (fdiv (get A i j) (arc_total counts i j))).
  { erewrite nth_lookup_Some; cycle 1.
    { change (map ?f ?l) with (f <$> l). rewrite !list_lookup_fmap, Ho. reflexivity. }
    rewrite (get_map2 nan_to_num _ n n); try assumption.
    - unfold mdiv. rewrite (get_zip2 fdiv A _ n n); try assumption.
      rewrite (get_sum_axis0 n n); auto.
    - apply shape_zip2; assumption. }
  split; [exact Hget|].
  intros HZ. rewrite Hget. rewrite fdiv_zero_zero; [reflexivity| |].
  - rewrite Forall_forall in HZ. apply HZ. eapply list_elem_of_lookup_2; eauto.
  - unfold arc_total. apply fsum_zeros. apply Forall_fmap.
    eapply Forall_impl; [exact HZ|]. intros B HB. exact HB.
Qed.

Lemma counted_counts_shape : Forall (fun A => shape A 2 2) counted_counts.
Proof. repeat (constructor; [apply has_shape_shape; reflexivity|]). constructor. Qed.

Lemma update_params_emissions_per_arc_witness :
  exists E,
    emissions (self_after (update_params counted_model)) = Emis3 E /\
    length E = length counted_counts /\
    forall o A i j,
      counted_counts !! o = Some A -> i < 2 -> j < 2 ->
      get (nth o E []) i j = nan_to_num (fdiv (get A i j) (arc_total counted_counts i j)) /\
      (Forall (fun B => is_zero (get B i j) = true) counted_counts ->
       get (nth o E []) i j = fzero).
Proof.
  apply (update_params_emissions_per_arc counted_model counted_counts).
  - reflexivity.
  - apply counted_counts_shape.
Defined.

(** C2 as stated fails: after [update_params] the entries of symbol 0 into
    the destination 1 differ with the origin (0.5 from state 0, 0 from
    state 1), and neither is the quotient over the destination alone. *)
Lemma emissions_depend_on_origin :
  exists E,
    emissions (self_after (update_params counted_model)) = Emis3 E /\
    get (nth 0 E []) 0 1 = f0_5 /\
    get (nth 0 E []) 1 1 = fzero /\
    get (nth 0 E []) 0 1 <> emission_by_destination 2 counted_counts 0 1 /\
    get (nth 0 E []) 1 1 <> emission_by_destination 2 counted_counts 0 1.
Proof.
  eexists. split; [vm_compute; reflexivity|].
  vm_compute. repeat split; discriminate.
Qed.

(** ** Re-estimation of the transitions and of the null arcs *)

(** [trans_sum_row[i]] is the arc counts of [i] summed over destinations
    and symbols. *)
Lemma leaving_mass_Ok n counts cn i d :
  Forall (fun A => shape A n n) counts ->
  leaving_mass (sum_axis1 (sum_axis0 n n counts)) (Some cn) i = Ok d ->
  i < n /\ d = mass_leaving n counts cn i.
Proof.
  intros HF H. unfold leaving_mass in H. apply bind_Ok in H.
  destruct H as (r & Hr & Hd). injection Hd as <-.
  apply index_Ok in Hr. unfold sum_axis1 in Hr.
  change (map ?f ?l) with (f <$> l) in Hr. rewrite list_lookup_fmap in Hr.
  destruct (sum_axis0 n n counts !! i) as [row|] eqn:Hrow; [|discriminate].
  simpl in Hr. injection Hr as <-.
  pose proof (shape_sum_axis0 n n counts HF) as HS.
  assert (Hi : i < n).
  { destruct HS as [HL _]. rewrite <- HL. eapply lookup_lt_Some; eauto. }
  split; [exact Hi|]. unfold mass_leaving. f_equal. f_equal.
  rewrite (row_entries _ i row n Hrow (shape_lookup _ _ _ _ _ HS Hrow)).
  apply map_ext_in. intros j Hj. apply in_seq in Hj.
  apply get_sum_axis0; [exact HF | exact Hi | lia].
Qed.

#[local] Arguments leaving_mass : simpl never.

(** The loop over the null arcs in [update_params]. *)
Lemma null_arc_loop (row : vec) (c : counts_null) (arcs : list (nat * nat)) :
  forall s,
    let o :=
      for_each_m arcs
        (fun '(ix, iy) =>
           self <~ get_self ;;
           d <~ lift (leaving_mass row (Some c) ix) ;;
           modify (set_null_arcs
                     (dict_set (null_arcs self) ix
                        (dict_set (null_row (null_arcs self) ix) iy
                           (fdiv (null_count c ix iy) d))))) s in
    returned o = Ok tt ->
    forall i d,
      ((i, d) ∈ arcs ->
       exists dn, leaving_mass row (Some c) i = Ok dn /\
                  lookup2 (null_arcs (self_after o)) i d = Some (fdiv (null_count c i d) dn)) /\
      ((i, d) ∉ arcs ->
       lookup2 (null_arcs (self_after o)) i d = lookup2 (null_arcs s) i d).
Proof.
  induction arcs as [|[ix iy] arcs IH]; intros s o Hret i d; subst o.
  - split; [intros H; inversion H | reflexivity].
  - simpl in Hret. apply mbind_Ok in Hret. destruct Hret as ([] & Hbody & Hrest & Hs).
    simpl for_each_m. rewrite Hs. clear Hs.
    destruct (leaving_mass row (Some c) ix) as [dn|e] eqn:Hdn;
      [|unfold mbind in Hbody; simpl in Hbody; discriminate].
    match type of Hrest with
    | context [for_each_m arcs ?body ?s1] =>
        assert (Hs1 : s1 = set_null_arcs
                  (dict_set (null_arcs s) ix
                     (dict_set (null_row (null_arcs s) ix) iy
                        (fdiv (null_count c ix iy) dn))) s)
          by (unfold mbind; simpl; reflexivity);
        rewrite Hs1 in Hrest |- *
    end.
    clear Hbody Hs1.
    destruct (IH _ Hrest i d) as [Hin Hout]. simpl in Hout.
    unfold null_row in *. split.
    + intros Hel. destruct (decide ((i, d) ∈ arcs)) as [Hr|Hr]; [apply Hin, Hr|].
      apply elem_of_cons in Hel. destruct Hel as [Heq|Hel]; [|contradiction].
      injection Heq as -> ->. exists dn. split; [exact Hdn|].
      rewrite (Hout Hr), lookup2_set, decide_True by reflexivity. reflexivity.
    + intros Hnel. apply not_elem_of_cons in Hnel. destruct Hnel as [Hne Hnel].
      rewrite (Hout Hnel), lookup2_set, decide_False by congruence. reflexivity.
Qed.

(** What [update_params] does, step by step. *)
Lemma update_params_unfold self counts c :
  output_arc_counts self = Some counts ->
  output_arc_counts_null self = Some c ->
  let n := num_states self in
  let trans_sum := sum_axis0 n n counts in
  let trans_sum_row := sum_axis1 trans_sum in
  let E := map (fun A => mdiv A trans_sum) counts in
  let s1 := set_emissions (Emis3 (map (map (map nan_to_num)) E))
              (set_emissions (Emis3 E) self) in
  let u := update_params self in
  match assert_emission_probs s1 with
  | Raise e => self_after u = s1 /\ returned u = Raise e
  | Ok _ =>
      match
        for_each (ndindex (transitions self))
          (fun '(ix, iy) trans_new =>
             v <- (x <- index2 trans_sum ix iy ;;
                   d <- leaving_mass trans_sum_row (Some c) ix ;;
                   Ok (fdiv x d)) ;;
             Ok (set2 trans_new ix iy v))
          (map (map (fun _ => fzero)) (transitions self))
      with
      | Raise e => self_after u = s1 /\ returned u = Raise e
      | Ok trans_new =>
          let o :=
            for_each_m (arcs_of (null_arcs self))
              (fun '(ix, iy) =>
                 self <~ get_self ;;
                 d <~ lift (leaving_mass trans_sum_row (Some c) ix) ;;
                 modify (set_null_arcs
                           (dict_set (null_arcs self) ix
                              (dict_set (null_row (null_arcs self) ix) iy
                                 (fdiv (null_count c ix iy) d)))))
              (set_transitions trans_new s1) in
          self_after u = self_after o /\
          returned u = match returned o with
                       | Raise e => Raise e
                       | Ok _ => assert_transition_probs (self_after o)
                       end
      end
  end.
Proof.
  intros Hc Hcn n trans_sum trans_sum_row E s1 u. subst u.
  unfold update_params. rewrite mbind_get_self, Hc, Hcn.
  rewrite !mbind_modify, mbind_get_self.
  fold n. fold trans_sum. fold trans_sum_row. fold E. fold s1.
  destruct (assert_emission_probs s1) as [[]|e];
    [rewrite mbind_lift_Ok | rewrite mbind_lift_Raise; split; reflexivity].
  change (transitions s1) with (transitions self).
  match goal with
  | |- context [lift (for_each ?l ?f ?s)] =>
      rewrite (for_each_ext l f
                 (fun '(ix, iy) trans_new =>
                    v <- (x <- index2 trans_sum ix iy ;;
                          d <- leaving_mass trans_sum_row (Some c) ix ;;
                          Ok (fdiv x d)) ;;
                    Ok (set2 trans_new ix iy v)) s)
  end.
  2:{ intros [ix iy] M. simpl.
      destruct (index2 trans_sum ix iy); simpl; [|reflexivity].
      destruct (leaving_mass trans_sum_row (Some c) ix); reflexivity. }
  destruct (for_each (ndindex (transitions self)) _ _) as [trans_new|e];
    [rewrite mbind_lift_Ok | rewrite mbind_lift_Raise; split; reflexivity].
  rewrite mbind_modify. change (null_arcs s1) with (null_arcs self).
  cbn zeta.
  match goal with
  | |- context [mbind ?m ?k ?s] =>
      destruct (mbind_split m k s) as [H1 H2]; rewrite H1, H2; clear H1 H2;
      destruct (returned (m s)) as [[]|e]; split; reflexivity
  end.
Qed.

(** C6.  When [update_params] returns, the new probability of the emitting
    transition [i -> j] is the arc counts of [(i, j)] summed over the
    symbols divided by the mass leaving [i] (the arc counts of [i] over
    every destination and symbol plus the null-arc counts of [i]), and the
    new probability of every null arc [i -> d] is its null-arc count divided
    by that same mass. *)
Theorem update_params_transitions_share_mass :
  forall self counts cn,
    output_arc_counts self = Some counts ->
    output_arc_counts_null self = Some cn ->
    let n := num_states self in
    Forall (fun A => shape A n n) counts ->
    shape (transitions self) n n ->
    returned (update_params self) = Ok tt ->
    let s' := self_after (update_params self) in
    (forall i j, i < n -> j < n ->
       get (transitions s') i j =
       fdiv (arc_total counts i j) (mass_leaving n counts cn i)) /\
    (forall i d, (i, d) ∈ arcs_of (null_arcs self) ->
       lookup2 (null_arcs s') i d =
       Some (fdiv (null_count cn i d) (mass_leaving n counts cn i))).
Proof.
  intros self counts cn Hc Hcn n HF HT Hret s'. subst s'.
  pose proof (update_params_unfold self counts cn Hc Hcn) as U. cbn zeta in U.
  fold n in U.
  destruct (assert_emission_probs _) as [[]|e] in U;
    [|destruct U as [_ U]; congruence].
  destruct (for_each (ndindex (transitions self)) _ _) as [trans_new|e] eqn:Hloop in U;
    [|destruct U as [_ U]; congruence].
  destruct U as [Hs Hr]. rewrite Hs. rewrite Hret in Hr.
  match type of Hr with
  | context [returned ?o] => set (o1 := o) in *
  end.
  destruct (returned o1) as [[]|e] eqn:Ho; [clear Hr|discriminate].
  split.
  - intros i j Hi Hj.
    assert (Ht : transitions (self_after o1) = trans_new).
    { subst o1.
      match goal with
      | |- transitions (self_after (?m ?s)) = _ =>
          transitivity (transitions s); [|reflexivity];
          cut (preserves transitions m); [intros Hp; apply Hp|]
      end.
      preserves_tac. }
    rewrite Ht.
    assert (Hin : inb (map (map (fun _ : float => fzero)) (transitions self)) i j).
    { apply (inb_shape _ n n); [apply shape_map2; exact HT | exact Hi | exact Hj]. }
    destruct (for_each_set2 _ _ _ _ Hloop i j Hin) as (_ & Hset & _).
    destruct Hset as (v & Hv & Hget).
    { apply elem_of_ndindex. apply (inb_shape _ n n); assumption. }
    rewrite Hget. apply bind_Ok in Hv. destruct Hv as (x & Hx & Hv).
    apply bind_Ok in Hv. destruct Hv as (d & Hd & Hv). injection Hv as <-.
    apply index2_Ok in Hx. rewrite (get_sum_axis0 n n) in Hx by assumption.
    destruct (leaving_mass_Ok n counts cn i d HF Hd) as [_ ->].
    rewrite Hx. reflexivity.
  - intros i d Hel. subst o1.
    destruct (null_arc_loop _ _ _ _ Ho i d) as [Hin _].
    destruct (Hin Hel) as (dn & Hdn & Hl). rewrite Hl.
    destruct (leaving_mass_Ok n counts cn i dn HF Hdn) as [_ ->]. reflexivity.
Qed.

Lemma update_params_transitions_share_mass_witness :
  let s' := self_after (update_params counted_model) in
  let cn := [(0, [(1, f0_5)])] in
  (forall i j, i < 2 -> j < 2 ->
     get (transitions s') i j =
     fdiv (arc_total counted_counts i j) (mass_leaving 2 counted_counts cn i)) /\
  (forall i d, (i, d) ∈ arcs_of (null_arcs counted_model) ->
     lookup2 (null_arcs s') i d =
     Some (fdiv (null_count cn i d) (mass_leaving 2 counted_counts cn i))).
Proof.
  apply (update_params_transitions_share_mass counted_model counted_counts
           [(0, [(1, f0_5)])]).
  - reflexivity.
  - reflexivity.
  - apply counted_counts_shape.
  - apply has_shape_shape. reflexivity.
  - vm_compute. reflexivity.
Defined.

(** ** The composite model *)

Lemma emissions_2d_Ok h e : emissions h = Emis2 e -> emissions_2d h = Ok e.
Proof. intros H. unfold emissions_2d. rewrite H. reflexivity. Qed.

Lemma prototype_ok_inv k h :
  prototype_ok k h = true ->
  has_shape (transitions h) k k = true /\
  exists e, emissions h = Emis2 e /\ has_shape e 256 k = true.
Proof.
  unfold prototype_ok. intros H. apply andb_true_iff in H. destruct H as [Ht He].
  split; [exact Ht|]. destruct (emissions h) as [e|e]; [eauto | discriminate].
Qed.

(** The loop over the letters returns; it keeps the shape of the transition
    matrix and every entry to the right of the last letter block. *)
Lemma copy_letters_Ok letter_HMMs word : forall T E cur n,
  registered letter_HMMs word = true ->
  shape T n n ->
  exists T' E',
    copy_letters word letter_HMMs (T, E, cur) = Ok (T', E', cur + 3 * length word) /\
    shape T' n n /\
    (forall i j, cur + 3 * length word <= j -> get T' i j = get T i j) /\
    (forall i, i < cur -> T' !! i = T !! i).
Proof.
  unfold copy_letters.
  induction word as [|c word IH]; intros T E cur n Hreg HS.
  - simpl. exists T, E. rewrite Nat.add_0_r. auto.
  - simpl in Hreg. apply andb_true_iff in Hreg. destruct Hreg as [Hc Hreg].
    destruct (letter_HMMs c) as [h|] eqn:Hh; [|discriminate].
    destruct (prototype_ok_inv 3 h Hc) as (Ht & e & He & Hes).
    rewrite for_each_cons. cbv beta iota. rewrite Hh.
    rewrite (assign_block_Ok _ _ _ _ _ _ Ht). cbn [bind].
    rewrite (emissions_2d_Ok h e He). cbn [bind].
    rewrite (assign_block_Ok _ _ _ _ _ _ Hes). cbn [bind].
    destruct (IH (write_block T cur cur (transitions h)) (write_block E 0 cur e)
                (cur + 3) n Hreg) as (T' & E' & Hrun & HS' & Hright & Hleft).
    { apply shape_write_block. exact HS. }
    exists T', E'. split.
    { rewrite Hrun. f_equal. f_equal. simpl. lia. }
    split; [exact HS'|]. split.
    + intros i j Hj. rewrite Hright by (simpl in Hj; lia).
      apply (get_write_block_right _ _ _ _ 3).
      * apply has_shape_shape in Ht. apply Ht.
      * simpl in Hj. lia.
    + intros i Hi. rewrite Hleft by lia. apply write_block_row_before. exact Hi.
Qed.

(** One round of the linking loop rewrites row [i] only. *)
Lemma link_row_inv n i T T' :
  link_row n i T = Ok T' ->
  (forall r, r <> i -> T' !! r = T !! r) /\
  (forall h w, shape T h w -> shape T' h w).
Proof.
  unfold link_row. destruct (Nat.eqb ((i - 5) mod 3) 2).
  - intros H. injection H as <-. split.
    + intros r Hr. destruct (Nat.ltb (i + 1) (n - 5)); unfold set2;
        rewrite ?list_lookup_alter_ne by congruence; reflexivity.
    + intros h w HS. destruct (Nat.ltb (i + 1) (n - 5)); repeat apply shape_set2; exact HS.
  - intros H. apply bind_Ok in H. destruct H as (row & _ & H). injection H as <-. split.
    + intros r Hr. apply list_lookup_alter_ne. congruence.
    + intros h w [HL HF]. split.
      * rewrite length_alter. exact HL.
      * apply Forall_alter; [exact HF|]. intros r _ Hr. rewrite length_inserts. exact Hr.
Qed.

Lemma link_row_returns n i T : exists T', link_row n i T = Ok T'.
Proof.
  unfold link_row. destruct (Nat.eqb ((i - 5) mod 3) 2); [eauto|].
  pose proof (Nat.mod_upper_bound (i - 5) 3 ltac:(lia)) as Hm.
  destruct ((i - 5) mod 3) as [|[|[|k]]]; try lia; simpl; eauto.
Qed.

Lemma link_loop_returns n idxs : forall T, exists T', for_each idxs (link_row n) T = Ok T'.
Proof.
  induction idxs as [|i idxs IH]; intros T; simpl; [eauto|].
  destruct (link_row_returns n i T) as [T1 ->]. simpl. apply IH.
Qed.

Lemma link_loop_keeps_row n l idxs : forall T T',
  for_each idxs (link_row n) T = Ok T' ->
  ~ In l idxs ->
  T' !! l = T !! l /\ (forall h w, shape T h w -> shape T' h w).
Proof.
  induction idxs as [|i idxs IH]; intros T T' Hrun Hnin; simpl in Hrun.
  - injection Hrun as <-. auto.
  - apply bind_Ok in Hrun. destruct Hrun as (T1 & H1 & Hrun).
    destruct (link_row_inv n i T T1 H1) as [Hrows Hshape].
    destruct (IH T1 T' Hrun) as [Hl Hs]; [intros Hin; apply Hnin; right; exact Hin|].
    split.
    + rewrite Hl. apply Hrows. intros ->. apply Hnin. left. reflexivity.
    + intros h w HS. apply Hs, Hshape, HS.
Qed.

(** The row of the last state [l] of a letter block after the linking
    loop. *)
Lemma link_letters_last_state n T T3 l :
  shape T n n ->
  link_letters n T = Ok T3 ->
  5 <= l -> l < n - 5 -> (l - 5) mod 3 = 2 ->
  shape T3 n n /\
  get T3 l l = f0_8 /\
  (l + 1 < n - 5 -> get T3 l (l + 1) = f0_2) /\
  (forall j, j <> l -> l + 1 < n - 5 -> j <> l + 1 -> get T3 l j = get T l j) /\
  (forall j, j <> l -> ~ l + 1 < n - 5 -> get T3 l j = get T l j).
Proof.
  intros HS Hrun H5 Hl Hmod. unfold link_letters in Hrun.
  replace (n - 5 - 5) with ((l - 5) + S (n - 5 - S l)) in Hrun by lia.
  rewrite seq_app in Hrun. replace (5 + (l - 5)) with l in Hrun by lia.
  apply for_each_app_Ok in Hrun. destruct Hrun as (Ta & Ha & Hrun).
  cbn [seq] in Hrun. rewrite for_each_cons in Hrun.
  apply bind_Ok in Hrun. destruct Hrun as (Tb & Hb & Hc).
  destruct (link_loop_keeps_row n l _ _ _ Ha) as [Hla Hsa].
  { rewrite in_seq. lia. }
  destruct (link_loop_keeps_row n l _ _ _ Hc) as [Hlc Hsc].
  { rewrite in_seq. lia. }
  pose proof (Hsa n n HS) as HSa.
  destruct (link_row_inv n l Ta Tb Hb) as [_ Hsb].
  split; [apply Hsc, Hsb, HSa|].
  unfold link_row in Hb. rewrite Hmod in Hb. cbn [Nat.eqb] in Hb.
  injection Hb as Hb.
  assert (Hll : inb Ta l l) by (apply (inb_shape Ta n n); [exact HSa | lia | lia]).
  destruct (Nat.ltb_spec (l + 1) (n - 5)) as [Hnext|Hlast]; subst Tb.
  - assert (Hl1 : inb Ta l (l + 1)) by (apply (inb_shape Ta n n); [exact HSa | lia | lia]).
    split; [|split; [|split]].
    + rewrite (get_row_eq _ _ l l Hlc).
      rewrite get_set2_ne by (intros H; injection H; lia).
      apply get_set2_eq. exact Hll.
    + intros _. rewrite (get_row_eq _ _ l (l + 1) Hlc). apply get_set2_eq.
      apply inb_set2. exact Hl1.
    + intros j Hj _ Hj1.
      rewrite (get_row_eq _ _ l j Hlc).
      rewrite !get_set2_ne by (intros H; injection H; lia).
      apply get_row_eq. exact Hla.
    + intros j _ Hn. contradiction.
  - split; [|split; [|split]].
    + rewrite (get_row_eq _ _ l l Hlc). apply get_set2_eq. exact Hll.
    + intros Hn. lia.
    + intros j _ Hn. lia.
    + intros j Hj _. rewrite (get_row_eq _ _ l j Hlc).
      rewrite get_set2_ne by (intros H; injection H; lia).
      apply get_row_eq. exact Hla.
Qed.

(** C4, as the code has it.  For every word whose letters all have a
    registered prototype, the builder returns a model of [10 + 3 * len]
    states in which the last state of every letter block keeps a self-loop
    of 0.8; where another letter follows, its transition into the first
    state of the next letter block is 0.2; and from the last state of the
    last letter no transition enters any state of the trailing silence
    block. *)
Theorem initialize_combined_hmm_links_letters :
  forall word letter_HMMs silence_HMM,
    registered letter_HMMs word = true ->
    prototype_ok 5 silence_HMM = true ->
    exists m,
      initialize_combined_hmm word letter_HMMs silence_HMM = Ok m /\
      let n := 10 + 3 * length word in
      num_states m = n /\
      forall p, p < length word ->
        let l := 5 + 3 * p + 2 in
        get (transitions m) l l = f0_8 /\
        (S p < length word -> get (transitions m) l (l + 1) = f0_2) /\
        (S p = length word ->
         forall j, n - 5 <= j -> j < n -> get (transitions m) l j = fzero).
Proof.
  intros word letter_HMMs silence_HMM Hreg Hsil.
  destruct (prototype_ok_inv 5 silence_HMM Hsil) as (Hst & sE & HsE & HsEs).
  unfold initialize_combined_hmm.
  change (5 + 5 + 3 * length word) with (10 + 3 * length word).
  set (n := 10 + 3 * length word).
  rewrite (assign_block_Ok _ _ _ _ _ _ Hst). cbn [bind].
  rewrite (emissions_2d_Ok _ _ HsE). cbn [bind].
  rewrite (assign_block_Ok _ _ _ _ _ _ HsEs). cbn [bind].
  set (T1 := write_block (zeros2 n n) 0 0 (transitions silence_HMM)).
  assert (HS1 : shape T1 n n) by (apply shape_write_block, shape_zeros2).
  match goal with
  | |- context [copy_letters word letter_HMMs (T1, ?E1, 5)] =>
      destruct (copy_letters_Ok letter_HMMs word T1 E1 5 n Hreg HS1)
        as (T2 & E2 & Hcopy & HS2 & Hright & _)
  end.
  rewrite Hcopy. cbn [bind fst snd].
  destruct (link_loop_returns n (seq 5 (n - 5 - 5)) T2) as [T3 Hlink].
  unfold link_letters at 1. rewrite Hlink. cbn [bind].
  rewrite (assign_block_Ok _ _ _ _ _ _ Hst). cbn [bind].
  rewrite (assign_block_Ok _ _ _ _ _ _ HsEs). cbn [bind].
  eexists. split; [reflexivity|]. cbn zeta. split; [reflexivity|].
  intros p Hp. cbn [transitions new_HMM].
  set (l := 5 + 3 * p + 2).
  assert (Hmod : (l - 5) mod 3 = 2).
  { subst l. replace (5 + 3 * p + 2 - 5) with (2 + p * 3) by lia.
    rewrite Nat.Div0.mod_add. reflexivity. }
  destruct (link_letters_last_state n T2 T3 l HS2 Hlink)
    as (HS3 & Hself & Hnext & _ & Hlast); [subst l; lia | subst l n; lia | exact Hmod |].
  assert (Hrow : forall j, get (write_block T3 (n - 5) (n - 5) (transitions silence_HMM)) l j
                           = get T3 l j).
  { intros j. apply get_row_eq. apply write_block_row_before. subst l n. lia. }
  rewrite !Hrow. split; [exact Hself|]. split.
  - intros Hsp. apply Hnext. subst l n. lia.
  - intros Hsp j Hj1 Hj2. rewrite Hrow.
    rewrite Hlast by (subst l n; lia).
    rewrite Hright by (subst n; lia).
    subst T1. rewrite (get_write_block_right _ _ _ _ 5).
    + apply get_zeros2.
    + apply has_shape_shape in Hst. apply Hst.
    + subst n. lia.
Qed.

Lemma initialize_combined_hmm_links_letters_witness :
  exists m,
    initialize_combined_hmm ["a"; "b"]%char letter_table silence_prototype = Ok m /\
    let n := 10 + 3 * 2 in
    num_states m = n /\
    forall p, p < 2 ->
      let l := 5 + 3 * p + 2 in
      get (transitions m) l l = f0_8 /\
      (S p < 2 -> get (transitions m) l (l + 1) = f0_2) /\
      (S p = 2 ->
       forall j, n - 5 <= j -> j < n -> get (transitions m) l j = fzero).
Proof.
  apply (initialize_combined_hmm_links_letters ["a"; "b"]%char letter_table
           silence_prototype).
  - vm_compute. reflexivity.
  - vm_compute. reflexivity.
Defined.


(** C4 as stated fails.  For the word "ab" the builder in force links the
    last state of the first letter (7) to the first state of the second (8)
    with probability 0.2, and puts no transition from the leading silence
    (4) into the first letter (5) nor from the last letter state (10) into
    the trailing silence (11); the earlier builder that writes entries 1.0
    writes them from state 10 into every state of the trailing silence, not
    only into its first. *)
Lemma glue_transitions_are_not_one :
  exists m m',
    initialize_combined_hmm ["a"; "b"]%char letter_table silence_prototype = Ok m /\
    get (transitions m) 7 8 = f0_2 /\
    get (transitions m) 7 8 <> fone /\
    get (transitions m) 4 5 = fzero /\
    get (transitions m) 10 11 = fzero /\
    initialize_combined_hmm_linked ["a"; "b"]%char letter_table silence_prototype = Ok m' /\
    get (transitions m') 10 11 = fone /\
    get (transitions m') 10 12 = fone.
Proof.
  eexists. eexists.
  split; [vm_compute; reflexivity|].
  split; [vm_compute; reflexivity|].
  split; [vm_compute; discriminate|].
  split; [vm_compute; reflexivity|].
  split; [vm_compute; reflexivity|].
  split; [vm_compute; reflexivity|].
  split; vm_compute; reflexivity.
Qed.

(** * Further properties of the code *)

(** ** The label files *)

Lemma range_by_two_SS n :
  range_by_two (S (S n)) = 0 :: map (fun i => S (S i)) (range_by_two n).
Proof.
  unfold range_by_two.
  change (Nat.div2 (S (S (S n)))) with (S (Nat.div2 (S n))).
  cbn [seq map]. f_equal.
  rewrite <- seq_shift, !map_map. apply map_ext. intros k. lia.
Qed.

Lemma chunks_concat {A : Type} (l : list A) :
  concat (map (fun i => slice l i (i + 2)) (range_by_two (length l))) = l.
Proof.
  assert (H : forall n (l : list A), length l <= n ->
            concat (map (fun i => slice l i (i + 2)) (range_by_two (length l))) = l).
  { clear l. induction n as [|n IH]; intros l Hl.
    - destruct l; [reflexivity | simpl in Hl; lia].
    - destruct l as [|a [|b l]]; [reflexivity | reflexivity |].
      cbn [length]. rewrite range_by_two_SS. cbn [map concat].
      rewrite map_map.
      change (slice (a :: b :: l) 0 (0 + 2)) with (a :: b :: take 0 l).
      rewrite take_0. cbn [app]. do 2 f_equal.
      apply (IH l). simpl in Hl. lia. }
  apply (H (length l)). lia.
Qed.

Lemma fold_left_extend {A B : Type} (f : A -> list B) (l : list A) : forall acc,
  fold_left (fun acc x => acc ++ f x) l acc = acc ++ concat (map f l).
Proof.
  induction l as [|a l IH]; intros acc; simpl.
  - now rewrite app_nil_r.
  - rewrite IH. now rewrite <- app_assoc.
Qed.

Lemma process_labels_into_pairs_eq labels_list :
  process_labels_into_pairs labels_list =
  concat (map (fun labels =>
                 map (fun i => slice labels i (i + 2)) (range_by_two (length labels)))
              labels_list).
Proof. unfold process_labels_into_pairs. now rewrite fold_left_extend. Qed.

Lemma chunk_length {A : Type} (l : list A) i :
  In i (range_by_two (length l)) ->
  1 <= length (slice l i (i + 2)) <= 2 /\
  (Nat.Even (length l) -> length (slice l i (i + 2)) = 2).
Proof.
  unfold range_by_two. rewrite in_map_iff. intros (k & <- & Hk).
  apply in_seq in Hk. unfold slice.
  rewrite length_take, length_drop.
  assert (Hd : 2 * Nat.div2 (S (length l)) <= S (length l)).
  { generalize (Nat.div2_odd (S (length l))). destruct (Nat.odd _); simpl; lia. }
  split; [lia|].
  intros [m Hm]. rewrite Hm in *.
  assert (Nat.div2 (S (2 * m)) = m).
  { generalize (Nat.div2_odd (S (2 * m))). rewrite Nat.odd_succ.
    replace (Nat.even (2 * m)) with true; [simpl; lia|].
    symmetry. apply Nat.even_spec. now exists m. }
  lia.
Qed.

Lemma pairs_concat labels_list :
  concat (process_labels_into_pairs labels_list) = concat labels_list.
Proof.
  rewrite process_labels_into_pairs_eq.
  induction labels_list as [|l L IH]; [reflexivity|].
  cbn [map concat]. rewrite concat_app, IH. f_equal. apply chunks_concat.
Qed.

Lemma pairs_lengths labels_list :
  Forall (fun p => 1 <= length p <= 2) (process_labels_into_pairs labels_list).
Proof.
  rewrite process_labels_into_pairs_eq.
  apply List.Forall_forall. intros p Hp.
  apply in_concat in Hp. destruct Hp as (ps & Hps & Hp).
  apply in_map_iff in Hps. destruct Hps as (l & <- & _).
  apply in_map_iff in Hp. destruct Hp as (i & <- & Hi).
  apply (chunk_length l i Hi).
Qed.

(** X1.  The pairs that [process_labels_into_pairs] returns, joined
    together, are the label strings joined together: no character is lost,
    added or moved.  Every pair has one or two characters, never none. *)
Theorem pairs_join_to_labels :
  forall labels_list,
    concat (process_labels_into_pairs labels_list) = concat labels_list /\
    Forall (fun p => 1 <= length p <= 2) (process_labels_into_pairs labels_list).
Proof.
  intros L. split; [apply pairs_concat | apply pairs_lengths].
Qed.

(** X2.  When every label string has an even number of characters, every
    pair [process_labels_into_pairs] returns has exactly two characters, and
    there are half as many pairs as there are characters. *)
Theorem pairs_of_even_labels :
  forall labels_list,
    Forall (fun labels => Nat.Even (length labels)) labels_list ->
    Forall (fun p => length p = 2) (process_labels_into_pairs labels_list) /\
    2 * length (process_labels_into_pairs labels_list) = length (concat labels_list).
Proof.
  intros L HL.
  assert (HF : Forall (fun p => length p = 2) (process_labels_into_pairs L)).
  { rewrite process_labels_into_pairs_eq.
    apply List.Forall_forall. intros p Hp.
    apply in_concat in Hp. destruct Hp as (ps & Hps & Hp).
    apply in_map_iff in Hps. destruct Hps as (l & <- & Hl).
    apply in_map_iff in Hp. destruct Hp as (i & <- & Hi).
    apply (chunk_length l i Hi).
    rewrite List.Forall_forall in HL. apply HL. exact Hl. }
  split; [exact HF|].
  rewrite <- (pairs_concat L).
  induction HF as [|p ps Hp _ IH]; [reflexivity|].
  cbn [concat length]. rewrite length_app. lia.
Qed.

Lemma pairs_of_even_labels_witness :
  Forall (fun p => length p = 2)
    (process_labels_into_pairs [["A"; "a"; "B"; "b"]; ["C"; "c"]]%char) /\
  2 * length (process_labels_into_pairs [["A"; "a"; "B"; "b"]; ["C"; "c"]]%char) =
  length (concat [["A"; "a"; "B"; "b"]; ["C"; "c"]]%char).
Proof.
  apply pairs_of_even_labels.
  repeat constructor; [exists 2 | exists 1]; reflexivity.
Defined.

Lemma short_label_chunks {A : Type} (l : list A) :
  1 <= length l <= 2 ->
  map (fun i => slice l i (i + 2)) (range_by_two (length l)) = [l].
Proof.
  destruct l as [|a [|b [|c l]]]; cbn [length]; intros H; try lia; reflexivity.
Qed.

(** X3.  [process_labels_into_pairs] applied to its own result changes
    nothing: strings of one or two characters are returned as they are. *)
Theorem process_labels_into_pairs_idempotent :
  forall labels_list,
    process_labels_into_pairs (process_labels_into_pairs labels_list) =
    process_labels_into_pairs labels_list.
Proof.
  intros L. pose proof (pairs_lengths L) as HF.
  rewrite (process_labels_into_pairs_eq (process_labels_into_pairs L)).
  induction HF as [|p ps Hp _ IH]; [reflexivity|].
  cbn [map concat]. rewrite IH, (short_label_chunks p Hp). reflexivity.
Qed.

(** ** The check of the order of the states *)

Lemma run_from_S k n : run_from k (S n) = k :: run_from (k + 1) n.
Proof.
  unfold run_from. cbn [seq map]. f_equal; [lia|].
  rewrite <- seq_shift, map_map. apply map_ext. intros i. lia.
Qed.

Lemma length_run_from k n : length (run_from k n) = n.
Proof. unfold run_from. now rewrite length_map, length_seq. Qed.

Lemma check_order_loop_spec l : forall p (seen : gset Z),
  (forall x, x ∈ seen -> (x <= p)%Z) ->
  match check_order_loop l (Some p) seen with
  | inl verdict => verdict = (false, GapsOrRepetitions) /\ l <> run_from (p + 1) (length l)
  | inr seen' => l = run_from (p + 1) (length l) /\ size seen' = length l + size seen
  end.
Proof.
  induction l as [|x l IH]; intros p seen Hseen.
  - simpl. split; reflexivity.
  - cbn [check_order_loop length]. rewrite run_from_S.
    destruct (Z.eqb_spec x (p + 1)) as [->|Hne]; cbn [negb].
    + rewrite bool_decide_eq_false_2
        by (intros Hin; apply Hseen in Hin; lia).
      specialize (IH (p + 1)%Z ({[(p + 1)%Z]} ∪ seen)).
      destruct (check_order_loop l (Some (p + 1)%Z) ({[(p + 1)%Z]} ∪ seen)).
      * destruct IH as [-> Hl].
        { intros y Hy. apply elem_of_union in Hy. destruct Hy as [Hy|Hy].
          - apply elem_of_singleton in Hy. lia.
          - apply Hseen in Hy. lia. }
        split; [reflexivity|]. intros Heq. apply Hl. now injection Heq.
      * destruct IH as [Hl Hsize].
        { intros y Hy. apply elem_of_union in Hy. destruct Hy as [Hy|Hy].
          - apply elem_of_singleton in Hy. lia.
          - apply Hseen in Hy. lia. }
        split; [now rewrite <- Hl|].
        rewrite Hsize, size_union, size_singleton; [lia|].
        intros y Hy1 Hy2. apply elem_of_singleton in Hy1. subst y.
        apply Hseen in Hy2. lia.
    + split; [reflexivity|]. intros Heq. now injection Heq.
Qed.

(** X4.  [check_topological_order] answers [(True, "... is valid.")] exactly
    for the lists of [num_states] entries that count up by one from their
    first entry; the first entry may be any integer, it need not be 0. *)
Theorem check_topological_order_accepts_runs :
  forall topo_order num_states,
    check_topological_order topo_order num_states = (true, ValidOrder) <->
    Z.of_nat (length topo_order) = num_states /\
    topo_order = run_from (hd 0%Z topo_order) (length topo_order).
Proof.
  intros l n. unfold check_topological_order.
  destruct l as [|x l].
  - cbn [check_order_loop]. rewrite size_empty. change (Z.of_nat 0) with 0%Z.
    destruct (Z.eqb_spec 0 n) as [He|He]; cbn [negb length hd].
    + split; [intros _|reflexivity]. split; [exact He | reflexivity].
    + split; [discriminate|]. intros [He' _]. contradiction.
  - cbn [check_order_loop hd length]. rewrite run_from_S.
    rewrite bool_decide_eq_false_2 by apply not_elem_of_empty.
    pose proof (check_order_loop_spec l x ({[x]} ∪ ∅)) as H.
    destruct (check_order_loop l (Some x) ({[x]} ∪ ∅)).
    + destruct H as [-> Hl].
      { intros y Hy. apply elem_of_union in Hy. destruct Hy as [Hy|Hy].
        - apply elem_of_singleton in Hy. lia.
        - now apply not_elem_of_empty in Hy. }
      split; [discriminate|]. intros [_ Heq]. exfalso. apply Hl. now injection Heq.
    + destruct H as [Hl Hsize].
      { intros y Hy. apply elem_of_union in Hy. destruct Hy as [Hy|Hy].
        - apply elem_of_singleton in Hy. lia.
        - now apply not_elem_of_empty in Hy. }
      rewrite Hsize, union_empty_r_L, size_singleton.
      replace (length l + 1) with (S (length l)) by lia.
      destruct (Z.eqb_spec (Z.of_nat (S (length l))) n); simpl.
      * split; [|reflexivity]. intros _. split; [assumption|]. now rewrite <- Hl.
      * split; [discriminate|]. intros [? _]. contradiction.
Qed.

(** X5.  [check_topological_order] never gives the message "Topological
    order contains repetitions.": a repeated state is reported by the check
    for gaps before the check for repetitions is reached.  Its first
    component is [True] only together with the message for a valid order. *)
Theorem check_topological_order_never_reports_repetitions :
  forall topo_order num_states,
    snd (check_topological_order topo_order num_states) <> Repetitions /\
    (fst (check_topological_order topo_order num_states) = true <->
     snd (check_topological_order topo_order num_states) = ValidOrder).
Proof.
  intros l n. unfold check_topological_order.
  destruct l as [|x l].
  - cbn [check_order_loop]. destruct (negb _); simpl; split; try discriminate;
      split; congruence.
  - cbn [check_order_loop].
    rewrite bool_decide_eq_false_2 by apply not_elem_of_empty.
    pose proof (check_order_loop_spec l x ({[x]} ∪ ∅)) as H.
    destruct (check_order_loop l (Some x) ({[x]} ∪ ∅)).
    + destruct H as [-> _].
      { intros y Hy. apply elem_of_union in Hy. destruct Hy as [Hy|Hy].
        - apply elem_of_singleton in Hy. lia.
        - now apply not_elem_of_empty in Hy. }
      simpl. split; [discriminate|]. split; congruence.
    + destruct (negb _); simpl; split; try discriminate; split; congruence.
Qed.

(** ** Null arcs added one by one *)

(** X6.  After [add_null_arc(ix, iy, prob)] the null arc [ix -> iy] has the
    probability [prob], whether the arc or its origin were there before or
    not; every other null arc is as it was, and the call returns normally and
    leaves [topo_order] as it was (it is not recomputed). *)
Theorem add_null_arc_lookup :
  forall self ix iy prob i d,
    let o := add_null_arc ix iy prob self in
    returned o = Ok tt /\
    lookup2 (null_arcs (self_after o)) i d =
      (if decide ((ix, iy) = (i, d)) then Some prob else lookup2 (null_arcs self) i d) /\
    topo_order (self_after o) = topo_order self.
Proof.
  intros self ix iy prob i d o. subst o.
  unfold add_null_arc. rewrite mbind_get_self.
  destruct (dict_get (null_arcs self) ix) as [r|] eqn:Hr.
  - unfold mbind at 1. cbn [ret returned self_after printed].
    rewrite mbind_get_self. cbn [modify returned self_after set_null_arcs null_arcs topo_order].
    split; [reflexivity|]. split; [|reflexivity].
    unfold null_row. apply lookup2_set.
  - rewrite mbind_modify, mbind_get_self.
    cbn [modify returned self_after set_null_arcs null_arcs topo_order].
    split; [reflexivity|]. split; [|reflexivity].
    unfold null_row. rewrite lookup2_set.
    destruct (decide ((ix, iy) = (i, d))); [reflexivity|].
    unfold lookup2. rewrite dict_get_set.
    destruct (decide (ix = i)) as [<-|]; [|reflexivity].
    rewrite Hr. reflexivity.
Qed.

(** ** The topological sort of [init_null_arcs] *)

Lemma positives_insert (count : list Z) : forall d v w,
  count !! d = Some v ->
  length (List.filter (fun c => Z.ltb 0 c) (<[d := w]> count))
    + (if Z.ltb 0 v then 1 else 0) =
  length (List.filter (fun c => Z.ltb 0 c) count) + (if Z.ltb 0 w then 1 else 0).
Proof.
  induction count as [|c count IH]; intros d v w Hd; [discriminate|].
  destruct d as [|d].
  - cbn in Hd. injection Hd as ->. cbn [insert list_insert List.filter].
    destruct (Z.ltb 0 v), (Z.ltb 0 w); cbn [length]; lia.
  - cbn in Hd. cbn [insert list_insert List.filter].
    specialize (IH d v w Hd).
    destruct (Z.ltb 0 c); cbn [length Nat.add]; [f_equal|]; exact IH.
Qed.

Lemma release_pending d cs cs' :
  release d cs = Ok cs' ->
  pending (fst cs') (snd cs') = pending (fst cs) (snd cs) /\
  length (fst cs') = length (fst cs).
Proof.
  unfold release. intros H. apply bind_Ok in H. destruct H as (v & Hv & H).
  apply index_Ok in Hv. injection H as <-. cbn [fst snd].
  split; [|apply length_insert].
  unfold pending. pose proof (positives_insert (fst cs) d v (v - 1)%Z Hv) as Hp.
  destruct (Z.eqb_spec (v - 1) 0) as [He|He].
  - assert (v = 1%Z) by lia. subst v. cbn [length]. simpl in Hp. lia.
  - assert (Z.ltb 0 v = Z.ltb 0 (v - 1)) as Hb.
    { destruct (Z.ltb_spec 0 v), (Z.ltb_spec 0 (v - 1)); try reflexivity; lia. }
    rewrite Hb in Hp. destruct (Z.ltb 0 (v - 1)); lia.
Qed.

Lemma release_loop_pending ds : forall cs cs',
  for_each ds release cs = Ok cs' ->
  pending (fst cs') (snd cs') = pending (fst cs) (snd cs) /\
  length (fst cs') = length (fst cs).
Proof.
  induction ds as [|d ds IH]; intros cs cs' H.
  - injection H as <-. split; reflexivity.
  - rewrite for_each_cons in H. apply bind_Ok in H. destruct H as (cs1 & H1 & H2).
    destruct (release_pending _ _ _ H1) as [Hp1 Hl1].
    destruct (IH _ _ H2) as [Hp2 Hl2]. split; congruence.
Qed.

(** The loop ends within the iterations it is given. *)
Lemma topo_sort_loop_ends na fuel : forall count stack order,
  pending count stack < fuel ->
  exists r, topo_sort_loop fuel na count stack order = Some r.
Proof.
  induction fuel as [|fuel IH]; intros count stack order Hf; [lia|].
  cbn [topo_sort_loop]. destruct stack as [|s stack]; [eauto|].
  unfold pending in Hf. cbn [length] in Hf.
  destruct (dict_get na s) as [row|].
  - destruct (for_each (map fst row) release (count, stack)) as [cs|e] eqn:Hrel; [|eauto].
    apply IH. destruct (release_loop_pending _ _ _ Hrel) as [Hp _].
    cbn [fst snd] in Hp. rewrite Hp. unfold pending. lia.
  - apply IH. unfold pending. lia.
Qed.

Lemma topo_sort_loop_no_arcs fuel : forall count stack order,
  length stack < fuel ->
  topo_sort_loop fuel [] count stack order = Some (order ++ stack, Ok tt).
Proof.
  induction fuel as [|fuel IH]; intros count stack order Hf; [lia|].
  cbn [topo_sort_loop]. destruct stack as [|s stack].
  - now rewrite app_nil_r.
  - cbn [dict_get]. cbn [length] in Hf. rewrite IH by lia.
    now rewrite <- app_assoc.
Qed.

Lemma filter_all {A : Type} (f : A -> bool) (l : list A) :
  (forall x, In x l -> f x = true) -> List.filter f l = l.
Proof.
  induction l as [|a l IH]; intros H; [reflexivity|]. cbn [List.filter].
  rewrite (H a) by (left; reflexivity). f_equal. apply IH. intros x Hx. apply H. now right.
Qed.

Lemma filter_none {A : Type} (f : A -> bool) (l : list A) :
  (forall x, In x l -> f x = false) -> List.filter f l = [].
Proof.
  induction l as [|a l IH]; intros H; [reflexivity|]. cbn [List.filter].
  rewrite (H a) by (left; reflexivity). apply IH. intros x Hx. apply H. now right.
Qed.

(** What [init_null_arcs] does, with the null arcs it is left with. *)
Lemma init_null_arcs_unfold arg self :
  let s1 := match arg with Some na => set_null_arcs na self | None => self end in
  let n := num_states self in
  let count := count_null_arcs_into n (null_arcs s1) in
  let stack := rev (List.filter (fun s => Z.eqb (nth s count 0%Z) 0) (seq 0 n)) in
  exists order r,
    topo_sort_loop (S (pending count stack)) (null_arcs s1) count stack (topo_order self)
      = Some (order, r) /\
    self_after (init_null_arcs arg self) = set_topo_order order s1 /\
    returned (init_null_arcs arg self) =
      match r with
      | Raise e => Raise e
      | Ok _ => assert (Nat.eqb (length order) n)
      end.
Proof.
  intros s1 n count stack.
  destruct (topo_sort_loop_ends (null_arcs s1) (S (pending count stack)) count stack
              (topo_order self) ltac:(lia)) as [[order r] Hrun].
  exists order, r. split; [exact Hrun|].
  assert (H : init_null_arcs arg self =
              (let r0 := topo_sort_loop (S (pending count stack)) (null_arcs s1) count stack
                           (topo_order s1) in
               match r0 with
               | None => ret tt
               | Some (order, r) =>
                   _ <~ modify (set_topo_order order) ;;
                   _ <~ lift r ;;
                   lift (assert (Nat.eqb (length order) n))
               end) s1).
  { unfold init_null_arcs. subst s1 count stack n. destruct arg as [na|].
    - rewrite mbind_modify, mbind_get_self. reflexivity.
    - unfold mbind at 1. cbn [ret returned self_after printed].
      rewrite mbind_get_self.
      destruct (topo_sort_loop _ _ _ _ _) as [[o r']|]; [|reflexivity].
      destruct (mbind _ _ self); reflexivity. }
  rewrite H. cbv zeta.
  replace (topo_order s1) with (topo_order self) by (subst s1; destruct arg; reflexivity).
  rewrite Hrun. rewrite mbind_modify.
  destruct r as [[]|e].
  - rewrite mbind_lift_Ok. split; reflexivity.
  - rewrite mbind_lift_Raise. split; reflexivity.
Qed.

Lemma init_null_arcs_no_arcs :
  forall self arg,
    match arg with Some na => na | None => null_arcs self end = [] ->
    let o := init_null_arcs arg self in
    topo_order (self_after o) = topo_order self ++ rev (seq 0 (num_states self)) /\
    returned o = if decide (topo_order self = []) then Ok tt else Raise AssertionError.
Proof.
  intros self arg Hna o. subst o.
  destruct (init_null_arcs_unfold arg self) as (order & r & Hrun & Hself & Hret).
  cbv zeta in Hrun.
  assert (Hnull : null_arcs match arg with
                            | Some na => set_null_arcs na self
                            | None => self
                            end = []) by (destruct arg; exact Hna).
  rewrite Hnull in Hrun.
  assert (Hcount : count_null_arcs_into (num_states self) [] =
                   replicate (num_states self) 0%Z) by reflexivity.
  rewrite Hcount in Hrun.
  rewrite (filter_all _ (seq 0 (num_states self))) in Hrun.
  2:{ intros x Hx. apply in_seq in Hx. rewrite (nth_lookup _ x).
      rewrite lookup_replicate_2 by lia. reflexivity. }
  rewrite topo_sort_loop_no_arcs in Hrun by (unfold pending; lia).
  injection Hrun as <- <-.
  rewrite Hself, Hret. cbn [topo_order set_topo_order]. split; [reflexivity|].
  rewrite length_app, length_rev, length_seq.
  destruct (topo_order self) as [|x l].
  - rewrite decide_True by reflexivity. cbn [length Nat.add]. rewrite Nat.eqb_refl.
    reflexivity.
  - rewrite decide_False by discriminate.
    destruct (Nat.eqb_spec (length (x :: l) + num_states self) (num_states self)) as [He|He];
      [cbn [length] in He; lia | reflexivity].
Qed.

(** X7.  For a model left without null arcs, [init_null_arcs] appends the
    states in descending order, [num_states - 1, ..., 0], to the
    [topo_order] it finds (it does not clear it); it returns normally when
    [topo_order] was empty and fails its assertion otherwise. *)
Theorem init_null_arcs_without_null_arcs :
  forall self arg,
    match arg with Some na => na | None => null_arcs self end = [] ->
    let o := init_null_arcs arg self in
    topo_order (self_after o) = topo_order self ++ rev (seq 0 (num_states self)) /\
    returned o = if decide (topo_order self = []) then Ok tt else Raise AssertionError.
Proof. exact init_null_arcs_no_arcs. Qed.

Lemma init_null_arcs_without_null_arcs_witness :
  let o := init_null_arcs None unit_model in
  topo_order (self_after o) = topo_order unit_model ++ rev (seq 0 (num_states unit_model)) /\
  returned o = if decide (topo_order unit_model = []) then Ok tt else Raise AssertionError.
Proof.
  apply (init_null_arcs_without_null_arcs unit_model None). reflexivity.
Defined.

(** X8.  The order [init_null_arcs] gives a fresh model without null arcs is
    rejected by [check_topological_order] with the message for gaps or
    repetitions as soon as the model has two states or more, because it is
    descending; it is accepted for a model of at most one state. *)
Theorem init_null_arcs_order_fails_check :
  forall self arg,
    match arg with Some na => na | None => null_arcs self end = [] ->
    topo_order self = [] ->
    let o := init_null_arcs arg self in
    let verdict := check_topological_order (map Z.of_nat (topo_order (self_after o)))
                     (Z.of_nat (num_states self)) in
    returned o = Ok tt /\
    (2 <= num_states self -> verdict = (false, GapsOrRepetitions)) /\
    (num_states self <= 1 -> verdict = (true, ValidOrder)).
Proof.
  intros self arg Hna Hfresh o verdict. subst verdict o.
  destruct (init_null_arcs_no_arcs self arg Hna) as [Horder Hret].
  rewrite Horder, Hret, Hfresh. rewrite decide_True by reflexivity.
  split; [reflexivity|]. cbn [app]. split.
  - intros Hn. destruct (num_states self) as [|[|k]]; [lia | lia |].
    rewrite !seq_S, !rev_app_distr. cbn [rev app map Nat.add].
    unfold check_topological_order. cbn [check_order_loop].
    rewrite bool_decide_eq_false_2 by apply not_elem_of_empty.
    destruct (Z.eqb_spec (Z.of_nat k) (Z.of_nat (S k) + 1)); [lia | reflexivity].
  - intros Hn. destruct (num_states self) as [|[|k]]; [| | lia].
    + reflexivity.
    + vm_compute. reflexivity.
Qed.

Lemma init_null_arcs_order_fails_check_witness :
  let o := init_null_arcs None (new_HMM 3 1 (zeros2 3 3) (Emis2 [zeros 3])) in
  let verdict := check_topological_order (map Z.of_nat (topo_order (self_after o))) 3 in
  returned o = Ok tt /\
  (2 <= 3 -> verdict = (false, GapsOrRepetitions)) /\
  (3 <= 1 -> verdict = (true, ValidOrder)).
Proof.
  apply (init_null_arcs_order_fails_check (new_HMM 3 1 (zeros2 3 3) (Emis2 [zeros 3])) None);
    reflexivity.
Defined.

(** *** The arcs of a dictionary of dictionaries *)

Lemma arcs_of_cons {V : Type} (k : nat) (row : dict V) (d : dict (dict V)) :
  arcs_of ((k, row) :: d) = map (fun '(iy, _) => (k, iy)) row ++ arcs_of d.
Proof. reflexivity. Qed.

Lemma elem_of_row_arcs {V : Type} (k : nat) (row : dict V) (s d : nat) :
  (s, d) ∈ map (fun '(iy, _) => (k, iy)) row <-> s = k /\ d ∈ map fst row.
Proof.
  induction row as [|[iy v] row IH]; cbn [map].
  - split; [intros H; inversion H | intros [_ H]; inversion H].
  - rewrite !elem_of_cons, IH. cbn [fst]. split.
    + intros [H|[-> H]]; [injection H as -> ->|]; auto.
    + intros [-> [->|H]]; auto.
Qed.

Lemma elem_of_arcs_of {V : Type} (na : dict (dict V)) s d :
  (s, d) ∈ arcs_of na <-> exists row, (s, row) ∈ na /\ d ∈ map fst row.
Proof.
  induction na as [|[k row] na IH].
  - split; [intros H; inversion H | intros (row & H & _); inversion H].
  - rewrite arcs_of_cons, elem_of_app, elem_of_row_arcs, IH. split.
    + intros [[-> H]|(row' & H1 & H2)].
      * exists row. split; [left | exact H].
      * exists row'. split; [right; exact H1 | exact H2].
    + intros (row' & H1 & H2). apply elem_of_cons in H1. destruct H1 as [H1|H1].
      * injection H1 as -> ->. left. auto.
      * right. eauto.
Qed.

Lemma dict_get_Some_elem {V : Type} (na : dict V) s v :
  dict_get na s = Some v -> (s, v) ∈ na.
Proof.
  induction na as [|[k v'] na IH]; [discriminate|]. cbn [dict_get].
  destruct (Nat.eqb_spec k s) as [->|Hne]; intros H.
  - injection H as ->. left.
  - right. exact (IH H).
Qed.

Lemma dict_get_None_key {V : Type} (na : dict V) s v :
  dict_get na s = None -> (s, v) ∉ na.
Proof.
  induction na as [|[k v'] na IH]; intros H Hin; [inversion Hin|].
  cbn [dict_get] in H. destruct (Nat.eqb_spec k s) as [->|Hne]; [discriminate|].
  apply elem_of_cons in Hin. destruct Hin as [Heq|Hin]; [congruence|].
  exact (IH H Hin).
Qed.

Lemma dict_get_unique {V : Type} (na : dict V) s v :
  NoDup (map fst na) -> (s, v) ∈ na -> dict_get na s = Some v.
Proof.
  induction na as [|[k v'] na IH]; intros Hnd Hin; [inversion Hin|].
  cbn [map fst] in Hnd. apply NoDup_cons in Hnd. destruct Hnd as [Hk Hnd].
  cbn [dict_get]. apply elem_of_cons in Hin. destruct Hin as [Heq|Hin].
  - injection Heq as -> ->. now rewrite Nat.eqb_refl.
  - destruct (Nat.eqb_spec k s) as [->|Hne]; [|exact (IH Hnd Hin)].
    exfalso. apply Hk. change (map fst na) with (fst <$> na).
    apply list_elem_of_fmap. exists (s, v). split; [reflexivity | exact Hin].
Qed.

Lemma keys_distinct_inv na :
  keys_distinct na = true ->
  NoDup (map fst na) /\ forall s row, (s, row) ∈ na -> NoDup (map fst row).
Proof.
  unfold keys_distinct. intros H. apply andb_true_iff in H. destruct H as [H1 H2].
  apply bool_decide_eq_true in H1. split; [exact H1|].
  intros s row Hin. rewrite forallb_forall in H2.
  specialize (H2 (s, row) (proj1 (list_elem_of_In _ _) Hin)).
  now apply bool_decide_eq_true in H2.
Qed.

(** An arc is a destination in the row of its origin. *)
Lemma elem_of_arcs_dests na s d :
  keys_distinct na = true -> ((s, d) ∈ arcs_of na <-> d ∈ dests_of na s).
Proof.
  intros Hk. destruct (keys_distinct_inv na Hk) as [Hnd _].
  rewrite elem_of_arcs_of. unfold dests_of. split.
  - intros (row & Hin & Hd). now rewrite (dict_get_unique na s row Hnd Hin).
  - destruct (dict_get na s) as [row|] eqn:Hrow; [|intros H; inversion H].
    intros Hd. exists row. split; [exact (dict_get_Some_elem _ _ _ Hrow) | exact Hd].
Qed.

Lemma NoDup_dests_of na s : keys_distinct na = true -> NoDup (dests_of na s).
Proof.
  intros Hk. destruct (keys_distinct_inv na Hk) as [_ Hrows].
  unfold dests_of. destruct (dict_get na s) as [row|] eqn:Hrow; [|constructor].
  exact (Hrows s row (dict_get_Some_elem _ _ _ Hrow)).
Qed.

Lemma NoDup_row_arcs {V : Type} (k : nat) (row : dict V) :
  NoDup (map fst row) -> NoDup (map (fun '(iy, _) => (k, iy)) row).
Proof.
  induction row as [|[iy v] row IH]; intros H; [constructor|].
  cbn [map fst] in H |- *. apply NoDup_cons in H. destruct H as [Hiy H].
  apply NoDup_cons. split; [|exact (IH H)].
  intros Hin. apply elem_of_row_arcs in Hin. destruct Hin as [_ Hin]. contradiction.
Qed.

Lemma NoDup_arcs_of na : keys_distinct na = true -> NoDup (arcs_of na).
Proof.
  intros Hk. destruct (keys_distinct_inv na Hk) as [Hnd Hrows]. clear Hk.
  induction na as [|[k row] na IH]; [constructor|].
  cbn [map fst] in Hnd. apply NoDup_cons in Hnd. destruct Hnd as [Hk Hnd].
  rewrite arcs_of_cons. apply NoDup_app. split; [|split].
  - apply NoDup_row_arcs. apply (Hrows k row). left.
  - intros [s d] H1 H2. apply elem_of_row_arcs in H1. destruct H1 as [-> _].
    apply elem_of_arcs_of in H2. destruct H2 as (row' & Hin & _).
    apply Hk. change (map fst na) with (fst <$> na).
    apply list_elem_of_fmap. exists (k, row'). split; [reflexivity | exact Hin].
  - apply IH; [exact Hnd|]. intros s row' Hin. apply (Hrows s row'). now right.
Qed.

(** *** Counting arcs *)

Lemma filter_split_one {X : Type} `{EqDecision X} (P Q : X -> Prop)
    `{!forall x, Decision (P x)} `{!forall x, Decision (Q x)} (a : X) (l : list X) :
  NoDup l -> (forall x, Q x <-> P x /\ x <> a) -> P a ->
  length (filter P l) = length (filter Q l) + (if decide (a ∈ l) then 1 else 0).
Proof.
  intros Hnd HQ HPa. induction l as [|x l IH].
  - rewrite decide_False by (intros Hc; inversion Hc). reflexivity.
  - apply NoDup_cons in Hnd. destruct Hnd as [Hx Hnd]. specialize (IH Hnd).
    destruct (decide (x = a)) as [->|Hne].
    + rewrite filter_cons_True by exact HPa.
      rewrite filter_cons_False by (rewrite HQ; tauto).
      rewrite decide_True by left. rewrite decide_False in IH by exact Hx.
      cbn [length]. lia.
    + destruct (decide (P x)) as [HP|HP].
      * rewrite (filter_cons_True P) by exact HP.
        rewrite (filter_cons_True Q) by (rewrite HQ; tauto).
        cbn [length]. rewrite IH.
        destruct (decide (a ∈ l)) as [Hin|Hin].
        -- rewrite decide_True by (right; exact Hin). lia.
        -- rewrite decide_False; [lia|]. intros Hc. apply elem_of_cons in Hc.
           destruct Hc; [congruence | contradiction].
      * rewrite (filter_cons_False P) by exact HP.
        rewrite (filter_cons_False Q) by (rewrite HQ; tauto).
        rewrite IH.
        destruct (decide (a ∈ l)) as [Hin|Hin].
        -- rewrite decide_True by (right; exact Hin). lia.
        -- rewrite decide_False; [lia|]. intros Hc. apply elem_of_cons in Hc.
           destruct Hc; [congruence | contradiction].
Qed.

(** Visiting [s] takes its arcs out of the in-degrees. *)
Lemma indegree_snoc na visited s d :
  keys_distinct na = true -> s ∉ visited ->
  indegree na visited d =
  indegree na (visited ++ [s]) d + (if decide (d ∈ dests_of na s) then 1 else 0).
Proof.
  intros Hk Hs. unfold indegree.
  rewrite (filter_split_one
             (fun a : nat * nat => snd a = d /\ fst a ∉ visited)
             (fun a : nat * nat => snd a = d /\ fst a ∉ visited ++ [s])
             (s, d) (arcs_of na) (NoDup_arcs_of na Hk)).
  - destruct (decide ((s, d) ∈ arcs_of na)) as [Hin|Hin].
    + rewrite decide_True by (apply (elem_of_arcs_dests na s d Hk); exact Hin). reflexivity.
    + rewrite decide_False; [reflexivity|].
      intros H. apply Hin. apply (elem_of_arcs_dests na s d Hk). exact H.
  - intros [x y]. cbn [fst snd]. rewrite not_elem_of_app, list_elem_of_singleton.
    split.
    + intros (-> & Hx & Hne). split; [auto|]. congruence.
    + intros ((-> & Hx) & Hne). split; [reflexivity|]. split; [exact Hx|]. congruence.
  - cbn [fst snd]. auto.
Qed.

Lemma indegree_zero na visited d :
  indegree na visited d = 0 -> forall s, (s, d) ∈ arcs_of na -> s ∈ visited.
Proof.
  unfold indegree. intros H s Hin.
  destruct (decide (s ∈ visited)) as [Hs|Hs]; [exact Hs|]. exfalso.
  assert (Hf : (s, d) ∈ filter (fun a : nat * nat => snd a = d /\ fst a ∉ visited)
                 (arcs_of na)).
  { apply list_elem_of_filter. cbn [fst snd]. auto. }
  destruct (filter _ (arcs_of na)); [inversion Hf | discriminate].
Qed.

(** The in-degrees as the first loops count them. *)
Lemma count_fold n (l : list (nat * nat)) : forall count,
  length
    (fold_left (fun count '(_, iy) => if Nat.ltb iy n then alter Z.succ iy count else count)
       l count) = length count /\
  forall d z, d < n -> count !! d = Some z ->
    fold_left (fun count '(_, iy) => if Nat.ltb iy n then alter Z.succ iy count else count)
      l count !! d =
    Some (z + Z.of_nat (length (filter (fun a : nat * nat => snd a = d) l)))%Z.
Proof.
  induction l as [|[ix iy] l IH]; intros count.
  - split; [reflexivity|]. intros d z _ Hd. cbn. rewrite Hd. f_equal. lia.
  - cbn [fold_left].
    destruct (IH (if Nat.ltb iy n then alter Z.succ iy count else count)) as [IHl IHd].
    split.
    + rewrite IHl. destruct (Nat.ltb iy n); [apply length_alter | reflexivity].
    + intros d z Hdn Hd. destruct (decide (iy = d)) as [->|Hne].
      * rewrite filter_cons_True by reflexivity.
        rewrite (proj2 (Nat.ltb_lt d n) Hdn) in IHd |- *.
        rewrite (IHd d (Z.succ z) Hdn)
          by (rewrite list_lookup_alter_eq, Hd; reflexivity).
        f_equal. cbn [length]. lia.
      * rewrite filter_cons_False by (cbn [snd]; exact Hne).
        apply (IHd d z Hdn).
        destruct (Nat.ltb iy n); [|exact Hd].
        rewrite list_lookup_alter_ne by exact Hne. exact Hd.
Qed.

Lemma count_null_arcs_into_spec n na :
  length (count_null_arcs_into n na) = n /\
  forall d, d < n ->
    count_null_arcs_into n na !! d = Some (Z.of_nat (indegree na [] d)).
Proof.
  unfold count_null_arcs_into.
  destruct (count_fold n (arcs_of na) (replicate n 0%Z)) as [Hl Hd].
  split; [rewrite Hl; apply length_replicate|].
  intros d Hdn. rewrite (Hd d 0%Z Hdn) by (apply lookup_replicate_2; exact Hdn).
  f_equal. unfold indegree. rewrite Z.add_0_l. do 2 f_equal.
  apply list_filter_iff. intros [x y]. cbn [fst snd]. split; [|tauto].
  intros ->. split; [reflexivity|]. intros H. inversion H.
Qed.

(** *** The loop keeps its invariant *)

Lemma sort_inv_release na n d waiting count stack order cs' :
  sort_inv na n (d :: waiting) count stack order ->
  d ∉ waiting ->
  release d (count, stack) = Ok cs' ->
  sort_inv na n waiting (fst cs') (snd cs') order.
Proof.
  intros (Hlen & Hcount & Hnd & Hin & Hord & Hrange) Hd H.
  unfold release in H. cbn [fst snd] in H.
  apply bind_Ok in H. destruct H as (v & Hv & H).
  apply index_Ok in Hv. injection H as <-. cbn [fst snd].
  pose proof (lookup_lt_Some _ _ _ Hv) as Hdn. rewrite Hlen in Hdn.
  pose proof (Hcount d Hdn) as Hcd. rewrite decide_True in Hcd by left.
  rewrite Hv in Hcd. injection Hcd as Hv'.
  assert (Hv1 : (v - 1)%Z = Z.of_nat (indegree na order d)) by lia.
  refine (conj _ (conj _ (conj _ (conj _ (conj Hord _))))).
  - rewrite length_insert. exact Hlen.
  - intros x Hx. destruct (decide (x = d)) as [->|Hne].
    + rewrite list_lookup_insert_eq by lia. rewrite decide_False by exact Hd.
      f_equal. lia.
    + rewrite list_lookup_insert_ne by congruence. rewrite (Hcount x Hx).
      destruct (decide (x ∈ d :: waiting)) as [H1|H1], (decide (x ∈ waiting)) as [H2|H2];
        try reflexivity.
      * exfalso. apply elem_of_cons in H1. destruct H1; [congruence | contradiction].
      * exfalso. apply H1. now right.
  - destruct (Z.eqb_spec (v - 1) 0); [|exact Hnd].
    apply NoDup_app in Hnd. destruct Hnd as (Ho & Hdisj & Hs).
    apply NoDup_app. split; [exact Ho|]. split.
    + intros x Hx Hx'. apply elem_of_cons in Hx'. destruct Hx' as [->|Hx'].
      * destruct (Hin d) as (_ & _ & Hnot); [apply elem_of_app; now left|].
        apply Hnot. left.
      * exact (Hdisj x Hx Hx').
    + apply NoDup_cons. split; [|exact Hs].
      intros Hds. destruct (Hin d) as (_ & _ & Hnot); [apply elem_of_app; now right|].
      apply Hnot. left.
  - intros x Hx.
    assert (Hcases : x ∈ order ++ stack \/ (x = d /\ (v - 1 = 0)%Z)).
    { destruct (Z.eqb_spec (v - 1) 0) as [He|He]; [|now left].
      apply elem_of_app in Hx. destruct Hx as [Hx|Hx].
      - left. apply elem_of_app. now left.
      - apply elem_of_cons in Hx. destruct Hx as [->|Hx]; [now right|].
        left. apply elem_of_app. now right. }
    destruct Hcases as [Hold|[-> He]].
    + destruct (Hin x Hold) as (H1 & H2 & H3). split; [exact H1|]. split; [exact H2|].
      intros H4. apply H3. now right.
    + split; [exact Hdn|]. split; [lia | exact Hd].
  - intros s d0 Hs Hd0 Harc. destruct (decide (d0 = d)) as [->|Hne]; [exact Hdn|].
    apply (Hrange s d0 Hs); [|exact Harc].
    intros H. apply elem_of_cons in H. destruct H; [congruence | contradiction].
Qed.

Lemma sort_inv_release_all na n order : forall waiting count stack cs',
  NoDup waiting ->
  sort_inv na n waiting count stack order ->
  for_each waiting release (count, stack) = Ok cs' ->
  sort_inv na n [] (fst cs') (snd cs') order.
Proof.
  induction waiting as [|d waiting IH]; intros count stack cs' Hnd Hinv H.
  - injection H as <-. exact Hinv.
  - apply NoDup_cons in Hnd. destruct Hnd as [Hd Hnd].
    rewrite for_each_cons in H. apply bind_Ok in H. destruct H as (cs1 & H1 & H2).
    pose proof (sort_inv_release _ _ _ _ _ _ _ _ Hinv Hd H1) as Hinv1.
    destruct cs1 as [count1 stack1]. exact (IH count1 stack1 cs' Hnd Hinv1 H2).
Qed.

Lemma sort_inv_pop na n count s stack order :
  keys_distinct na = true ->
  sort_inv na n [] count (s :: stack) order ->
  sort_inv na n (dests_of na s) count stack (order ++ [s]).
Proof.
  intros Hk (Hlen & Hcount & Hnd & Hin & Hord & Hrange).
  assert (Hs : s ∉ order).
  { intros Hs. apply NoDup_app in Hnd. destruct Hnd as (_ & Hdisj & _).
    apply (Hdisj s Hs). left. }
  assert (Hsin : s ∈ order ++ s :: stack) by (apply elem_of_app; right; left).
  refine (conj Hlen (conj _ (conj _ (conj _ (conj _ _))))).
  - intros d Hd. rewrite (Hcount d Hd).
    rewrite decide_False by (intros H; inversion H).
    rewrite (indegree_snoc na order s d Hk Hs). f_equal. f_equal. lia.
  - rewrite <- app_assoc. exact Hnd.
  - intros x Hx. rewrite <- app_assoc in Hx. destruct (Hin x Hx) as (H1 & H2 & _).
    rewrite (indegree_snoc na order s x Hk Hs) in H2.
    split; [exact H1|]. split; [lia|].
    intros Hd. rewrite decide_True in H2 by exact Hd. lia.
  - intros j d s0 Hj Harc. destruct (decide (j < length order)) as [Hlt|Hge].
    + rewrite lookup_app_l in Hj by exact Hlt. rewrite take_app_le by lia.
      exact (Hord j d s0 Hj Harc).
    + rewrite lookup_app_r in Hj by lia.
      destruct (j - length order) as [|k] eqn:Hk0; [|destruct k; discriminate].
      injection Hj as <-. assert (j = length order) by lia. subst j.
      rewrite take_app_length.
      destruct (Hin s Hsin) as (_ & Hz & _). exact (indegree_zero na order s Hz s0 Harc).
  - intros s0 d Hs0 Hd Harc. apply elem_of_app in Hs0. destruct Hs0 as [Hs0|Hs0].
    + apply (Hrange s0 d Hs0); [intros H; inversion H | exact Harc].
    + apply list_elem_of_singleton in Hs0. subst s0.
      exfalso. apply Hd. apply (elem_of_arcs_dests na s d Hk). exact Harc.
Qed.

Lemma topo_sort_loop_inv na n fuel :
  keys_distinct na = true ->
  forall count stack order order',
    sort_inv na n [] count stack order ->
    topo_sort_loop fuel na count stack order = Some (order', Ok tt) ->
    exists count', sort_inv na n [] count' [] order'.
Proof.
  intros Hk. induction fuel as [|fuel IH]; intros count stack order order' Hinv H;
    [discriminate|].
  cbn [topo_sort_loop] in H. destruct stack as [|s stack].
  - injection H as <-. eauto.
  - pose proof (sort_inv_pop na n count s stack order Hk Hinv) as Hpop.
    pose proof (NoDup_dests_of na s Hk) as Hnd.
    unfold dests_of in Hpop, Hnd.
    destruct (dict_get na s) as [row|].
    + destruct (for_each (map fst row) release (count, stack)) as [cs|e] eqn:Hrel;
        [|discriminate].
      apply (IH (fst cs) (snd cs) (order ++ [s]) order'); [|exact H].
      exact (sort_inv_release_all na n _ _ _ _ _ Hnd Hpop Hrel).
    + exact (IH count stack (order ++ [s]) order' Hpop H).
Qed.

Lemma sort_inv_start na n :
  let count := count_null_arcs_into n na in
  sort_inv na n [] count
    (rev (List.filter (fun s => Z.eqb (nth s count 0%Z) 0) (seq 0 n))) [].
Proof.
  intros count. destruct (count_null_arcs_into_spec n na) as [Hlen Hcount].
  fold count in Hlen, Hcount.
  refine (conj Hlen (conj _ (conj _ (conj _ (conj _ _))))).
  - intros d Hd. rewrite (Hcount d Hd).
    rewrite decide_False by (intros H; inversion H). f_equal. f_equal. lia.
  - cbn [app]. apply NoDup_ListNoDup, List.NoDup_rev, List.NoDup_filter, List.seq_NoDup.
  - intros x Hx. cbn [app] in Hx. apply list_elem_of_In in Hx.
    apply in_rev, filter_In in Hx. destruct Hx as [Hx Hz].
    apply in_seq in Hx. assert (Hxn : x < n) by lia.
    split; [exact Hxn|]. split; [|intros H; inversion H].
    rewrite (nth_lookup _ x), (Hcount x Hxn) in Hz. cbn in Hz.
    apply Z.eqb_eq in Hz. lia.
  - intros j d s H. discriminate H.
  - intros s d H. inversion H.
Qed.

Lemma init_null_arcs_sorted :
  forall self arg,
    let na := match arg with Some na => na | None => null_arcs self end in
    let n := num_states self in
    keys_distinct na = true ->
    topo_order self = [] ->
    let o := init_null_arcs arg self in
    returned o = Ok tt ->
    topo_order (self_after o) ≡ₚ seq 0 n /\
    forall s d, (s, d) ∈ arcs_of na -> s < n \/ d < n ->
      s < n /\ d < n /\ comes_before (topo_order (self_after o)) s d.
Proof.
  intros self arg na n Hk Hfresh o Hret. subst o.
  destruct (init_null_arcs_unfold arg self) as (order & r & Hrun & Hself & Hr).
  cbv zeta in Hrun.
  assert (Hna : null_arcs match arg with
                          | Some na => set_null_arcs na self
                          | None => self
                          end = na) by (subst na; destruct arg; reflexivity).
  rewrite Hna in Hrun. fold n in Hrun. rewrite Hfresh in Hrun.
  rewrite Hr in Hret. rewrite Hself. cbn [topo_order set_topo_order].
  destruct r as [[]|e]; [|discriminate].
  fold n in Hret. unfold assert in Hret.
  destruct (Nat.eqb_spec (length order) n) as [Hlen|]; [|discriminate].
  destruct (topo_sort_loop_inv na n _ Hk _ _ _ _ (sort_inv_start na n) Hrun)
    as (count' & _ & _ & Hnd & Hin & Hord & Hrange).
  rewrite app_nil_r in Hnd, Hin.
  assert (Hperm : order ≡ₚ seq 0 n).
  { apply submseteq_length_Permutation; [|rewrite length_seq; lia].
    apply NoDup_submseteq; [exact Hnd|].
    intros x Hx. apply elem_of_seq. destruct (Hin x Hx). lia. }
  split; [exact Hperm|].
  assert (Hdest : forall s d, (s, d) ∈ arcs_of na -> d < n ->
            s < n /\ d < n /\ comes_before order s d).
  { intros s d Harc Hd.
    assert (Hdin : d ∈ order) by (rewrite Hperm; apply elem_of_seq; lia).
    apply list_elem_of_lookup in Hdin. destruct Hdin as [j Hj].
    pose proof (Hord j d s Hj Harc) as Hs.
    apply elem_of_take in Hs. destruct Hs as (i & Hi & Hij).
    split; [|split; [exact Hd|]].
    - destruct (Hin s (list_elem_of_lookup_2 _ _ _ Hi)). assumption.
    - exists i, j. auto. }
  intros s d Harc [Hs|Hd]; [|exact (Hdest s d Harc Hd)].
  apply (Hdest s d Harc).
  apply (Hrange s d); [|intros H; inversion H | exact Harc].
  rewrite Hperm. apply elem_of_seq. lia.
Qed.

(** X9.  When [init_null_arcs] returns normally on a model whose
    [topo_order] was empty (the keys of the dictionary of null arcs being
    distinct, as in a Python [dict]), [topo_order] holds every state of the
    model exactly once, and every null arc that touches a state of the model
    joins two states of the model and has its origin before its destination
    in [topo_order]. *)
Theorem init_null_arcs_sorts_topologically :
  forall self arg,
    let na := match arg with Some na => na | None => null_arcs self end in
    let n := num_states self in
    keys_distinct na = true ->
    topo_order self = [] ->
    let o := init_null_arcs arg self in
    returned o = Ok tt ->
    topo_order (self_after o) ≡ₚ seq 0 n /\
    forall s d, (s, d) ∈ arcs_of na -> s < n \/ d < n ->
      s < n /\ d < n /\ comes_before (topo_order (self_after o)) s d.
Proof. exact init_null_arcs_sorted. Qed.

Lemma init_null_arcs_sorts_topologically_witness :
  let self := new_HMM 3 1 (zeros2 3 3) (Emis2 [zeros 3]) in
  let na := [(2, [(0, f0_5)]); (0, [(1, f0_5)])] in
  let o := init_null_arcs (Some na) self in
  returned o = Ok tt /\
  topo_order (self_after o) = [2; 0; 1] /\
  topo_order (self_after o) ≡ₚ seq 0 3 /\
  forall s d, (s, d) ∈ arcs_of na -> s < 3 \/ d < 3 ->
    s < 3 /\ d < 3 /\ comes_before (topo_order (self_after o)) s d.
Proof.
  split; [vm_compute; reflexivity|]. split; [vm_compute; reflexivity|].
  apply (init_null_arcs_sorts_topologically
           (new_HMM 3 1 (zeros2 3 3) (Emis2 [zeros 3]))
           (Some [(2, [(0, f0_5)]); (0, [(1, f0_5)])])).
  - vm_compute. reflexivity.
  - reflexivity.
  - vm_compute. reflexivity.
Defined.

(** *** Cycles *)

Lemma release_all_Ok n ds : forall cs,
  length (fst cs) = n ->
  (forall d, In d ds -> d < n) ->
  exists cs', for_each ds release cs = Ok cs' /\ length (fst cs') = n.
Proof.
  intros cs Hlen Hds.
  apply (for_each_invariant (fun cs : list Z * list nat => length (fst cs) = n));
    [|exact Hlen].
  intros d cs0 Hd Hl. unfold release, index.
  destruct (lookup_lt_is_Some_2 (fst cs0) d) as [v Hv]; [rewrite Hl; auto|].
  rewrite Hv. cbn [bind]. eexists. split; [reflexivity|].
  cbn [fst]. rewrite length_insert. exact Hl.
Qed.

(** With every null arc in range the loop raises nothing. *)
Lemma topo_sort_loop_in_range na n fuel :
  arcs_in_range na n = true ->
  forall count stack order order' r,
    length count = n ->
    topo_sort_loop fuel na count stack order = Some (order', r) ->
    r = Ok tt.
Proof.
  intros Hrange. unfold arcs_in_range in Hrange. rewrite forallb_forall in Hrange.
  induction fuel as [|fuel IH]; intros count stack order order' r Hlen H; [discriminate|].
  cbn [topo_sort_loop] in H. destruct stack as [|s stack].
  - injection H as _ <-. reflexivity.
  - destruct (dict_get na s) as [row|] eqn:Hrow.
    + destruct (release_all_Ok n (map fst row) (count, stack) Hlen) as (cs & Hcs & Hl).
      { intros d Hd.
        assert (Harc : (s, d) ∈ arcs_of na).
        { apply elem_of_arcs_of. exists row. split.
          - exact (dict_get_Some_elem _ _ _ Hrow).
          - apply list_elem_of_In. exact Hd. }
        specialize (Hrange (s, d) (proj1 (list_elem_of_In _ _) Harc)).
        cbn [fst snd] in Hrange. apply andb_true_iff in Hrange.
        destruct Hrange as [_ Hd']. apply Nat.ltb_lt. exact Hd'. }
      rewrite Hcs in H. exact (IH _ _ _ _ _ Hl H).
    + exact (IH _ _ _ _ _ Hlen H).
Qed.

Lemma comes_before_path na order :
  NoDup order ->
  (forall s d, null_arc na s d -> comes_before order s d) ->
  forall s d, tc (null_arc na) s d -> comes_before order s d.
Proof.
  intros Hnd Harc s d Hpath. induction Hpath as [s d H|s m d H _ IH].
  - exact (Harc s d H).
  - destruct (Harc s m H) as (i & j & Hi & Hj & Hij).
    destruct IH as (j' & k & Hj' & Hk & Hjk).
    assert (j = j') by (eapply NoDup_lookup; eauto). subst j'.
    exists i, k. split; [exact Hi|]. split; [exact Hk | lia].
Qed.

(** X10.  When the null arcs, all of them between states of the model,
    contain a cycle, [init_null_arcs] on a model with an empty [topo_order]
    fails its assertion: it raises [AssertionError]. *)
Theorem init_null_arcs_rejects_cycles :
  forall self arg,
    let na := match arg with Some na => na | None => null_arcs self end in
    keys_distinct na = true ->
    arcs_in_range na (num_states self) = true ->
    topo_order self = [] ->
    (exists s, tc (null_arc na) s s) ->
    returned (init_null_arcs arg self) = Raise AssertionError.
Proof.
  intros self arg na Hk Hrange Hfresh (s & Hcycle).
  destruct (init_null_arcs_unfold arg self) as (order & r & Hrun & Hself & Hr).
  cbv zeta in Hrun.
  assert (Hna : null_arcs match arg with
                          | Some na => set_null_arcs na self
                          | None => self
                          end = na) by (subst na; destruct arg; reflexivity).
  rewrite Hna in Hrun.
  pose proof (topo_sort_loop_in_range na (num_states self) _ Hrange _ _ _ _ _
                (proj1 (count_null_arcs_into_spec _ _)) Hrun) as ->.
  destruct (Nat.eqb (length order) (num_states self)) eqn:Hlen;
    [|rewrite Hr; reflexivity].
  exfalso.
  assert (Hret : returned (init_null_arcs arg self) = Ok tt) by (rewrite Hr; reflexivity).
  destruct (init_null_arcs_sorted self arg Hk Hfresh Hret) as [Hperm Harcs].
  fold na in Harcs.
  assert (Hnd : NoDup (topo_order (self_after (init_null_arcs arg self)))).
  { rewrite Hperm. apply NoDup_seq. }
  assert (Hbefore : forall a b, null_arc na a b ->
            comes_before (topo_order (self_after (init_null_arcs arg self))) a b).
  { intros a b Hab. apply Harcs; [exact Hab|]. left.
    unfold arcs_in_range in Hrange. rewrite forallb_forall in Hrange.
    specialize (Hrange (a, b) (proj1 (list_elem_of_In _ _) Hab)).
    apply andb_true_iff in Hrange. destruct Hrange as [Ha _].
    apply Nat.ltb_lt. exact Ha. }
  destruct (comes_before_path na _ Hnd Hbefore s s Hcycle) as (i & j & Hi & Hj & Hij).
  assert (i = j) by (eapply NoDup_lookup; eauto). lia.
Qed.

Lemma init_null_arcs_rejects_cycles_witness :
  returned (init_null_arcs (Some [(0, [(1, f0_5)]); (1, [(0, f0_5)])])
              (new_HMM 3 1 (zeros2 3 3) (Emis2 [zeros 3]))) = Raise AssertionError.
Proof.
  apply (init_null_arcs_rejects_cycles (new_HMM 3 1 (zeros2 3 3) (Emis2 [zeros 3]))
           (Some [(0, [(1, f0_5)]); (1, [(0, f0_5)])])).
  - vm_compute. reflexivity.
  - vm_compute. reflexivity.
  - reflexivity.
  - exists 0. apply (tc_l _ 0 1 0).
    + unfold null_arc. vm_compute. left.
    + apply tc_once. unfold null_arc. vm_compute. right. left.
Defined.

(** ** Accumulators added together *)

Lemma null_count_lookup2 (c : counts_null) i d :
  null_count c i d = match lookup2 c i d with Some v => v | None => fzero end.
Proof. unfold null_count, null_row, lookup2. destruct (dict_get c i); reflexivity. Qed.

Lemma null_count_null_add (c : counts_null) ix iy p i d :
  null_count (null_add c ix iy p) i d =
  if decide ((ix, iy) = (i, d)) then fadd (null_count c ix iy) p else null_count c i d.
Proof.
  rewrite (null_count_lookup2 (null_add c ix iy p)), (null_count_lookup2 c i d).
  unfold null_add, null_row. rewrite lookup2_set.
  destruct (decide ((ix, iy) = (i, d))); reflexivity.
Qed.

Lemma mbind_step {A B : Type} (m : method A) (k : A -> method B) s s' a :
  m s = mkOutcome s' [] (Ok a) -> mbind m k s = k a s'.
Proof. intros H. unfold mbind. rewrite H. simpl. destruct (k a s'); reflexivity. Qed.

Lemma add_null_count_Some s c ix iy p :
  output_arc_counts_null s = Some c ->
  add_null_count ix iy p s =
  mkOutcome (set_arc_counts_null (Some (null_add c ix iy p)) s) [] (Ok tt).
Proof.
  intros H. unfold add_null_count. rewrite mbind_get_self, H. reflexivity.
Qed.

Lemma add_null_counts_loop (f : nat -> nat -> float) arcs : forall s c,
  output_arc_counts_null s = Some c ->
  NoDup arcs ->
  let o := for_each_m arcs (fun '(ix, iy) => add_null_count ix iy (f ix iy)) s in
  returned o = Ok tt /\
  output_arc_counts (self_after o) = output_arc_counts s /\
  params (self_after o) = params s /\
  exists c', output_arc_counts_null (self_after o) = Some c' /\
    forall i d, null_count c' i d =
                if decide ((i, d) ∈ arcs) then fadd (null_count c i d) (f i d)
                else null_count c i d.
Proof.
  induction arcs as [|[ix iy] arcs IH]; intros s c Hc Hnd o; subst o.
  - cbn. repeat split. exists c. split; [exact Hc|]. intros i d.
    rewrite decide_False by apply not_elem_of_nil. reflexivity.
  - apply NoDup_cons in Hnd. destruct Hnd as [Hnotin Hnd].
    cbn [for_each_m].
    rewrite (mbind_step _ _ s _ tt (add_null_count_Some s c ix iy (f ix iy) Hc)).
    destruct (IH (set_arc_counts_null (Some (null_add c ix iy (f ix iy))) s)
                 (null_add c ix iy (f ix iy)) eq_refl Hnd)
      as (Hret & Hcounts & Hparams & c' & Hc' & Hall).
    split; [exact Hret|]. split; [exact Hcounts|]. split; [exact Hparams|].
    exists c'. split; [exact Hc'|]. intros i d. rewrite Hall.
    rewrite null_count_null_add.
    destruct (decide ((i, d) ∈ arcs)) as [Hin|Hin],
             (decide ((ix, iy) = (i, d))) as [Heq|Hne],
             (decide ((i, d) ∈ (ix, iy) :: arcs)) as [Hin'|Hin'];
      try reflexivity.
    + exfalso. apply Hnotin. now rewrite Heq.
    + exfalso. apply Hnotin. now rewrite Heq.
    + exfalso. apply Hin'. apply elem_of_cons. auto.
    + injection Heq as -> ->. reflexivity.
    + exfalso. apply Hin'. rewrite Heq. apply elem_of_cons. auto.
    + exfalso. apply elem_of_cons in Hin'. destruct Hin'; [congruence | contradiction].
Qed.

Lemma same_shape_shapes A B h w : shape A h w -> shape B h w -> same_shape A B = true.
Proof.
  intros [HA1 HA2] [HB1 HB2]. unfold same_shape.
  rewrite HA1, HB1, Nat.eqb_refl. cbn [andb].
  apply forallb_forall. intros [a b] Hab. cbn [fst snd].
  apply list_elem_of_In in Hab. apply elem_of_zip_with in Hab.
  destruct Hab as (a' & b' & Heq & Ha & Hb). injection Heq as -> ->.
  rewrite Forall_forall in HA2, HB2.
  rewrite (HA2 _ Ha), (HB2 _ Hb). apply Nat.eqb_refl.
Qed.

Lemma same_shape3_shapes (C A : tensor) h w :
  length A = length C ->
  Forall (fun M => shape M h w) C -> Forall (fun M => shape M h w) A ->
  same_shape3 C A = true.
Proof.
  intros HL HC HA. unfold same_shape3. rewrite HL, Nat.eqb_refl. cbn [andb].
  apply forallb_forall. intros [a b] Hab. cbn [fst snd].
  apply list_elem_of_In in Hab. apply elem_of_zip_with in Hab.
  destruct Hab as (a' & b' & Heq & Ha & Hb). injection Heq as -> ->.
  rewrite Forall_forall in HC, HA.
  eapply same_shape_shapes; eauto.
Qed.

Lemma get_tensor_sum (C A : tensor) h w o i j :
  length A = length C ->
  Forall (fun M => shape M h w) C -> Forall (fun M => shape M h w) A ->
  o < length C -> i < h -> j < w ->
  get (nth o (zip_with madd C A) []) i j =
  fadd (get (nth o C []) i j) (get (nth o A []) i j).
Proof.
  intros HL HC HA Ho Hi Hj.
  destruct (lookup_lt_is_Some_2 C o Ho) as [c Hc].
  destruct (lookup_lt_is_Some_2 A o ltac:(lia)) as [a Ha].
  rewrite !(nth_lookup _ o), lookup_zip_with, Hc, Ha. simpl.
  rewrite Forall_forall in HC, HA.
  apply (get_zip2 fadd c a h w); eauto using list_elem_of_lookup_2.
Qed.

(** X11.  [set_counters] adds, it does not replace: for accumulators of the
    same shape every entry of [output_arc_counts] afterwards is the entry
    before plus the entry of the other array, every null-arc count that the
    other dictionary holds is added to the model's (a count the model did not
    hold counting as 0), and the other null-arc counts and the parameters of
    the model stay as they were. *)
Theorem set_counters_adds :
  forall self counts cn another another_null h w,
    output_arc_counts self = Some counts ->
    output_arc_counts_null self = Some cn ->
    length another = length counts ->
    Forall (fun M => shape M h w) counts ->
    Forall (fun M => shape M h w) another ->
    NoDup (arcs_of another_null) ->
    let o := set_counters another another_null self in
    returned o = Ok tt /\
    params (self_after o) = params self /\
    (exists counts',
       output_arc_counts (self_after o) = Some counts' /\
       forall s i j, s < length counts -> i < h -> j < w ->
         get (nth s counts' []) i j =
         fadd (get (nth s counts []) i j) (get (nth s another []) i j)) /\
    (exists cn',
       output_arc_counts_null (self_after o) = Some cn' /\
       forall i d,
         null_count cn' i d =
         if decide ((i, d) ∈ arcs_of another_null)
         then fadd (null_count cn i d) (null_count another_null i d)
         else null_count cn i d).
Proof.
  intros self counts cn another another_null h w Hc Hn HL HC HA Hnd o. subst o.
  unfold set_counters. rewrite mbind_get_self, Hc.
  rewrite (same_shape3_shapes counts another h w HL HC HA).
  rewrite mbind_modify.
  destruct (add_null_counts_loop (null_count another_null) (arcs_of another_null)
              (set_arc_counts (Some (zip_with madd counts another)) self) cn Hn Hnd)
    as (Hret & Hcounts & Hparams & cn' & Hcn' & Hall).
  split; [exact Hret|]. split; [exact Hparams|]. split.
  - eexists. split; [rewrite Hcounts; reflexivity|].
    intros s i j Hs Hi Hj. apply (get_tensor_sum counts another h w); assumption.
  - exists cn'. split; [exact Hcn' | exact Hall].
Qed.

Lemma set_counters_adds_witness :
  let o := set_counters [[[f0_5]]; [[f0_25]]] [(0, [(0, f0_5)])]
             (with_counts (Some [[[fone]]; [[fzero]]]) (Some []) two_symbol_model) in
  returned o = Ok tt /\
  output_arc_counts (self_after o) = Some [[[fadd fone f0_5]]; [[fadd fzero f0_25]]] /\
  (exists cn',
     output_arc_counts_null (self_after o) = Some cn' /\
     null_count cn' 0 0 = fadd fzero f0_5).
Proof.
  destruct (set_counters_adds
              (with_counts (Some [[[fone]]; [[fzero]]]) (Some []) two_symbol_model)
              [[[fone]]; [[fzero]]] [] [[[f0_5]]; [[f0_25]]] [(0, [(0, f0_5)])] 1 1)
    as (Hret & _ & _ & cn' & Hcn' & Hall).
  - reflexivity.
  - reflexivity.
  - reflexivity.
  - repeat constructor.
  - repeat constructor.
  - vm_compute. repeat constructor. intros H. inversion H.
  - split; [exact Hret|]. split; [vm_compute; reflexivity|].
    exists cn'. split; [exact Hcn'|]. rewrite (Hall 0 0). reflexivity.
Defined.

(** ** Scaled trellises un-normalised *)

Lemma imap_unchanged {A : Type} (f : nat -> A -> A) (l : list A) :
  (forall i x, l !! i = Some x -> f i x = x) -> imap f l = l.
Proof.
  intros H. apply list_eq. intros i. rewrite list_lookup_imap.
  destruct (l !! i) as [x|] eqn:Hx; simpl; [|reflexivity].
  f_equal. apply H. exact Hx.
Qed.

Lemma imap_pointwise {A : Type} (f g : nat -> A -> A) (l : list A) :
  (forall i x, l !! i = Some x -> f i x = g i x) -> imap f l = imap g l.
Proof.
  intros H. apply list_eq. intros i. rewrite !list_lookup_imap.
  destruct (l !! i) as [x|] eqn:Hx; simpl; [|reflexivity].
  f_equal. apply H. exact Hx.
Qed.

(** Scaling row [k] of a matrix of which some rows are scaled already. *)
Lemma scale_row_imap (P P' : nat -> Prop) `{!forall t, Decision (P t)}
    `{!forall t, Decision (P' t)} (c : nat -> float) (k : nat) (M : matrix) :
  ~ P k -> P' k -> (forall t, t <> k -> (P t <-> P' t)) ->
  scale_row k (c k)
    (imap (fun t row => if decide (P t) then map (fun x => fmul x (c t)) row else row) M) =
  imap (fun t row => if decide (P' t) then map (fun x => fmul x (c t)) row else row) M.
Proof.
  intros HPk HP'k Hother. unfold scale_row. apply list_eq. intros i.
  destruct (decide (i = k)) as [->|Hne].
  - rewrite list_lookup_alter_eq, !list_lookup_imap.
    destruct (M !! k) as [row|]; simpl; [|reflexivity].
    rewrite decide_False by exact HPk. rewrite decide_True by exact HP'k. reflexivity.
  - rewrite list_lookup_alter_ne by congruence. rewrite !list_lookup_imap.
    destruct (M !! i) as [row|]; simpl; [|reflexivity].
    destruct (decide (P i)) as [HP|HP], (decide (P' i)) as [HQ|HQ];
      try reflexivity; exfalso; apply (Hother i Hne) in HP || apply (Hother i Hne) in HQ;
      contradiction.
Qed.

Lemma un_norm_alphas_loop (A : matrix) (Q : vec) k :
  for_each (seq 0 k)
    (fun t '(cur_q, alphas) =>
       q <- index Q t ;;
       let cur_q := fmul cur_q q in
       Ok (cur_q, scale_row t cur_q alphas))
    (fone, A) =
  if decide (k <= length Q)
  then Ok (fold_left fmul (take k Q) fone,
           imap (fun t row =>
                   if decide (t < k)
                   then map (fun x => fmul x (fold_left fmul (take (S t) Q) fone)) row
                   else row) A)
  else Raise IndexError.
Proof.
  induction k as [|k IH].
  - cbn [seq for_each]. rewrite decide_True by lia. rewrite take_0. cbn [fold_left].
    f_equal. f_equal. symmetry. apply imap_unchanged.
    intros i x _. rewrite decide_False by lia. reflexivity.
  - rewrite seq_S, for_each_app, IH. cbn [Nat.add].
    destruct (decide (k <= length Q)) as [Hk|Hk].
    + cbn [bind for_each]. unfold index.
      destruct (Q !! k) as [q|] eqn:Hq.
      * cbn [bind]. rewrite decide_True by (apply lookup_lt_Some in Hq; lia).
        assert (Hcur : fmul (fold_left fmul (take k Q) fone) q =
                       fold_left fmul (take (S k) Q) fone).
        { rewrite (take_S_r _ _ _ Hq), fold_left_app. reflexivity. }
        rewrite Hcur. f_equal. f_equal.
        apply (scale_row_imap (fun t => t < k) (fun t => t < S k)
                 (fun t => fold_left fmul (take (S t) Q) fone)); intros; lia.
      * cbn [bind]. apply lookup_ge_None in Hq.
        rewrite decide_False by lia. reflexivity.
    + cbn [bind]. rewrite decide_False by lia. reflexivity.
Qed.

(** X12.  [un_norm_alphas_] multiplies every entry of row [t] of the scaled
    trellis by [((1 * Q[0]) * Q[1]) * ... * Q[t]]; it raises [IndexError]
    exactly when [Q] has fewer entries than the trellis has rows. *)
Theorem un_norm_alphas_scales_rows :
  forall alphas_ Q,
    un_norm_alphas_ alphas_ Q =
    if decide (length alphas_ <= length Q)
    then Ok (imap (fun t row =>
                     map (fun x => fmul x (fold_left fmul (take (S t) Q) fone)) row)
                  alphas_)
    else Raise IndexError.
Proof.
  intros A Q. unfold un_norm_alphas_. rewrite un_norm_alphas_loop.
  destruct (decide (length A <= length Q)); [|reflexivity].
  cbn [bind snd]. f_equal. apply imap_pointwise.
  intros i x Hx. apply lookup_lt_Some in Hx. rewrite decide_True by exact Hx. reflexivity.
Qed.

Lemma slice_cons {A : Type} (l : list A) i k x :
  l !! i = Some x -> i < k -> slice l i k = x :: slice l (S i) k.
Proof.
  intros Hx Hik. unfold slice. rewrite (drop_S _ _ _ Hx).
  replace (k - i) with (S (k - S i)) by lia. reflexivity.
Qed.

Lemma un_norm_betas_loop (B : matrix) (Q : vec) m d :
  d <= m ->
  for_each (rev (seq (m - d) d))
    (fun t '(cur_q, betas) =>
       q <- index Q (t + 1) ;;
       let cur_q := fmul cur_q q in
       Ok (cur_q, scale_row t cur_q betas))
    (fone, B) =
  if decide (d = 0 \/ m < length Q)
  then Ok (fold_left fmul (rev (slice Q (S (m - d)) (S m))) fone,
           imap (fun t row =>
                   if decide (m - d <= t < m)
                   then map (fun x =>
                               fmul x (fold_left fmul (rev (slice Q (S t) (S m))) fone)) row
                   else row) B)
  else Raise IndexError.
Proof.
  induction d as [|d IH]; intros Hd.
  - cbn [seq rev for_each]. rewrite decide_True by auto.
    unfold slice at 1. rewrite Nat.sub_0_r, Nat.sub_diag, take_0. cbn [rev fold_left].
    f_equal. f_equal. symmetry. apply imap_unchanged.
    intros i x _. rewrite decide_False by lia. reflexivity.
  - specialize (IH ltac:(lia)).
    assert (Hj : m - d = S (m - S d)) by lia. rewrite Hj in IH.
    set (j := m - S d) in *. assert (Hjm : j < m) by (subst j; lia).
    cbn [seq rev]. cbv zeta in IH. rewrite for_each_app, IH.
    destruct (decide (d = 0 \/ m < length Q)) as [Hok|Hbad].
    + cbn [bind for_each]. unfold index.
      destruct (Q !! (j + 1)) as [q|] eqn:Hq.
      * cbn [bind]. pose proof (lookup_lt_Some _ _ _ Hq) as Hlt.
        assert (Hm : m < length Q).
        { destruct Hok as [->|]; [|assumption]. subst j. lia. }
        rewrite decide_True by auto.
        replace (j + 1) with (S j) in Hq by lia.
        assert (Hcur : fmul (fold_left fmul (rev (slice Q (S (S j)) (S m))) fone) q =
                       fold_left fmul (rev (slice Q (S j) (S m))) fone).
        { rewrite (slice_cons Q (S j) (S m) q Hq) by lia.
          cbn [rev]. rewrite fold_left_app. reflexivity. }
        rewrite Hcur. f_equal. f_equal.
        apply (scale_row_imap (fun t => S j <= t < m) (fun t => j <= t < m)
                 (fun t => fold_left fmul (rev (slice Q (S t) (S m))) fone));
          intros; lia.
      * cbn [bind]. apply lookup_ge_None in Hq.
        rewrite decide_False; [reflexivity|].
        intros [H|H]; [discriminate|]. subst j. lia.
    + cbn [bind]. rewrite decide_False; [reflexivity|].
      intros [H|H]; [discriminate|]. apply Hbad. auto.
Qed.

(** X13.  [un_norm_betas_] leaves the last row of the trellis as it is and
    multiplies every entry of an earlier row [t] by
    [((1 * Q[T]) * Q[T - 1]) * ... * Q[t + 1]], [T] being the index of the
    last row; for a trellis of two rows or more it raises [IndexError]
    exactly when [Q] has fewer entries than the trellis has rows. *)
Theorem un_norm_betas_scales_rows :
  forall betas_ Q,
    let T := length betas_ - 1 in
    un_norm_betas_ betas_ Q =
    if decide (length betas_ <= 1 \/ length betas_ <= length Q)
    then Ok (imap (fun t row =>
                     if decide (t < T)
                     then map (fun x =>
                                 fmul x (fold_left fmul (rev (slice Q (S t) (S T))) fone))
                              row
                     else row)
                  betas_)
    else Raise IndexError.
Proof.
  intros B Q. cbv zeta. unfold un_norm_betas_. set (T := length B - 1).
  pose proof (un_norm_betas_loop B Q T T (le_n T)) as H.
  rewrite Nat.sub_diag in H. cbv zeta in H. rewrite H.
  destruct (decide (T = 0 \/ T < length Q)) as [Hok|Hbad].
  - rewrite decide_True by (subst T; lia).
    cbn [bind snd]. f_equal. apply imap_pointwise.
    intros i x _.
    destruct (decide (0 <= i < T)), (decide (i < T)); try reflexivity; lia.
  - rewrite decide_False by (subst T; lia). reflexivity.
Qed.

(** ** Scoring and the edges of the forward and backward passes *)

(** X14.  [compute_log_likelihood] returns no likelihood: every call ends in
    an exception, a [TypeError] whenever [forward] itself ends normally,
    because it unpacks the [None] that [forward] returns.  It leaves the
    object as [forward] leaves it, parameters unchanged. *)
Theorem compute_log_likelihood_never_returns :
  forall (np_log : float -> float) self data init_prob init_beta,
    let o := compute_log_likelihood np_log self data init_prob init_beta in
    let f := forward self data init_prob in
    (exists e, returned o = Raise e) /\
    (forall x, returned f = Ok x -> returned o = Raise TypeError) /\
    self_after o = self_after f /\
    params (self_after o) = params self.
Proof.
  intros np_log self data init_prob init_beta o f. subst o.
  assert (H : compute_log_likelihood np_log self data init_prob init_beta =
              mkOutcome (self_after f) (printed f)
                (match returned f with
                 | Raise e => Raise e
                 | Ok _ => Raise TypeError
                 end)).
  { unfold compute_log_likelihood, mbind. fold f.
    destruct (returned f) as [[x|]|e] eqn:Hr; simpl.
    - exfalso. exact (forward_returns_None _ _ _ _ Hr).
    - rewrite app_nil_r. reflexivity.
    - reflexivity. }
  rewrite H. cbn [returned self_after].
  split; [destruct (returned f); eauto|].
  split; [intros x Hx; rewrite Hx; reflexivity|].
  split; [reflexivity|].
  apply (preserves_forward data init_prob self).
Qed.

(** X15.  On the empty sequence, for a model with at least one state (or a
    given initial distribution of one entry per state), [forward] raises
    [UnboundLocalError], prints nothing and leaves the model with its
    accumulators reset to zero. *)
Theorem forward_on_empty_sequence :
  forall self init_prob,
    (init_prob = None -> 0 < num_states self) ->
    (forall p, init_prob = Some p -> length p = num_states self) ->
    forward self [] init_prob =
    mkOutcome (reset_counters self) [] (Raise UnboundLocalError).
Proof.
  intros self init_prob Hnone Hsome. rewrite forward_unfold.
  assert (Hinit : exists p, forward_init self [] init_prob =
                            Ok ([vscale_div p (fsum p)], [fsum p])).
  { unfold forward_init. destruct init_prob as [p|].
    - rewrite (Hsome p eq_refl), Nat.eqb_refl. exists p. reflexivity.
    - specialize (Hnone eq_refl). destruct (num_states self) as [|k] eqn:Hn; [lia|].
      eexists. reflexivity. }
  destruct Hinit as [p Hinit]. rewrite Hinit. cbn [fst snd].
  unfold backward. unfold ones at 1. rewrite length_replicate, Nat.eqb_refl.
  reflexivity.
Qed.

Lemma forward_on_empty_sequence_witness :
  forward unit_model [] None =
  mkOutcome (reset_counters unit_model) [] (Raise UnboundLocalError).
Proof.
  apply forward_on_empty_sequence.
  - intros _. simpl. lia.
  - intros p H. discriminate H.
Defined.











(** ** Re-estimation from empty accumulators *)

Lemma map_replicate {A B : Type} (f : A -> B) n x :
  map f (replicate n x) = replicate n (f x).
Proof. induction n as [|n IH]; simpl; [reflexivity | now rewrite IH]. Qed.

Lemma madd_zeros2 h w : madd (zeros2 h w) (zeros2 h w) = zeros2 h w.
Proof.
  unfold madd, zeros2, vadd, zeros. rewrite zip_with_replicate. f_equal.
  rewrite zip_with_replicate. reflexivity.
Qed.

Lemma sum_axis0_zeros3 o h w : sum_axis0 h w (zeros3 o h w) = zeros2 h w.
Proof.
  destruct o as [|o]; [reflexivity|]. unfold zeros3. cbn [replicate sum_axis0].
  induction o as [|o IH]; [reflexivity|].
  cbn [replicate fold_left]. rewrite madd_zeros2. exact IH.
Qed.

Lemma fold_fadd_zeros n : fold_left fadd (replicate n fzero) fzero = fzero.
Proof. induction n as [|n IH]; [reflexivity|]. exact IH. Qed.

Lemma fold_fadd_nan l : fold_left fadd l S754_nan = S754_nan.
Proof. induction l as [|x l IH]; [reflexivity|]. exact IH. Qed.

Lemma elem_of_ndindex_inv M i j : In (i, j) (ndindex M) -> inb M i j.
Proof.
  unfold ndindex. intros H. apply in_concat in H. destruct H as (l & Hl & Hin).
  apply list_elem_of_In, elem_of_lookup_imap in Hl.
  destruct Hl as (i' & r & -> & Hr).
  apply in_map_iff in Hin. destruct Hin as (j' & Heq & Hj). injection Heq as -> ->.
  apply in_seq in Hj. exists r. split; [exact Hr | lia].
Qed.

(** A loop that fills a matrix entry by entry with values that are all
    there returns, and keeps the shape. *)
Lemma fill_loop_returns (g : nat -> nat -> result float) idxs h w :
  (forall i j, In (i, j) idxs -> exists v, g i j = Ok v) ->
  forall M0, shape M0 h w ->
  exists M, for_each idxs (fun '(i, j) M => v <- g i j ;; Ok (set2 M i j v)) M0 = Ok M /\
            shape M h w.
Proof.
  intros Hg M0 HS.
  apply (for_each_invariant (fun M => shape M h w)); [|exact HS].
  intros [i j] M Hin HM. destruct (Hg i j Hin) as [v Hv].
  exists (set2 M i j v). rewrite Hv. split; [reflexivity|]. now apply shape_set2.
Qed.

(** X17.  [update_params] right after [reset_counters], for a model with at
    least one state, square transitions and no null arcs or registered
    emitting arcs: the call raises [AssertionError], and it has by then
    replaced every emission by 0 and every transition by NaN. *)
Theorem update_params_without_counts :
  forall self,
    let n := num_states self in
    0 < n ->
    shape (transitions self) n n ->
    non_null_arcs self = [] ->
    null_arcs self = [] ->
    let o := update_params (reset_counters self) in
    returned o = Raise AssertionError /\
    emissions (self_after o) = Emis3 (zeros3 (num_outputs self) n n) /\
    forall i j, i < n -> j < n -> get (transitions (self_after o)) i j = S754_nan.
Proof.
  intros self n Hn HS Hnn Hna o. subst o.
  set (s0 := reset_counters self).
  pose proof (update_params_unfold s0 (zeros3 (num_outputs self) n n) []
                eq_refl eq_refl) as H.
  cbv zeta in H.
  change (num_states s0) with n in H. change (transitions s0) with (transitions self) in H.
  change (null_arcs s0) with (null_arcs self) in H.
  rewrite sum_axis0_zeros3 in H.
  assert (HE : map (map (map nan_to_num))
                 (map (fun A => mdiv A (zeros2 n n)) (zeros3 (num_outputs self) n n)) =
               zeros3 (num_outputs self) n n).
  { unfold zeros3. rewrite !map_replicate. f_equal.
    unfold mdiv, zeros2. rewrite zip_with_replicate, map_replicate. f_equal.
    unfold zeros. rewrite zip_with_replicate, map_replicate. reflexivity. }
  rewrite HE in H.
  match type of H with
  | match assert_emission_probs ?s1 with _ => _ end =>
      assert (Hae : assert_emission_probs s1 = Ok tt)
        by (unfold assert_emission_probs; cbn [non_null_arcs set_emissions s0 reset_counters
              set_arc_counts_null set_arc_counts]; rewrite Hnn; reflexivity);
      rewrite Hae in H; clear Hae
  end.
  assert (Hrow : sum_axis1 (zeros2 n n) !! 0 = Some fzero).
  { unfold sum_axis1, zeros2. rewrite map_replicate. rewrite lookup_replicate_2 by exact Hn.
    f_equal. unfold zeros. destruct n as [|k]; [lia|]. cbn [replicate fsum].
    apply fold_fadd_zeros. }
  assert (Hg : forall i j, In (i, j) (ndindex (transitions self)) ->
             (x <- index2 (zeros2 n n) i j ;;
              d <- leaving_mass (sum_axis1 (zeros2 n n)) (Some []) i ;;
              Ok (fdiv x d)) = Ok S754_nan).
  { intros i j Hin. apply elem_of_ndindex_inv in Hin. destruct Hin as (r & Hr & Hj).
    pose proof (lookup_lt_Some _ _ _ Hr) as Hi.
    rewrite (shape_lookup _ _ _ _ _ HS Hr) in Hj. destruct HS as [HL _]. rewrite HL in Hi.
    unfold index2, index, zeros2, zeros.
    rewrite (lookup_replicate_2 _ _ _ Hi). cbn [bind].
    rewrite (lookup_replicate_2 _ _ _ Hj). cbn [bind].
    unfold leaving_mass, index, sum_axis1, zeros2. rewrite map_replicate.
    rewrite (lookup_replicate_2 _ _ _ Hi). cbn [bind].
    unfold zeros. destruct n as [|k]; [lia|]. cbn [replicate fsum].
    rewrite fold_fadd_zeros. reflexivity. }
  destruct (fill_loop_returns
              (fun i j => x <- index2 (zeros2 n n) i j ;;
                          d <- leaving_mass (sum_axis1 (zeros2 n n)) (Some []) i ;;
                          Ok (fdiv x d))
              (ndindex (transitions self)) n n
              (fun i j Hin => ex_intro _ S754_nan (Hg i j Hin))
              (map (map (fun _ => fzero)) (transitions self))
              (shape_map2 _ _ _ _ HS)) as (M & Hloop & HSM).
  match type of H with
  | match ?L with _ => _ end =>
      assert (HL : L = Ok M) by exact Hloop; rewrite HL in H; clear HL
  end.
  rewrite Hna in H.
  cbn [arcs_of map concat for_each_m] in H.
  cbn [ret self_after returned] in H. destruct H as [Hself Hret].
  assert (Hentries : forall i j, i < n -> j < n -> get M i j = S754_nan).
  { intros i j Hi Hj.
    assert (Hinb : inb (map (map (fun _ => fzero)) (transitions self)) i j)
      by (apply (inb_shape _ n n); [apply shape_map2; exact HS | exact Hi | exact Hj]).
    destruct (for_each_set2 _ _ _ _ Hloop i j Hinb) as (_ & Hin & _).
    assert (Hidx : (i, j) ∈ ndindex (transitions self))
      by (apply elem_of_ndindex; apply (inb_shape _ n n); assumption).
    destruct (Hin Hidx) as (v & Hv & Hget).
    rewrite (Hg i j) in Hv by (apply list_elem_of_In; exact Hidx). congruence. }
  rewrite Hself, Hret. cbn [emissions transitions set_transitions set_emissions].
  split; [|split; [reflexivity | exact Hentries]].
  unfold assert_transition_probs.
  cbn [num_states null_arcs transitions set_transitions set_emissions s0 reset_counters
       set_arc_counts_null set_arc_counts].
  fold n. rewrite Hna.
  destruct n as [|k] eqn:Hk; [lia|]. cbn [seq]. rewrite for_each_cons.
  cbn [dict_get].
  destruct (shape_row M (S k) (S k) 0 HSM ltac:(lia)) as (r & Hr & Hlen).
  unfold index at 1. rewrite Hr. cbn [bind].
  rewrite (row_entries M 0 r (S k) Hr Hlen). cbn [seq map fsum].
  rewrite (Hentries 0 0) by lia. rewrite fold_fadd_nan. reflexivity.
Qed.

Lemma update_params_without_counts_witness :
  let o := update_params (reset_counters unit_model) in
  returned o = Raise AssertionError /\
  emissions (self_after o) = Emis3 (zeros3 1 1 1) /\
  forall i j, i < 1 -> j < 1 -> get (transitions (self_after o)) i j = S754_nan.
Proof.
  apply (update_params_without_counts unit_model).
  - simpl. lia.
  - split; [reflexivity | repeat constructor].
  - reflexivity.
  - reflexivity.
Defined.

(** ** The prototype initialiser *)

Lemma fsum_zeros_pos n : 0 < n -> fsum (zeros n) = fzero.
Proof.
  intros Hn. destruct n as [|k]; [lia|]. unfold zeros. cbn [replicate fsum].
  apply fold_fadd_zeros.
Qed.

Lemma get_set2 M a b v i j :
  inb M i j ->
  get (set2 M a b v) i j = if decide ((a, b) = (i, j)) then v else get M i j.
Proof.
  intros Hin. destruct (decide ((a, b) = (i, j))) as [Heq|Hne].
  - injection Heq as -> ->. apply get_set2_eq. exact Hin.
  - apply get_set2_ne. exact Hne.
Qed.

Lemma chain_loop n stay move k :
  k <= n - 1 ->
  let M := fold_left (fun T i => set2 (set2 T i i stay) i (i + 1) move) (seq 0 k)
             (zeros2 n n) in
  shape M n n /\
  forall i j, i < n -> j < n ->
    get M i j = if Nat.ltb i k
                then (if Nat.eqb j i then stay else if Nat.eqb j (i + 1) then move else fzero)
                else fzero.
Proof.
  induction k as [|k IH]; intros Hk M; subst M.
  - cbn [seq fold_left]. split; [apply shape_zeros2|].
    intros i j _ _. apply get_zeros2.
  - destruct (IH ltac:(lia)) as [HS Hget]. clear IH.
    rewrite seq_S, fold_left_app. cbn [Nat.add fold_left].
    set (M := fold_left _ (seq 0 k) (zeros2 n n)) in *.
    split; [repeat apply shape_set2; exact HS|].
    intros i j Hi Hj.
    assert (Hin : inb M i j) by (apply (inb_shape M n n); assumption).
    rewrite get_set2 by (apply inb_set2; exact Hin).
    rewrite get_set2 by exact Hin. rewrite (Hget i j Hi Hj).
    destruct (decide ((k, k + 1) = (i, j))) as [Heq|Hn1].
    + injection Heq as <- <-.
      rewrite (proj2 (Nat.ltb_lt k (S k))) by lia.
      rewrite (proj2 (Nat.eqb_neq (k + 1) k)) by lia. rewrite Nat.eqb_refl. reflexivity.
    + destruct (decide ((k, k) = (i, j))) as [Heq|Hn2].
      * injection Heq as <- <-.
        rewrite (proj2 (Nat.ltb_lt k (S k))) by lia. rewrite Nat.eqb_refl. reflexivity.
      * destruct (Nat.ltb_spec i k) as [Hlt|Hge].
        -- rewrite (proj2 (Nat.ltb_lt i (S k))) by lia. reflexivity.
        -- destruct (Nat.ltb_spec i (S k)) as [Hlt'|]; [|reflexivity].
           assert (i = k) by lia. subst i.
           rewrite (proj2 (Nat.eqb_neq j k)) by congruence.
           rewrite (proj2 (Nat.eqb_neq j (k + 1))) by congruence. reflexivity.
Qed.

Lemma chain_Ok n stay move :
  0 < n ->
  exists M, chain n stay move (zeros2 n n) = Ok M /\
            shape M n n /\
            forall i j, i < n -> j < n -> get M i j = chain_entry n stay move i j.
Proof.
  intros Hn. unfold chain. rewrite (proj2 (Nat.eqb_neq n 0)) by lia.
  destruct (chain_loop n stay move (n - 1) (le_n _)) as [HS Hget]. cbv zeta in HS, Hget.
  eexists. split; [reflexivity|]. split; [apply shape_set2; exact HS|].
  intros i j Hi Hj.
  rewrite get_set2 by (apply (inb_shape _ n n); assumption).
  rewrite (Hget i j Hi Hj). unfold chain_entry.
  destruct (Nat.eqb_spec i (n - 1)) as [->|Hne].
  - rewrite Nat.ltb_irrefl.
    destruct (Nat.eqb_spec j (n - 1)) as [->|Hj'].
    + rewrite decide_True by reflexivity. reflexivity.
    + rewrite decide_False by congruence. reflexivity.
  - rewrite decide_False by congruence.
    rewrite (proj2 (Nat.ltb_lt i (n - 1))) by lia. reflexivity.
Qed.

Lemma fold_fadd_zero_terms (g : nat -> float) m : forall s acc,
  (forall j, s <= j < s + m -> g j = fzero) ->
  fadd acc fzero = acc ->
  fold_left fadd (map g (seq s m)) acc = acc.
Proof.
  induction m as [|m IH]; intros s acc Hg Hacc; [reflexivity|].
  cbn [seq map fold_left]. rewrite (Hg s) by lia. rewrite Hacc.
  apply IH; [|exact Hacc]. intros j Hj. apply Hg. lia.
Qed.

Lemma fsum_as_fold (l : vec) :
  fadd fzero (hd fzero l) = hd fzero l -> fsum l = fold_left fadd l fzero.
Proof. destruct l as [|x l]; [reflexivity|]. cbn [hd fsum fold_left]. now intros ->. Qed.

(** The sum of a row of a chain. *)
Lemma chain_row_sum n stay move i :
  i < n ->
  fadd fzero stay = stay ->
  fadd (fadd stay move) fzero = fadd stay move ->
  fsum (map (chain_entry n stay move i) (seq 0 n)) =
  if Nat.eqb i (n - 1) then fone else fadd stay move.
Proof.
  intros Hi Hs Hsm.
  rewrite fsum_as_fold.
  2:{ destruct n as [|n']; [lia|]. cbn [seq map hd]. unfold chain_entry.
      replace (i + 1) with (S i) by lia.
      destruct (Nat.eqb i (S n' - 1)); destruct i as [|i']; cbn [Nat.eqb];
        try reflexivity; exact Hs. }
  destruct (Nat.eqb_spec i (n - 1)) as [->|Hne].
  - assert (Hseq : seq 0 n = seq 0 (n - 1) ++ [n - 1]).
    { replace n with (S (n - 1)) at 1 by lia. rewrite seq_S. reflexivity. }
    rewrite Hseq, map_app, fold_left_app.
    rewrite fold_fadd_zero_terms; [| |reflexivity].
    + cbn [seq map fold_left Nat.add]. unfold chain_entry. rewrite !Nat.eqb_refl. reflexivity.
    + intros j Hj. unfold chain_entry. rewrite Nat.eqb_refl.
      rewrite (proj2 (Nat.eqb_neq j (n - 1))) by lia. reflexivity.
  - assert (Hseq : seq 0 n = seq 0 i ++ seq i (2 + (n - i - 2))).
    { replace n with (i + (2 + (n - i - 2))) at 1 by lia. rewrite seq_app. reflexivity. }
    rewrite Hseq, map_app, fold_left_app.
    rewrite (fold_fadd_zero_terms (chain_entry n stay move i) i 0 fzero); [| |reflexivity].
    + cbn [Nat.add seq map fold_left].
      assert (E1 : chain_entry n stay move i i = stay).
      { unfold chain_entry. rewrite (proj2 (Nat.eqb_neq i (n - 1))) by exact Hne.
        rewrite Nat.eqb_refl. reflexivity. }
      assert (E2 : chain_entry n stay move i (S i) = move).
      { unfold chain_entry. rewrite (proj2 (Nat.eqb_neq i (n - 1))) by exact Hne.
        rewrite (proj2 (Nat.eqb_neq (S i) i)) by lia.
        replace (i + 1) with (S i) by lia. rewrite Nat.eqb_refl. reflexivity. }
      rewrite E1, E2, Hs.
      apply fold_fadd_zero_terms; [|exact Hsm].
      intros j Hj. unfold chain_entry.
      rewrite (proj2 (Nat.eqb_neq i (n - 1))) by exact Hne.
      rewrite (proj2 (Nat.eqb_neq j i)) by lia.
      rewrite (proj2 (Nat.eqb_neq j (i + 1))) by lia. reflexivity.
    + intros j Hj. unfold chain_entry.
      rewrite (proj2 (Nat.eqb_neq i (n - 1))) by exact Hne.
      rewrite (proj2 (Nat.eqb_neq j i)) by lia.
      rewrite (proj2 (Nat.eqb_neq j (i + 1))) by lia. reflexivity.
Qed.

Lemma fold_vadd_replicate k n c : forall x,
  fold_left vadd (replicate k (replicate n c)) (replicate n x) =
  replicate n (fold_left fadd (replicate k c) x).
Proof.
  induction k as [|k IH]; intros x; [reflexivity|].
  cbn [replicate fold_left]. unfold vadd at 2. rewrite zip_with_replicate. apply IH.
Qed.

Lemma allclose_replicate n x b : isclose x b = true -> allclose (replicate n x) b = true.
Proof.
  intros H. unfold allclose. apply forallb_forall. intros y Hy.
  apply list_elem_of_In, elem_of_replicate in Hy. destruct Hy as [-> _]. exact H.
Qed.

Lemma uniform_columns_sum n :
  sum_rows n (replicate 256 (replicate n (fdiv fone (of_nat 256)))) = replicate n fone.
Proof.
  set (c := fdiv fone (of_nat 256)).
  change (replicate 256 (replicate n c))
    with (replicate n c :: replicate 255 (replicate n c)).
  unfold sum_rows. rewrite fold_vadd_replicate. f_equal.
Qed.

(** X18.  For every number of states [n >= 1] and 256 outputs,
    [initialize_hmm] with the type 'letter' (0.5 and 0.5) or 'silence' (0.7
    and 0.3) returns normally, both its assertions holding, and leaves a
    left-to-right chain: the first probability on the diagonal, the second
    beside it, 1 in the last corner and 0 elsewhere, with the uniform
    emissions 1/256. *)
Theorem initialize_hmm_chain :
  forall self n type stay move,
    0 < n ->
    (type = letter_type /\ stay = f0_5 /\ move = f0_5) \/
    (type = silence_type /\ stay = f0_7 /\ move = f0_3) ->
    let o := initialize_hmm n 256 type self in
    returned o = Ok tt /\
    shape (transitions (self_after o)) n n /\
    (forall i j, i < n -> j < n ->
       get (transitions (self_after o)) i j = chain_entry n stay move i j) /\
    emissions (self_after o) = Emis2 (uniform_emissions n).
Proof.
  intros self n type stay move Hn Htype o. subst o.
  destruct (chain_Ok n stay move Hn) as (M & HM & HS & Hget).
  assert (Hfacts : fadd fzero stay = stay /\
                   fadd (fadd stay move) fzero = fadd stay move /\
                   isclose (fadd stay move) fone = true /\
                   isclose fone fone = true).
  { destruct Htype as [(_ & -> & ->)|(_ & -> & ->)]; vm_compute; auto. }
  destruct Hfacts as (Hs & Hsm & Hclose & Hone).
  assert (Hrun : initialize_hmm n 256 type self =
                 (_ <~ modify (set_transitions M) ;;
                  _ <~ modify (set_emissions (Emis2 (uniform_emissions n))) ;;
                  self <~ get_self ;;
                  _ <~ lift (assert (allclose (sum_axis1 (transitions self)) fone)) ;;
                  lift (assert (allclose (sum_rows n (emission_matrix self)) fone)))
                   (set_transitions (zeros2 n n) self)).
  { unfold initialize_hmm. rewrite mbind_modify, mbind_get_self.
    cbn [transitions set_transitions].
    destruct Htype as [(-> & -> & ->)|(-> & -> & ->)].
    - destruct (List.list_eq_dec ascii_dec letter_type letter_type) as [_|Hc];
        [|contradiction].
      rewrite HM. reflexivity.
    - destruct (List.list_eq_dec ascii_dec silence_type letter_type) as [Hc|_];
        [discriminate|].
      destruct (List.list_eq_dec ascii_dec silence_type silence_type) as [_|Hc];
        [|contradiction].
      rewrite HM. reflexivity. }
  rewrite Hrun. rewrite !mbind_modify, mbind_get_self.
  cbn [transitions emissions set_transitions set_emissions emission_matrix].
  assert (Hrows : allclose (sum_axis1 M) fone = true).
  { unfold allclose, sum_axis1. apply forallb_forall. intros x Hx.
    apply in_map_iff in Hx. destruct Hx as (r & <- & Hr).
    apply list_elem_of_In, list_elem_of_lookup in Hr. destruct Hr as [i Hr].
    pose proof (lookup_lt_Some _ _ _ Hr) as Hi. destruct HS as [HL HF].
    rewrite HL in Hi.
    rewrite (row_entries M i r n Hr (shape_lookup _ _ _ _ _ (conj HL HF) Hr)).
    rewrite (map_ext_in _ (chain_entry n stay move i))
      by (intros j Hj; apply in_seq in Hj; apply Hget; lia).
    rewrite (chain_row_sum n stay move i Hi Hs Hsm).
    destruct (Nat.eqb i (n - 1)); assumption. }
  rewrite Hrows. cbn [assert]. rewrite mbind_lift_Ok.
  unfold uniform_emissions. rewrite uniform_columns_sum.
  rewrite (allclose_replicate n fone fone Hone).
  cbn [assert lift returned self_after transitions emissions set_transitions set_emissions].
  split; [reflexivity|]. split; [exact HS|]. split; [exact Hget | reflexivity].
Qed.

Lemma initialize_hmm_chain_witness :
  let o := initialize_hmm 3 256 letter_type unit_model in
  returned o = Ok tt /\
  shape (transitions (self_after o)) 3 3 /\
  (forall i j, i < 3 -> j < 3 ->
     get (transitions (self_after o)) i j = chain_entry 3 f0_5 f0_5 i j) /\
  emissions (self_after o) = Emis2 (uniform_emissions 3).
Proof.
  apply (initialize_hmm_chain unit_model 3 letter_type f0_5 f0_5).
  - lia.
  - left. repeat split; reflexivity.
Defined.

(** X19.  With a type that is neither 'letter' nor 'silence',
    [initialize_hmm] (for at least one state and one output) raises
    [AssertionError]: it leaves the transitions all zero, which its first
    assertion rejects, after having assigned the uniform emissions. *)
Theorem initialize_hmm_unknown_type :
  forall self n num_outputs type,
    type <> letter_type ->
    type <> silence_type ->
    0 < n ->
    0 < num_outputs ->
    let o := initialize_hmm n num_outputs type self in
    returned o = Raise AssertionError /\
    transitions (self_after o) = zeros2 n n /\
    emissions (self_after o) =
      Emis2 (replicate num_outputs (replicate n (fdiv fone (of_nat num_outputs)))).
Proof.
  intros self n num_outputs type Hl Hsil Hn Ho o. subst o.
  unfold initialize_hmm. rewrite mbind_modify, mbind_get_self.
  destruct (List.list_eq_dec ascii_dec type letter_type) as [Hc|_]; [contradiction|].
  destruct (List.list_eq_dec ascii_dec type silence_type) as [Hc|_]; [contradiction|].
  rewrite (mbind_step (ret tt) _ _ _ tt eq_refl).
  rewrite (proj2 (Nat.eqb_neq num_outputs 0)) by lia.
  rewrite mbind_lift_Ok, mbind_modify, mbind_get_self.
  cbn [transitions emissions set_transitions set_emissions].
  assert (Hrows : allclose (sum_axis1 (zeros2 n n)) fone = false).
  { unfold sum_axis1, zeros2. rewrite map_replicate, (fsum_zeros_pos n Hn).
    destruct n as [|k]; [lia|]. reflexivity. }
  rewrite Hrows. cbn [assert]. rewrite mbind_lift_Raise.
  cbn [returned self_after transitions emissions set_transitions set_emissions].
  auto.
Qed.

Lemma initialize_hmm_unknown_type_witness :
  let o := initialize_hmm 3 256 ["w"; "o"; "r"; "d"]%char unit_model in
  returned o = Raise AssertionError /\
  transitions (self_after o) = zeros2 3 3 /\
  emissions (self_after o) = Emis2 (replicate 256 (replicate 3 (fdiv fone (of_nat 256)))).
Proof.
  apply (initialize_hmm_unknown_type unit_model 3 256 ["w"; "o"; "r"; "d"]%char).
  - intros H. discriminate H.
  - intros H. discriminate H.
  - lia.
  - lia.
Defined.

(** ** More on the composite model *)

Lemma assign_block_Raise A r0 c0 h w B e :
  assign_block A r0 c0 h w B = Raise e -> e = ValueError.
Proof. unfold assign_block. destruct (has_shape B h w); intros H; congruence. Qed.

Lemma emissions_2d_Raise h e : emissions_2d h = Raise e -> e = ValueError.
Proof. unfold emissions_2d. destruct (emissions h); intros H; congruence. Qed.

Lemma copy_letters_unregistered letter_HMMs c word :
  In c word -> letter_HMMs c = None ->
  forall TE, copy_letters word letter_HMMs TE = Raise ValueError.
Proof.
  unfold copy_letters. intros Hin Hc.
  induction word as [|a word IH]; intros [[T E] cur]; [contradiction|].
  rewrite for_each_cons. cbv beta iota.
  destruct (letter_HMMs a) as [h|] eqn:Ha; [|reflexivity].
  destruct Hin as [->|Hin]; [congruence|].
  destruct (assign_block T cur cur 3 3 (transitions h)) as [T'|e] eqn:HT;
    [|rewrite (assign_block_Raise _ _ _ _ _ _ _ HT); reflexivity].
  cbn [bind].
  destruct (emissions_2d h) as [lE|e] eqn:HlE;
    [|rewrite (emissions_2d_Raise _ _ HlE); reflexivity].
  cbn [bind].
  destruct (assign_block E 0 cur 256 3 lE) as [E'|e] eqn:HE;
    [|rewrite (assign_block_Raise _ _ _ _ _ _ _ HE); reflexivity].
  cbn [bind]. apply IH. exact Hin.
Qed.

(** X20.  For a word with a letter that has no prototype in [letter_HMMs]
    the builder raises [ValueError], whatever the other prototypes are. *)
Theorem initialize_combined_hmm_unregistered_letter :
  forall word letter_HMMs silence_HMM c,
    In c word ->
    letter_HMMs c = None ->
    initialize_combined_hmm word letter_HMMs silence_HMM = Raise ValueError.
Proof.
  intros word letter_HMMs silence_HMM c Hin Hc. unfold initialize_combined_hmm.
  destruct (assign_block _ 0 0 5 5 (transitions silence_HMM)) as [T|e] eqn:HT;
    [|rewrite (assign_block_Raise _ _ _ _ _ _ _ HT); reflexivity].
  cbn [bind].
  destruct (emissions_2d silence_HMM) as [sE|e] eqn:HsE;
    [|rewrite (emissions_2d_Raise _ _ HsE); reflexivity].
  cbn [bind].
  destruct (assign_block _ 0 0 256 5 sE) as [E|e] eqn:HE;
    [|rewrite (assign_block_Raise _ _ _ _ _ _ _ HE); reflexivity].
  cbn [bind].
  rewrite (copy_letters_unregistered letter_HMMs c word Hin Hc). reflexivity.
Qed.

Lemma initialize_combined_hmm_unregistered_letter_witness :
  initialize_combined_hmm ["a"; "k"]%char letter_table silence_prototype = Raise ValueError.
Proof.
  apply (initialize_combined_hmm_unregistered_letter _ _ _ "k"%char).
  - simpl. auto.
  - reflexivity.
Defined.

(** The entries of a matrix after a block is written into it. *)
Lemma get_write_block A r0 c0 B h w bh bw i j :
  shape A h w -> shape B bh bw ->
  i < h -> j < w ->
  get (write_block A r0 c0 B) i j =
  if decide ((r0 <= i < r0 + bh) /\ (c0 <= j < c0 + bw))
  then get B (i - r0) (j - c0) else get A i j.
Proof.
  intros HA HB Hi Hj.
  destruct (shape_row A h w i HA Hi) as (a & Ha & Hla).
  unfold get at 1. rewrite (nth_lookup _ i), write_block_lookup, Ha.
  destruct (B !! (i - r0)) as [b|] eqn:Hb.
  - pose proof (shape_lookup _ _ _ _ _ HB Hb) as Hlb.
    pose proof (lookup_lt_Some _ _ _ Hb) as Hlt. destruct HB as [HBl _].
    destruct (Nat.leb_spec r0 i) as [Hle|Hgt].
    + cbn [fmap option_fmap option_map from_option]. unfold id.
      rewrite (nth_lookup _ j).
      destruct (decide (c0 <= j < c0 + bw)) as [Hc|Hc].
      * rewrite decide_True by lia.
        rewrite list_lookup_inserts by lia.
        unfold get. rewrite (nth_lookup _ (i - r0)), Hb. cbn [from_option].
        rewrite (nth_lookup _ (j - c0)). reflexivity.
      * rewrite decide_False by lia.
        assert (Hrow : list_inserts c0 b a !! j = a !! j).
        { destruct (decide (j < c0)).
          - apply list_lookup_inserts_lt. assumption.
          - apply list_lookup_inserts_ge. lia. }
        rewrite Hrow. unfold get. rewrite (nth_lookup _ i), Ha. cbn [from_option].
        rewrite (nth_lookup _ j). reflexivity.
    + rewrite decide_False by lia. unfold get. rewrite (nth_lookup _ i), Ha. reflexivity.
  - apply lookup_ge_None in Hb. destruct HB as [HBl _].
    rewrite decide_False by lia. unfold get. rewrite (nth_lookup _ i), Ha. reflexivity.
Qed.

Lemma write_block_row_after A r0 c0 B i :
  r0 + length B <= i -> write_block A r0 c0 B !! i = A !! i.
Proof.
  intros Hi. rewrite write_block_lookup.
  destruct (B !! (i - r0)) as [b|] eqn:Hb; [|reflexivity].
  apply lookup_lt_Some in Hb. lia.
Qed.

(** What the loop over the letters leaves outside the letter blocks, and
    the emission columns it writes. *)
Lemma copy_letters_blocks letter_HMMs word : forall T E cur n T' E' c',
  registered letter_HMMs word = true ->
  shape T n n -> shape E 256 n -> cur + 3 * length word <= n ->
  copy_letters word letter_HMMs (T, E, cur) = Ok (T', E', c') ->
  shape E' 256 n /\
  (forall i, cur + 3 * length word <= i -> T' !! i = T !! i) /\
  (forall o j, o < 256 -> j < n -> j < cur \/ cur + 3 * length word <= j ->
     get E' o j = get E o j) /\
  (forall p c h e k o,
     word !! p = Some c -> letter_HMMs c = Some h -> emissions h = Emis2 e ->
     k < 3 -> o < 256 -> get E' o (cur + 3 * p + k) = get e o k).
Proof.
  unfold copy_letters.
  induction word as [|a word IH]; intros T E cur n T' E' c' Hreg HT HE Hfit Hrun.
  - simpl in Hrun. injection Hrun as <- <- <-.
    split; [exact HE|]. split; [reflexivity|]. split; [reflexivity|].
    intros p c h e k o Hp. discriminate Hp.
  - simpl in Hreg. apply andb_true_iff in Hreg. destruct Hreg as [Ha Hreg].
    destruct (letter_HMMs a) as [h|] eqn:Hh; [|discriminate].
    destruct (prototype_ok_inv 3 h Ha) as (Ht & e & He & Hes).
    rewrite for_each_cons in Hrun. cbv beta iota in Hrun. rewrite Hh in Hrun.
    rewrite (assign_block_Ok _ _ _ _ _ _ Ht) in Hrun. cbn [bind] in Hrun.
    rewrite (emissions_2d_Ok h e He) in Hrun. cbn [bind] in Hrun.
    rewrite (assign_block_Ok _ _ _ _ _ _ Hes) in Hrun. cbn [bind] in Hrun.
    cbn [length] in Hfit |- *.
    apply has_shape_shape in Ht. apply has_shape_shape in Hes.
    assert (HE1 : shape (write_block E 0 cur e) 256 n) by (apply shape_write_block; exact HE).
    destruct (IH (write_block T cur cur (transitions h)) (write_block E 0 cur e)
                (cur + 3) n T' E' c' Hreg
                (shape_write_block _ _ _ _ _ _ HT) HE1 ltac:(lia) Hrun)
      as (HS' & Hrows & Hout & Hcols).
    assert (Hkeep : forall o j, o < 256 -> j < n -> j < cur \/ cur + 3 <= j ->
              get (write_block E 0 cur e) o j = get E o j).
    { intros o j Ho Hj Hout'.
      rewrite (get_write_block E 0 cur e 256 n 256 3 o j HE Hes Ho Hj).
      rewrite decide_False by lia. reflexivity. }
    split; [exact HS'|]. split; [|split].
    + intros i Hi. rewrite Hrows by lia.
      apply write_block_row_after. destruct Ht as [-> _]. lia.
    + intros o j Ho Hj Hout'. rewrite Hout by (try assumption; lia).
      apply Hkeep; try assumption; lia.
    + intros p c h' e' k o Hp Hc He' Hk Ho. destruct p as [|p].
      * cbn in Hp. injection Hp as <-.
        assert (h' = h) by congruence. subst h'.
        assert (e' = e) by congruence. subst e'.
        replace (cur + 3 * 0 + k) with (cur + k) by lia.
        rewrite Hout by (try assumption; lia).
        rewrite (get_write_block E 0 cur e 256 n 256 3 o (cur + k) HE Hes Ho ltac:(lia)).
        rewrite decide_True by lia. f_equal; lia.
      * cbn in Hp.
        replace (cur + 3 * S p + k) with (cur + 3 + 3 * p + k) by lia.
        eapply Hcols; eauto.
Qed.

(** The builder, step by step, for a word of registered letters. *)
Lemma initialize_combined_hmm_steps word letter_HMMs silence_HMM sE :
  registered letter_HMMs word = true ->
  has_shape (transitions silence_HMM) 5 5 = true ->
  emissions silence_HMM = Emis2 sE ->
  has_shape sE 256 5 = true ->
  let n := 10 + 3 * length word in
  let T1 := write_block (zeros2 n n) 0 0 (transitions silence_HMM) in
  let E1 := write_block (zeros2 256 n) 0 0 sE in
  exists T2 E2 T3,
    copy_letters word letter_HMMs (T1, E1, 5) = Ok (T2, E2, n - 5) /\
    shape T2 n n /\
    (forall i, i < 5 -> T2 !! i = T1 !! i) /\
    for_each (seq 5 (n - 5 - 5)) (link_row n) T2 = Ok T3 /\
    initialize_combined_hmm word letter_HMMs silence_HMM =
    Ok (new_HMM n 256 (write_block T3 (n - 5) (n - 5) (transitions silence_HMM))
          (Emis2 (write_block E2 0 (n - 5) sE))).
Proof.
  intros Hreg Hst HsE HsEs n T1 E1.
  assert (HS1 : shape T1 n n) by (apply shape_write_block, shape_zeros2).
  destruct (copy_letters_Ok letter_HMMs word T1 E1 5 n Hreg HS1)
    as (T2 & E2 & Hcopy & HS2 & _ & Hleft).
  replace (5 + 3 * length word) with (n - 5) in Hcopy by (subst n; lia).
  destruct (link_loop_returns n (seq 5 (n - 5 - 5)) T2) as [T3 Hlink].
  exists T2, E2, T3. split; [exact Hcopy|]. split; [exact HS2|].
  split; [exact Hleft|]. split; [exact Hlink|].
  unfold initialize_combined_hmm.
  change (5 + 5 + 3 * length word) with n.
  rewrite (assign_block_Ok _ _ _ _ _ _ Hst). cbn [bind].
  rewrite (emissions_2d_Ok _ _ HsE). cbn [bind].
  rewrite (assign_block_Ok _ _ _ _ _ _ HsEs). cbn [bind].
  fold T1. fold E1. rewrite Hcopy. cbn [bind fst snd].
  unfold link_letters. rewrite Hlink. cbn [bind].
  rewrite (assign_block_Ok _ _ _ _ _ _ Hst). cbn [bind].
  rewrite (assign_block_Ok _ _ _ _ _ _ HsEs). cbn [bind].
  reflexivity.
Qed.

(** X21.  In the composite model of a word of registered letters the
    transitions are [n] by [n] for [n = 10 + 3 * len(word)]; the first five
    rows hold the transitions of the silence prototype in their first five
    columns and 0 in every other column (no transition leaves the leading
    silence), and the last five rows hold them in their last five columns
    and 0 before. *)
Theorem initialize_combined_hmm_silence_blocks :
  forall word letter_HMMs silence_HMM,
    registered letter_HMMs word = true ->
    prototype_ok 5 silence_HMM = true ->
    exists m,
      initialize_combined_hmm word letter_HMMs silence_HMM = Ok m /\
      let n := 10 + 3 * length word in
      shape (transitions m) n n /\
      (forall i j, i < 5 -> j < n ->
         get (transitions m) i j =
         if decide (j < 5) then get (transitions silence_HMM) i j else fzero) /\
      (forall i j, i < 5 -> j < n ->
         get (transitions m) (n - 5 + i) j =
         if decide (n - 5 <= j) then get (transitions silence_HMM) i (j - (n - 5))
         else fzero).
Proof.
  intros word letter_HMMs silence_HMM Hreg Hsil.
  destruct (prototype_ok_inv 5 silence_HMM Hsil) as (Hst & sE & HsE & HsEs).
  destruct (initialize_combined_hmm_steps word letter_HMMs silence_HMM sE
              Hreg Hst HsE HsEs) as (T2 & E2 & T3 & Hcopy & HS2 & Hleft & Hlink & Hrun).
  eexists. split; [exact Hrun|]. cbv zeta.
  set (n := 10 + 3 * length word) in *.
  set (T1 := write_block (zeros2 n n) 0 0 (transitions silence_HMM)) in *.
  set (E1 := write_block (zeros2 256 n) 0 0 sE) in *.
  cbn [transitions new_HMM].
  apply has_shape_shape in Hst. apply has_shape_shape in HsEs.
  assert (Hn : 10 <= n) by (subst n; lia).
  assert (HS3 : shape T3 n n).
  { apply (link_loop_keeps_row n 0 _ _ _ Hlink); [|exact HS2].
    intros H. apply in_seq in H. lia. }
  assert (Hout : forall l, l < 5 \/ n - 5 <= l -> T3 !! l = T2 !! l).
  { intros l Hl. apply (link_loop_keeps_row n l _ _ _ Hlink).
    intros H. apply in_seq in H. lia. }
  assert (HT1 : forall i j, i < n -> j < n ->
            get T1 i j = if decide (i < 5 /\ j < 5)
                         then get (transitions silence_HMM) i j else fzero).
  { intros i j Hi Hj. subst T1.
    rewrite (get_write_block _ 0 0 _ n n 5 5 i j (shape_zeros2 n n) Hst Hi Hj).
    destruct (decide (i < 5 /\ j < 5)).
    - rewrite decide_True by lia. rewrite !Nat.sub_0_r. reflexivity.
    - rewrite decide_False by lia. apply get_zeros2. }
  split; [apply shape_write_block; exact HS3|]. split.
  - intros i j Hi Hj.
    rewrite (get_row_eq T3 _ i j) by (apply write_block_row_before; lia).
    rewrite (get_row_eq T2 _ i j) by (apply Hout; lia).
    rewrite (get_row_eq T1 _ i j) by (apply Hleft; lia).
    rewrite HT1 by lia.
    destruct (decide (j < 5)); [rewrite decide_True by lia | rewrite decide_False by lia];
      reflexivity.
  - intros i j Hi Hj.
    rewrite (get_write_block T3 (n - 5) (n - 5) _ n n 5 5 _ j HS3 Hst) by lia.
    destruct (decide (n - 5 <= j)).
    + rewrite decide_True by lia. f_equal. lia.
    + rewrite decide_False by lia.
      rewrite (get_row_eq T2 _ _ j) by (apply Hout; lia).
      assert (HE1 : shape E1 256 n) by (apply shape_write_block, shape_zeros2).
      assert (HS1 : shape T1 n n) by (apply shape_write_block, shape_zeros2).
      destruct (copy_letters_blocks letter_HMMs word T1 E1 5 n T2 E2 (n - 5)
                  Hreg HS1 HE1 ltac:(subst n; lia) Hcopy) as (_ & Hrows & _).
      rewrite (get_row_eq T1 _ _ j) by (apply Hrows; subst n; lia).
      rewrite HT1 by lia. rewrite decide_False by lia. reflexivity.
Qed.

Lemma initialize_combined_hmm_silence_blocks_witness :
  exists m,
    initialize_combined_hmm ["a"; "b"]%char letter_table silence_prototype = Ok m /\
    let n := 10 + 3 * 2 in
    shape (transitions m) n n /\
    (forall i j, i < 5 -> j < n ->
       get (transitions m) i j =
       if decide (j < 5) then get (transitions silence_prototype) i j else fzero) /\
    (forall i j, i < 5 -> j < n ->
       get (transitions m) (n - 5 + i) j =
       if decide (n - 5 <= j) then get (transitions silence_prototype) i (j - (n - 5))
       else fzero).
Proof.
  apply (initialize_combined_hmm_silence_blocks ["a"; "b"]%char letter_table
           silence_prototype); reflexivity.
Defined.

(** X22.  In the composite model of a word of registered letters the
    emission table is 256 by [n]; its first five and its last five columns
    are the columns of the silence prototype's emissions, and the three
    columns of the [p]-th letter are the columns of that letter's
    prototype. *)
Theorem initialize_combined_hmm_emission_columns :
  forall word letter_HMMs silence_HMM,
    registered letter_HMMs word = true ->
    prototype_ok 5 silence_HMM = true ->
    exists m,
      initialize_combined_hmm word letter_HMMs silence_HMM = Ok m /\
      let n := 10 + 3 * length word in
      let E := emission_matrix m in
      shape E 256 n /\
      forall o, o < 256 ->
        (forall j, j < 5 ->
           get E o j = get (emission_matrix silence_HMM) o j /\
           get E o (n - 5 + j) = get (emission_matrix silence_HMM) o j) /\
        (forall p c h k,
           word !! p = Some c -> letter_HMMs c = Some h -> k < 3 ->
           get E o (5 + 3 * p + k) = get (emission_matrix h) o k).
Proof.
  intros word letter_HMMs silence_HMM Hreg Hsil.
  destruct (prototype_ok_inv 5 silence_HMM Hsil) as (Hst & sE & HsE & HsEs).
  destruct (initialize_combined_hmm_steps word letter_HMMs silence_HMM sE
              Hreg Hst HsE HsEs) as (T2 & E2 & T3 & Hcopy & HS2 & Hleft & Hlink & Hrun).
  eexists. split; [exact Hrun|]. cbv zeta.
  set (n := 10 + 3 * length word) in *.
  set (T1 := write_block (zeros2 n n) 0 0 (transitions silence_HMM)) in *.
  set (E1 := write_block (zeros2 256 n) 0 0 sE) in *.
  assert (Hem : emission_matrix silence_HMM = sE)
    by (unfold emission_matrix; rewrite HsE; reflexivity).
  rewrite Hem.
  change (emission_matrix (new_HMM n 256 _ (Emis2 (write_block E2 0 (n - 5) sE))))
    with (write_block E2 0 (n - 5) sE).
  apply has_shape_shape in HsEs.
  assert (Hn : 10 <= n) by (subst n; lia).
  assert (HE1 : shape E1 256 n) by (apply shape_write_block, shape_zeros2).
  assert (HS1 : shape T1 n n) by (apply shape_write_block, shape_zeros2).
  destruct (copy_letters_blocks letter_HMMs word T1 E1 5 n T2 E2 (n - 5)
              Hreg HS1 HE1 ltac:(subst n; lia) Hcopy) as (HSE2 & _ & Hout & Hcols).
  split; [apply shape_write_block; exact HSE2|].
  intros o Ho. split.
  - intros j Hj. split.
    + rewrite (get_write_block E2 0 (n - 5) sE 256 n 256 5 o j HSE2 HsEs) by lia.
      rewrite decide_False by lia.
      rewrite Hout by lia. subst E1.
      rewrite (get_write_block _ 0 0 sE 256 n 256 5 o j (shape_zeros2 _ _) HsEs) by lia.
      rewrite decide_True by lia. rewrite !Nat.sub_0_r. reflexivity.
    + rewrite (get_write_block E2 0 (n - 5) sE 256 n 256 5 o _ HSE2 HsEs) by lia.
      rewrite decide_True by lia. rewrite Nat.sub_0_r.
      replace (n - 5 + j - (n - 5)) with j by lia. reflexivity.
  - intros p c h k Hp Hc Hk.
    pose proof (lookup_lt_Some _ _ _ Hp) as Hplen.
    assert (Hh : prototype_ok 3 h = true).
    { unfold registered in Hreg. rewrite forallb_forall in Hreg.
      specialize (Hreg c (proj1 (list_elem_of_In _ _) (list_elem_of_lookup_2 _ _ _ Hp))).
      rewrite Hc in Hreg. exact Hreg. }
    destruct (prototype_ok_inv 3 h Hh) as (_ & e & He & _).
    unfold emission_matrix. rewrite He.
    rewrite (get_write_block E2 0 (n - 5) sE 256 n 256 5 o _ HSE2 HsEs)
      by (subst n; lia).
    rewrite decide_False by (subst n; lia).
    eapply Hcols; eauto.
Qed.

Lemma initialize_combined_hmm_emission_columns_witness :
  exists m,
    initialize_combined_hmm ["a"; "b"]%char letter_table silence_prototype = Ok m /\
    let n := 10 + 3 * 2 in
    let E := emission_matrix m in
    shape E 256 n /\
    forall o, o < 256 ->
      (forall j, j < 5 ->
         get E o j = get (emission_matrix silence_prototype) o j /\
         get E o (n - 5 + j) = get (emission_matrix silence_prototype) o j) /\
      (forall p c h k,
         ["a"; "b"]%char !! p = Some c -> letter_table c = Some h -> k < 3 ->
         get E o (5 + 3 * p + k) = get (emission_matrix h) o k).
Proof.
  apply (initialize_combined_hmm_emission_columns ["a"; "b"]%char letter_table
           silence_prototype); reflexivity.
Defined.

(** The loop over the letters of the linking definition: it returns, and
    has set the entry before the first state of every letter block to 1. *)
Lemma linked_loop letter_HMMs word : forall T E cur n,
  registered letter_HMMs word = true ->
  shape T n n -> 1 <= cur -> cur + 3 * length word <= n ->
  exists T' E',
    for_each word
      (fun letter '(T, E, current_state_index) =>
         match letter_HMMs letter with
         | None => Raise KeyError
         | Some letter_hmm =>
             let end_state_index := current_state_index + 3 in
             let T := set2 T (current_state_index - 1) current_state_index fone in
             T <- assign_block T current_state_index current_state_index 3 3
                    (transitions letter_hmm) ;;
             lE <- emissions_2d letter_hmm ;;
             E <- assign_block E 0 current_state_index 256 3 lE ;;
             Ok (T, E, end_state_index)
         end)
      (T, E, cur) = Ok (T', E', cur + 3 * length word) /\
    shape T' n n /\
    (forall i, i + 1 < cur -> T' !! i = T !! i) /\
    (forall p, p < length word -> get T' (cur + 3 * p - 1) (cur + 3 * p) = fone).
Proof.
  induction word as [|c word IH]; intros T E cur n Hreg HS Hcur Hfit.
  - cbn [for_each length]. exists T, E. rewrite Nat.mul_0_r, Nat.add_0_r.
    split; [reflexivity|]. split; [exact HS|]. split; [reflexivity|]. intros p Hp. lia.
  - simpl in Hreg. apply andb_true_iff in Hreg. destruct Hreg as [Hc Hreg].
    destruct (letter_HMMs c) as [h|] eqn:Hh; [|discriminate].
    destruct (prototype_ok_inv 3 h Hc) as (Ht & e & He & Hes).
    rewrite for_each_cons. cbv beta iota zeta. rewrite Hh.
    rewrite (assign_block_Ok _ _ _ _ _ _ Ht). cbn [bind].
    rewrite (emissions_2d_Ok h e He). cbn [bind].
    rewrite (assign_block_Ok _ _ _ _ _ _ Hes). cbn [bind].
    cbn [length] in Hfit |- *.
    set (T1 := write_block (set2 T (cur - 1) cur fone) cur cur (transitions h)).
    assert (HS1 : shape T1 n n) by (apply shape_write_block, shape_set2; exact HS).
    destruct (IH T1 (write_block E 0 cur e) (cur + 3) n Hreg HS1 ltac:(lia) ltac:(lia))
      as (T' & E' & Hrun & HS' & Hrows & Hglue).
    exists T', E'. split.
    { cbv zeta in Hrun. rewrite Hrun. f_equal. f_equal. lia. }
    split; [exact HS'|]. split.
    + intros i Hi. rewrite Hrows by lia. subst T1.
      rewrite write_block_row_before by lia.
      unfold set2. apply list_lookup_alter_ne. lia.
    + intros p Hp. destruct p as [|p].
      * rewrite Nat.mul_0_r, Nat.add_0_r.
        rewrite (get_row_eq T1 T' (cur - 1) cur) by (apply Hrows; lia).
        subst T1.
        rewrite (get_row_eq (set2 T (cur - 1) cur fone) _ (cur - 1) cur)
          by (apply write_block_row_before; lia).
        apply get_set2_eq. apply (inb_shape T n n); [exact HS | lia | lia].
      * replace (cur + 3 * S p - 1) with (cur + 3 + 3 * p - 1) by lia.
        replace (cur + 3 * S p) with (cur + 3 + 3 * p) by lia.
        apply Hglue. lia.
Qed.

(** X23.  The definition of [initialize_combined_hmm] that links the blocks
    (lines 801-833) returns, for a word of registered letters, a model in
    which the transition from the state before every letter block into the
    first state of the block is 1, and the transitions from the last state
    before the trailing silence into each of its five states are 1. *)
Theorem initialize_combined_hmm_linked_glue :
  forall word letter_HMMs silence_HMM,
    registered letter_HMMs word = true ->
    prototype_ok 5 silence_HMM = true ->
    exists m,
      initialize_combined_hmm_linked word letter_HMMs silence_HMM = Ok m /\
      let n := 10 + 3 * length word in
      (forall p, p < length word ->
         get (transitions m) (5 + 3 * p - 1) (5 + 3 * p) = fone) /\
      (forall j, n - 5 <= j -> j < n -> get (transitions m) (n - 6) j = fone).
Proof.
  intros word letter_HMMs silence_HMM Hreg Hsil.
  destruct (prototype_ok_inv 5 silence_HMM Hsil) as (Hst & sE & HsE & HsEs).
  unfold initialize_combined_hmm_linked.
  change (5 + 5 + 3 * length word) with (10 + 3 * length word).
  set (n := 10 + 3 * length word).
  rewrite (assign_block_Ok _ _ _ _ _ _ Hst). cbn [bind].
  rewrite (emissions_2d_Ok _ _ HsE). cbn [bind].
  rewrite (assign_block_Ok _ _ _ _ _ _ HsEs). cbn [bind].
  set (T1 := write_block (zeros2 n n) 0 0 (transitions silence_HMM)).
  assert (HS1 : shape T1 n n) by (apply shape_write_block, shape_zeros2).
  match goal with
  | |- context [for_each word _ (T1, ?E1, 5)] =>
      destruct (linked_loop letter_HMMs word T1 E1 5 n Hreg HS1 ltac:(lia)
                  ltac:(subst n; lia)) as (T2 & E2 & Hloop & HS2 & _ & Hglue)
  end.
  cbv zeta in Hloop. rewrite Hloop. cbn [bind fst snd].
  rewrite (assign_block_Ok _ _ _ _ _ _ Hst). cbn [bind].
  rewrite (assign_block_Ok _ _ _ _ _ _ HsEs). cbn [bind].
  eexists. split; [reflexivity|]. cbv zeta. cbn [transitions new_HMM].
  replace (5 + 3 * length word - 1) with (n - 6) by (subst n; lia).
  assert (Hrow : forall i j, i < n - 5 ->
            get (write_block (alter (list_inserts (n - 5) (ones 5)) (n - 6) T2)
                   (n - 5) (n - 5) (transitions silence_HMM)) i j =
            get (alter (list_inserts (n - 5) (ones 5)) (n - 6) T2) i j).
  { intros i j Hi. apply get_row_eq. apply write_block_row_before. exact Hi. }
  split.
  - intros p Hp. rewrite Hrow by (subst n; lia).
    rewrite (get_row_eq T2 _ (5 + 3 * p - 1) (5 + 3 * p))
      by (apply list_lookup_alter_ne; subst n; lia).
    apply Hglue. exact Hp.
  - intros j Hj1 Hj2. rewrite Hrow by (subst n; lia).
    destruct (shape_row T2 n n (n - 6) HS2 ltac:(subst n; lia)) as (r & Hr & Hlen).
    unfold get. rewrite (nth_lookup _ (n - 6)), list_lookup_alter_eq, Hr.
    cbn [fmap option_fmap option_map from_option]. unfold id.
    rewrite (nth_lookup _ j).
    rewrite list_lookup_inserts
      by (unfold ones; rewrite ?length_replicate; lia).
    unfold ones. rewrite lookup_replicate_2 by lia. reflexivity.
Qed.

Lemma initialize_combined_hmm_linked_glue_witness :
  exists m,
    initialize_combined_hmm_linked ["a"; "b"]%char letter_table silence_prototype = Ok m /\
    let n := 10 + 3 * 2 in
    (forall p, p < 2 -> get (transitions m) (5 + 3 * p - 1) (5 + 3 * p) = fone) /\
    (forall j, n - 5 <= j -> j < n -> get (transitions m) (n - 6) j = fone).
Proof.
  apply (initialize_combined_hmm_linked_glue ["a"; "b"]%char letter_table
           silence_prototype); reflexivity.
Defined.

(** *** The rows of the first two states of a letter block *)

(** The row of a state [l] of a letter block that is not its last, after
    the linking loop: the row of [transition_prob_matrix] is written from
    the diagonal on. *)
Lemma link_letters_inner_state n T T3 l r :
  for_each (seq 5 (n - 5 - 5)) (link_row n) T = Ok T3 ->
  5 <= l -> l < n - 5 -> (l - 5) mod 3 <> 2 ->
  transition_prob_matrix !! ((l - 5) mod 3) = Some r ->
  T3 !! l = list_inserts l r <$> T !! l.
Proof.
  intros Hrun H5 Hl Hmod Hr.
  replace (n - 5 - 5) with ((l - 5) + S (n - 5 - S l)) in Hrun by lia.
  rewrite seq_app in Hrun. replace (5 + (l - 5)) with l in Hrun by lia.
  apply for_each_app_Ok in Hrun. destruct Hrun as (Ta & Ha & Hrun).
  cbn [seq] in Hrun. rewrite for_each_cons in Hrun.
  apply bind_Ok in Hrun. destruct Hrun as (Tb & Hb & Hc).
  destruct (link_loop_keeps_row n l _ _ _ Ha) as [Hla _].
  { rewrite in_seq. lia. }
  destruct (link_loop_keeps_row n l _ _ _ Hc) as [Hlc _].
  { rewrite in_seq. lia. }
  unfold link_row in Hb.
  destruct (Nat.eqb_spec ((l - 5) mod 3) 2) as [|_]; [contradiction|].
  unfold index in Hb. rewrite Hr in Hb. cbn [bind] in Hb. injection Hb as <-.
  rewrite Hlc, list_lookup_alter_eq, Hla. reflexivity.
Qed.

(** X24.  In the composite model of a word of registered letters, whatever
    the transitions of the letter prototypes are: the first state of every
    letter block stays with 0.8, moves to the second with 0.2 and to the
    third with 0; the second state has a self-loop of 0, moves to the third
    state with 0.8 and to the state after the block with 0.2 (the row of
    [transition_prob_matrix] is written from the diagonal on). *)
Theorem initialize_combined_hmm_letter_rows :
  forall word letter_HMMs silence_HMM,
    registered letter_HMMs word = true ->
    prototype_ok 5 silence_HMM = true ->
    exists m,
      initialize_combined_hmm word letter_HMMs silence_HMM = Ok m /\
      forall p, p < length word ->
        let first := 5 + 3 * p in
        let middle := 5 + 3 * p + 1 in
        (get (transitions m) first first = f0_8 /\
         get (transitions m) first (first + 1) = f0_2 /\
         get (transitions m) first (first + 2) = fzero) /\
        (get (transitions m) middle middle = fzero /\
         get (transitions m) middle (middle + 1) = f0_8 /\
         get (transitions m) middle (middle + 2) = f0_2).
Proof.
  intros word letter_HMMs silence_HMM Hreg Hsil.
  destruct (prototype_ok_inv 5 silence_HMM Hsil) as (Hst & sE & HsE & HsEs).
  destruct (initialize_combined_hmm_steps word letter_HMMs silence_HMM sE
              Hreg Hst HsE HsEs) as (T2 & E2 & T3 & Hcopy & HS2 & Hleft & Hlink & Hrun).
  eexists. split; [exact Hrun|].
  set (n := 10 + 3 * length word) in *.
  intros p Hp. cbv zeta. cbn [transitions new_HMM].
  assert (Hrow : forall l r k,
            5 <= l -> l + 2 < n - 4 -> (l - 5) mod 3 <> 2 ->
            transition_prob_matrix !! ((l - 5) mod 3) = Some r -> length r = 3 ->
            k < 3 ->
            get (write_block T3 (n - 5) (n - 5) (transitions silence_HMM)) l (l + k) =
            nth k r fzero).
  { intros l r k H5 Hl Hmod Hr Hlen Hk.
    rewrite (get_row_eq T3 _ l (l + k)) by (apply write_block_row_before; lia).
    destruct (shape_row T2 n n l HS2 ltac:(lia)) as (row & Hrow & Hrlen).
    pose proof (link_letters_inner_state n T2 T3 l r Hlink H5 ltac:(lia) Hmod Hr) as H3.
    rewrite Hrow in H3. cbn in H3.
    unfold get. rewrite (nth_lookup _ l), H3. cbn [from_option]. unfold id.
    rewrite (nth_lookup _ (l + k)), list_lookup_inserts by lia.
    replace (l + k - l) with k by lia. symmetry. apply nth_lookup. }
  assert (Hm0 : (5 + 3 * p - 5) mod 3 = 0).
  { replace (5 + 3 * p - 5) with (p * 3) by lia. apply Nat.Div0.mod_mul. }
  assert (Hm1 : (5 + 3 * p + 1 - 5) mod 3 = 1).
  { replace (5 + 3 * p + 1 - 5) with (1 + p * 3) by lia.
    rewrite Nat.Div0.mod_add. reflexivity. }
  split.
  - pose proof (Hrow (5 + 3 * p) [f0_8; f0_2; fzero]) as H.
    rewrite Hm0 in H.
    pose proof (H 0 ltac:(lia) ltac:(subst n; lia) ltac:(lia) eq_refl eq_refl ltac:(lia)) as H0.
    pose proof (H 1 ltac:(lia) ltac:(subst n; lia) ltac:(lia) eq_refl eq_refl ltac:(lia)) as H1.
    pose proof (H 2 ltac:(lia) ltac:(subst n; lia) ltac:(lia) eq_refl eq_refl ltac:(lia)) as H2.
    rewrite Nat.add_0_r in H0. auto.
  - pose proof (Hrow (5 + 3 * p + 1) [fzero; f0_8; f0_2]) as H.
    rewrite Hm1 in H.
    pose proof (H 0 ltac:(lia) ltac:(subst n; lia) ltac:(lia) eq_refl eq_refl ltac:(lia)) as H0.
    pose proof (H 1 ltac:(lia) ltac:(subst n; lia) ltac:(lia) eq_refl eq_refl ltac:(lia)) as H1.
    pose proof (H 2 ltac:(lia) ltac:(subst n; lia) ltac:(lia) eq_refl eq_refl ltac:(lia)) as H2.
    rewrite Nat.add_0_r in H0. auto.
Qed.

Lemma initialize_combined_hmm_letter_rows_witness :
  exists m,
    initialize_combined_hmm ["a"; "b"]%char letter_table silence_prototype = Ok m /\
    forall p, p < 2 ->
      let first := 5 + 3 * p in
      let middle := 5 + 3 * p + 1 in
      (get (transitions m) first first = f0_8 /\
       get (transitions m) first (first + 1) = f0_2 /\
       get (transitions m) first (first + 2) = fzero) /\
      (get (transitions m) middle middle = fzero /\
       get (transitions m) middle (middle + 1) = f0_8 /\
       get (transitions m) middle (middle + 2) = f0_2).
Proof.
  apply (initialize_combined_hmm_letter_rows ["a"; "b"]%char letter_table
           silence_prototype); reflexivity.
Defined.

(** ** The log-domain backward pass *)

Section LogDomainBackwardFacts.

Variable np_log : float -> float.
Variable logsumexp : vec -> float.

Lemma log_terms_Ok self e obs j (next : vec) :
  emissions self = Emis2 e ->
  shape (transitions self) (num_states self) (num_states self) ->
  shape e (num_outputs self) (num_states self) ->
  obs < num_outputs self -> j < num_states self ->
  length next = num_states self ->
  exists terms, log_terms np_log self obs j next = Ok terms.
Proof.
  intros He HT HE Hobs Hj Hnext. unfold log_terms. rewrite He.
  destruct (shape_row e _ _ obs HE Hobs) as (row & Hrow & Lrow).
  destruct (lookup_lt_is_Some_2 row j) as [x Hx]; [lia|].
  destruct (shape_row _ _ _ j HT Hj) as (Trow & HTrow & LTrow).
  unfold index. rewrite Hrow. cbn [bind]. rewrite Hx. cbn [bind].
  rewrite HTrow. cbn [bind].
  rewrite length_map, LTrow, Hnext, Nat.eqb_refl. eauto.
Qed.

Lemma log_null_sweep_back_Ok self (row : vec) :
  null_arcs_in_range self = true ->
  length row = num_states self ->
  exists row',
    for_each (rev (topo_order self))
      (fun s row =>
         match dict_get (null_arcs self) s with
         | None => Ok row
         | Some dests =>
             for_each dests
               (fun '(s_y, p) row => log_add_scaled np_log logsumexp row s s_y p) row
         end) row = Ok row' /\
    length row' = num_states self.
Proof.
  intros Hr Hlen. unfold null_arcs_in_range in Hr. rewrite forallb_forall in Hr.
  apply (for_each_invariant (fun row : vec => length row = num_states self));
    [|exact Hlen].
  intros s r Hs Hl. apply in_rev in Hs. specialize (Hr s Hs). unfold null_row in Hr.
  destruct (dict_get (null_arcs self) s) as [dests|]; [|eauto].
  rewrite forallb_forall in Hr.
  apply (for_each_invariant (fun row : vec => length row = num_states self));
    [|exact Hl].
  intros [d p] r' Hd Hl'. specialize (Hr _ Hd). cbn beta iota in Hr.
  apply andb_true_iff in Hr. destruct Hr as [Hsn Hdn].
  apply Nat.ltb_lt in Hsn. apply Nat.ltb_lt in Hdn.
  unfold log_add_scaled, index.
  destruct (lookup_lt_is_Some_2 r' s) as [a Ha]; [lia|].
  destruct (lookup_lt_is_Some_2 r' d) as [b Hb]; [lia|].
  rewrite Ha, Hb. cbn [bind]. eexists. split; [reflexivity|].
  rewrite length_insert. exact Hl'.
Qed.

Lemma backward_log_returns self data :
  well_formed self = true ->
  symbols_in_range self data = true ->
  exists L, backward_log np_log logsumexp self data None = Ok L /\
            length L = S (length data) /\
            Forall (fun r : vec => length r = num_states self) L /\
            L !! length data = Some (zeros (num_states self)).
Proof.
  intros Hwf Hdata.
  destruct (well_formed_inv self Hwf) as (e & He & HT & HE & Hnull).
  unfold backward_log. cbn [bind].
  set (I := fun L : matrix =>
              length L = S (length data) /\
              Forall (fun r : vec => length r = num_states self) L /\
              L !! length data = Some (zeros (num_states self))).
  match goal with
  | |- exists L, for_each ?l ?body ?L0 = Ok L /\ _ =>
      destruct (for_each_invariant I l body) with (s := L0) as (L & HL & HI)
  end.
  - intros t L Ht (HLlen & HLrows & HLlast). apply in_rev, in_seq in Ht.
    destruct (lookup_lt_is_Some_2 data t) as [o Ho]; [lia|].
    assert (Hobs : o < num_outputs self).
    { unfold symbols_in_range in Hdata. rewrite forallb_forall in Hdata.
      apply Nat.ltb_lt, Hdata. apply list_elem_of_In. eapply list_elem_of_lookup_2; eauto. }
    destruct (lookup_lt_is_Some_2 L t) as [row Hrow]; [lia|].
    destruct (lookup_lt_is_Some_2 L (t + 1)) as [next Hnext]; [lia|].
    rewrite Forall_forall in HLrows.
    pose proof (HLrows row (list_elem_of_lookup_2 _ _ _ Hrow)) as Lrow.
    pose proof (HLrows next (list_elem_of_lookup_2 _ _ _ Hnext)) as Lnext.
    unfold index at 1. rewrite Ho. cbn [bind].
    unfold index at 1. rewrite Hrow. cbn [bind].
    match goal with
    | |- exists s', (row0 <- for_each ?l ?body ?r0 ;; _) = Ok s' /\ _ =>
        destruct (for_each_invariant (fun r : vec => length r = num_states self) l body)
          with (s := r0) as (row1 & Hrow1 & Lrow1)
    end.
    + intros j r Hj Lr. apply in_seq in Hj.
      unfold index at 1. rewrite Hnext. cbn [bind].
      destruct (log_terms_Ok self e o j next He HT HE Hobs ltac:(lia) Lnext)
        as [terms ->]. cbn [bind].
      destruct (lookup_lt_is_Some_2 r j) as [x Hx]; [lia|].
      unfold index. rewrite Hx. cbn [bind]. eexists. split; [reflexivity|].
      rewrite length_insert. exact Lr.
    + exact Lrow.
    + rewrite Hrow1. cbn [bind].
      destruct (log_null_sweep_back_Ok self row1 Hnull Lrow1) as (row2 & -> & Lrow2).
      cbn [bind]. eexists. split; [reflexivity|]. split; [|split].
      * rewrite length_insert. exact HLlen.
      * apply Forall_insert; [apply Forall_forall; exact HLrows | exact Lrow2].
      * rewrite list_lookup_insert_ne by lia. exact HLlast.
  - subst I. cbv beta. split; [|split].
    + rewrite length_insert. unfold zeros2. rewrite length_replicate. lia.
    + apply Forall_insert.
      * apply Forall_replicate. apply length_replicate.
      * apply length_replicate.
    + rewrite Nat.add_1_r. apply list_lookup_insert_eq.
      unfold zeros2. rewrite length_replicate. lia.
  - exists L. split; [exact HL | exact HI].
Qed.

End LogDomainBackwardFacts.

(** X25.  On every well-formed model and sequence of symbols of the
    alphabet, [backward_log] (with [np.log] and [logsumexp] any functions)
    returns a trellis of [T + 1] rows of one entry per state, whose last row
    is the zero vector. *)
Theorem backward_log_returns_trellis :
  forall np_log logsumexp self data,
    well_formed self = true ->
    symbols_in_range self data = true ->
    exists L, backward_log np_log logsumexp self data None = Ok L /\
              length L = S (length data) /\
              Forall (fun r : vec => length r = num_states self) L /\
              L !! length data = Some (zeros (num_states self)).
Proof. exact backward_log_returns. Qed.

Lemma backward_log_returns_trellis_witness :
  exists L, backward_log (fun x => x) fsum null_arc_model [0; 1] None = Ok L /\
            length L = 3 /\
            Forall (fun r : vec => length r = 2) L /\
            L !! 2 = Some (zeros 2).
Proof.
  apply (backward_log_returns_trellis (fun x => x) fsum null_arc_model [0; 1]);
    reflexivity.
Defined.
